(** * A TFTP server (RFC 1350): packet codec, netascii transcoding and the
      stop-and-wait transfer engine

    Shallow embedding of package [tftp]: [packet.go] (request, ACK and ERROR
    parsing), [tftp.go] ([toNetASCII], [fromNetASCII]), [netascii.go]
    ([netASCIIResponseWriter]) and [response.go] ([response.Write], [Flush],
    [writeOneBlock]).

    Conventions.  A Go [[]byte] and a Go [string] are both [list byte]; a Go
    [int] and the [uint16] types are [Z], with the 16-bit wrap-around written
    out.  A Go [(T, error)] result of which exactly one component is set is a
    [result T].  The socket of a transfer is a script of the replies the
    network gives to each call, together with a log of the datagrams handed
    to [WriteTo]. *)

From Stdlib Require Import ZArith List Bool Lia.
From Stdlib Require Import Init.Byte Strings.Byte.
Import ListNotations.
Local Open Scope Z_scope.

Set Implicit Arguments.

(* ================================================================== *)
(** * Part I: definitions *)
(* ================================================================== *)

(** ** Bytes, slices and the Go library functions the package calls *)

Definition byte := Init.Byte.byte.

Definition NUL : byte := x00.
Definition LF : byte := x0a.
Definition CR : byte := x0d.

Definition byte_to_Z (c : byte) : Z := Z.of_N (Byte.to_N c).

(** Conversion [byte(v)] of an unsigned integer: the low eight bits. *)
Definition byte_of_Z (v : Z) : byte :=
  match Byte.of_N (Z.to_N (v mod 256)) with
  | Some c => c
  | None => x00
  end.

(** [len(b)] *)
Definition len (A : Type) (b : list A) : Z := Z.of_nat (length b).

(** [b[lo:hi]] and [b[lo:]] for indices within bounds. *)
Definition slice (A : Type) (b : list A) (lo hi : Z) : list A :=
  firstn (Z.to_nat (hi - lo)) (skipn (Z.to_nat lo) b).

Definition slice_from (A : Type) (b : list A) (lo : Z) : list A :=
  skipn (Z.to_nat lo) b.

(** [b[i]] *)
Definition index (b : list byte) (i : Z) : byte := nth (Z.to_nat i) b NUL.

Module binary.

(** [binary.BigEndian.Uint16(b)]: [uint16(b[1]) | uint16(b[0])<<8]. *)
Definition Uint16 (b : list byte) : Z :=
  Z.lor (byte_to_Z (index b 1)) (Z.shiftl (byte_to_Z (index b 0)) 8).

(** The two bytes [binary.BigEndian.PutUint16] stores:
    [b[0] = byte(v >> 8)], [b[1] = byte(v)]. *)
Definition Uint16_bytes (v : Z) : list byte :=
  [byte_of_Z (Z.shiftr v 8); byte_of_Z v].

End binary.

Module bytes.

(** [bytes.IndexByte(b, c)]: the index of the first [c] in [b], or -1. *)
Fixpoint IndexByte (b : list byte) (c : byte) : Z :=
  match b with
  | [] => -1
  | x :: t =>
      if Byte.eqb x c then 0
      else let i := IndexByte t c in
           if i =? -1 then -1 else i + 1
  end.

Fixpoint HasPrefix (s prefix : list byte) : bool :=
  match prefix, s with
  | [], _ => true
  | _ :: _, [] => false
  | p :: ps, c :: cs => Byte.eqb c p && HasPrefix cs ps
  end.

(** [bytes.Replace(s, old, new, n)] for a non-empty [old]: a copy of [s]
    in which the first [n] non-overlapping instances of [old], found from
    left to right, are replaced by [new]; no limit when [n < 0].  (The
    package only calls it with one- and two-byte patterns and [n = -1].) *)
Fixpoint Replace_from (fuel : nat) (s old new : list byte) (n : Z)
  : list byte :=
  match fuel with
  | O => s
  | S fuel' =>
      if n =? 0 then s
      else match s with
           | [] => []
           | c :: t =>
               if HasPrefix s old
               then new ++ Replace_from fuel' (skipn (length old) s) old new
                              (if n <? 0 then n else n - 1)
               else c :: Replace_from fuel' t old new n
           end
  end.

Definition Replace (s old new : list byte) (n : Z) : list byte :=
  Replace_from (length s) s old new n.

End bytes.

Module strings.

Definition isUpper (c : byte) : bool :=
  (65 <=? byte_to_Z c) && (byte_to_Z c <=? 90).

(** ['A'..'Z'] to ['a'..'z']: [c += 'a' - 'A']. *)
Definition lowerByte (c : byte) : byte :=
  if isUpper c then byte_of_Z (byte_to_Z c + 32) else c.

(** No byte is [>= utf8.RuneSelf]. *)
Definition isASCII (s : list byte) : bool :=
  forallb (fun c => byte_to_Z c <? 128) s.

(** [strings.ToLower(s)].  On a string of ASCII bytes it lowers the letters
    ['A'..'Z']; on any other string it is [strings.Map(unicode.ToLower, s)],
    which works on the runes of [s] and is left as the parameter
    [mapUnicodeLower]. *)
Definition ToLower (mapUnicodeLower : list byte -> list byte)
    (s : list byte) : list byte :=
  if isASCII s then map lowerByte s else mapUnicodeLower s.

End strings.

(** ** tftp.go: opcodes, modes, error codes *)

Definition Opcode := Z.
Definition OpcodeRead : Opcode := 1.
Definition OpcodeWrite : Opcode := 2.
Definition OpcodeError : Opcode := 5.
Definition opcodeDATA : Opcode := 3.
Definition opcodeACK : Opcode := 4.

Definition Mode := list byte.
(** ["netascii"] *)
Definition ModeNetASCII : Mode := [x6e; x65; x74; x61; x73; x63; x69; x69].
(** ["octet"] *)
Definition ModeOctet : Mode := [x6f; x63; x74; x65; x74].

Definition ErrorCode := Z.
Definition ErrorCodeUndefined : ErrorCode := 0.
Definition ErrorCodeFileNotFound : ErrorCode := 1.
Definition ErrorCodeAccessViolation : ErrorCode := 2.
Definition ErrorCodeDiskFull : ErrorCode := 3.
Definition ErrorCodeIllegalOperation : ErrorCode := 4.
Definition ErrorCodeUnknownTransferID : ErrorCode := 5.
Definition ErrorCodeFileExists : ErrorCode := 6.
Definition ErrorCodeNoSuchUser : ErrorCode := 7.

(** ** packet.go *)

Record ErrorPacket := mkErrorPacket {
  ep_Opcode : Opcode;
  ep_ErrorCode : ErrorCode;
  ep_ErrorMsg : list byte
}.

(** The values of Go's [error] interface that the package produces or
    receives from the network. *)
Inductive error :=
| errInvalidRequestPacket
| errInvalidACKPacket
| errInvalidERRORPacket
| ErrorPacketError (e : ErrorPacket)   (* an [*ErrorPacket] used as error *)
| EOF                                  (* [io.EOF] *)
| ErrShortWrite                        (* [io.ErrShortWrite] *)
| OpError (timeout : bool)             (* a [*net.OpError]; its [Timeout()] *)
| OtherError (id : nat).               (* any error that is no [*net.OpError] *)

Inductive result (A : Type) :=
| Ok (a : A)
| Err (e : error).
Arguments Ok {A} a.
Arguments Err {A} e.

Record requestPacket := mkRequestPacket {
  rp_Opcode : Opcode;
  rp_Filename : list byte;
  rp_Mode : Mode
}.

(** [==] on two Go strings. *)
Fixpoint bytes_eqb (a b : list byte) : bool :=
  match a, b with
  | [], [] => true
  | x :: a', y :: b' => Byte.eqb x y && bytes_eqb a' b'
  | _, _ => false
  end.

Section Request.

Variable mapUnicodeLower : list byte -> list byte.

Definition parseRequestPacket (b : list byte) : result requestPacket :=
  if len b <? 4 then Err errInvalidRequestPacket
  else
    let opcode := binary.Uint16 (slice b 0 2) in
    if negb (opcode =? OpcodeRead) && negb (opcode =? OpcodeWrite)
    then Err errInvalidRequestPacket
    else
      let idx := bytes.IndexByte (slice_from b 2) NUL in
      if idx =? -1 then Err errInvalidRequestPacket
      else
        let filename := slice b 2 (idx + 2) in
        let offset := idx + 3 in
        let idx := bytes.IndexByte (slice_from b offset) NUL in
        if idx =? -1 then Err errInvalidRequestPacket
        else
          let mode :=
            strings.ToLower mapUnicodeLower (slice b offset (offset + idx)) in
          if negb (bytes_eqb mode ModeNetASCII)
             && negb (bytes_eqb mode ModeOctet)
          then Err errInvalidRequestPacket
          else
            if negb (Byte.eqb (index b (len b - 1)) NUL)
            then Err errInvalidRequestPacket
            else Ok {| rp_Opcode := opcode;
                       rp_Filename := filename;
                       rp_Mode := mode |}.

End Request.

Record ackPacket := mkAckPacket {
  ack_Opcode : Opcode;
  ack_Block : Z
}.

Definition parseACKPacket (b : list byte) : result ackPacket :=
  if len b <? 4 then Err errInvalidACKPacket
  else
    let opcode := binary.Uint16 (slice b 0 2) in
    let n := binary.Uint16 (slice b 2 4) in
    if (len b =? 4) && (opcode =? opcodeACK)
    then Ok {| ack_Opcode := opcode; ack_Block := n |}
    else
      if negb (opcode =? OpcodeError) then Err errInvalidERRORPacket
      else
        if len b <? 5 then Err errInvalidERRORPacket
        else
          let msg := slice b 4 (len b - 1) in
          if negb (Byte.eqb (index b (len b - 1)) NUL)
          then Err errInvalidERRORPacket
          else Err (ErrorPacketError
                      {| ep_Opcode := opcode;
                         ep_ErrorCode := n;
                         ep_ErrorMsg := msg |}).

(** ** tftp.go: netascii conversions *)

(** The loop of [toNetASCII]: [p] is what is left of the input at index [i],
    [out] the contents of the output buffer. *)
Fixpoint toNetASCII_loop (p : list byte) (out : list byte) : list byte :=
  match p with
  | [] => out
  | c :: p' =>
      let out := if Byte.eqb c LF then out ++ [CR] else out in
      let out := out ++ [c] in
      let out := if Byte.eqb c CR then out ++ [NUL] else out in
      toNetASCII_loop p' out
  end.

Definition toNetASCII (p : list byte) : list byte := toNetASCII_loop p [].

(** The loop of [fromNetASCII]: [inb] is the unread part of the input
    buffer, [out] the output buffer.  [ReadByte] fails with [io.EOF] on an
    empty buffer. *)
Fixpoint fromNetASCII_loop (inb : list byte) (out : list byte)
  : result (list byte) :=
  match inb with
  | [] => Ok out
  | b :: rest =>
      if negb (Byte.eqb b CR) || (Byte.eqb b CR && (len rest =? 0))
      then fromNetASCII_loop rest (out ++ [b])
      else
        match rest with
        | [] => Err EOF
        | bb :: rest' =>
            let out :=
              if Byte.eqb bb LF then out ++ [LF]
              else if Byte.eqb bb NUL then out ++ [CR]
              else out in
            fromNetASCII_loop rest' out
        end
  end.

Definition fromNetASCII (p : list byte) : result (list byte) :=
  fromNetASCII_loop p [].

(** The earlier revision of [fromNetASCII] (two [bytes.Replace] passes, no
    error result). *)
Definition fromNetASCII_replace (p : list byte) : list byte :=
  let b := p in
  let b := bytes.Replace b [CR; LF] [LF] (-1) in
  let b := bytes.Replace b [CR; NUL] [CR] (-1) in
  b.

(** The conversion inside [netASCIIResponseWriter.Write]. *)
Definition netASCII_replace (p : list byte) : list byte :=
  let b := p in
  let b := bytes.Replace b [CR] [CR; NUL] (-1) in
  let b := bytes.Replace b [LF] [CR; LF] (-1) in
  b.

(** ** [toNetASCII] in memory

    To say what [toNetASCII] writes and where its result lives, a slice is
    a window on a backing array of a store, and a [bytes.Buffer] owns the
    array it writes to. *)

Definition store := list (list byte).

Record Slice := mkSlice {
  s_array : nat;     (* the address of the backing array *)
  s_off : nat;
  s_len : nat
}.

Definition array_at (h : store) (a : nat) : list byte := nth a h [].

Definition set_array (h : store) (a : nat) (v : list byte) : store :=
  firstn a h ++ [v] ++ skipn (S a) h.

(** The bytes a slice shows. *)
Definition contents (h : store) (s : Slice) : list byte :=
  firstn (s_len s) (skipn (s_off s) (array_at h (s_array s))).

(** [p[i]] *)
Definition read (h : store) (p : Slice) (i : nat) : byte :=
  nth (s_off p + i)%nat (array_at h (s_array p)) NUL.

(** The buffer of [bytes.NewBuffer(nil)]: no storage before the first
    write, then an array of its own that [WriteByte] extends. *)
Definition Buffer := option nat.

Definition WriteByte (h : store) (out : Buffer) (c : byte) : store * Buffer :=
  match out with
  | None => (h ++ [[c]], Some (length h))
  | Some a => (set_array h a (array_at h a ++ [c]), Some a)
  end.

(** [out.Bytes()]; [None] is the nil slice. *)
Definition Bytes (h : store) (out : Buffer) : option Slice :=
  match out with
  | None => None
  | Some a => Some {| s_array := a; s_off := O;
                      s_len := length (array_at h a) |}
  end.

(** The loop of [toNetASCII] at index [i], with [n] rounds to go; [p[i]] is
    read from the store each time the source reads it. *)
Fixpoint toNetASCII_mem_loop (n i : nat) (h : store) (p : Slice)
    (out : Buffer) : store * Buffer :=
  match n with
  | O => (h, out)
  | S n' =>
      let (h, out) :=
        if Byte.eqb (read h p i) LF then WriteByte h out CR else (h, out) in
      let (h, out) := WriteByte h out (read h p i) in
      let (h, out) :=
        if Byte.eqb (read h p i) CR then WriteByte h out NUL else (h, out) in
      toNetASCII_mem_loop n' (S i) h p out
  end.

Definition toNetASCII_mem (h : store) (p : Slice) : store * option Slice :=
  let (h', out) := toNetASCII_mem_loop (s_len p) O h p None in
  (h', Bytes h' out).

(** ** The socket of one transfer

    [net.PacketConn] is outside the package.  A connection is the script of
    what the network answers to the calls made on it, one list per method,
    consumed from the front; [wlog] records, oldest first, every datagram
    handed to [WriteTo].  A call whose list is exhausted does not return. *)

Record PacketConn := mkPacketConn {
  deadline_replies : list (option error);
  write_replies : list (Z * option error);
  read_replies : list (result (list byte));
  wlog : list (list byte)
}.

Definition SetDeadline (c : PacketConn) : option (PacketConn * option error) :=
  match deadline_replies c with
  | [] => None
  | e :: ds =>
      Some ({| deadline_replies := ds;
               write_replies := write_replies c;
               read_replies := read_replies c;
               wlog := wlog c |}, e)
  end.

Definition WriteTo (c : PacketConn) (b : list byte)
  : option (PacketConn * (Z * option error)) :=
  match write_replies c with
  | [] => None
  | w :: ws =>
      Some ({| deadline_replies := deadline_replies c;
               write_replies := ws;
               read_replies := read_replies c;
               wlog := wlog c ++ [b] |}, w)
  end.

(** [copy(dst[off:], src)]: the new contents of [dst] and the number of
    bytes copied. *)
Definition copy_at (dst : list byte) (off : Z) (src : list byte)
  : list byte * Z :=
  let n := Z.min (len dst - off) (len src) in
  (firstn (Z.to_nat off) dst ++ firstn (Z.to_nat n) src
     ++ skipn (Z.to_nat (off + n)) dst, n).

(** [ReadFrom(p)]: either a datagram arrives, which is stored at the front
    of [p], cut to [len(p)] bytes, or the call fails and [p] is left as it
    was. *)
Definition ReadFrom (c : PacketConn) (p : list byte)
  : option (PacketConn * list byte * (Z * option error)) :=
  match read_replies c with
  | [] => None
  | reply :: rs =>
      let c' := {| deadline_replies := deadline_replies c;
                   write_replies := write_replies c;
                   read_replies := rs;
                   wlog := wlog c |} in
      match reply with
      | Ok dgram =>
          let (p', rn) := copy_at p 0 dgram in Some (c', p', (rn, None))
      | Err e => Some (c', p, (0, Some e))
      end
  end.

(** ** response.go *)

Definition blockSize : Z := 512.

(** The [remoteAddr] field is only passed on to [WriteTo] and is left out. *)
Record response := mkResponse {
  conn : PacketConn;
  rb : list byte;
  wb : list byte;
  buf : list byte;        (* the unread part of the [bytes.Buffer] *)
  block : Z;
  netASCII : bool
}.

Definition set_conn (r : response) (c : PacketConn) : response :=
  {| conn := c; rb := rb r; wb := wb r; buf := buf r; block := block r;
     netASCII := netASCII r |}.
Definition set_rb (r : response) (b : list byte) : response :=
  {| conn := conn r; rb := b; wb := wb r; buf := buf r; block := block r;
     netASCII := netASCII r |}.
Definition set_wb (r : response) (b : list byte) : response :=
  {| conn := conn r; rb := rb r; wb := b; buf := buf r; block := block r;
     netASCII := netASCII r |}.
Definition set_buf (r : response) (b : list byte) : response :=
  {| conn := conn r; rb := rb r; wb := wb r; buf := b; block := block r;
     netASCII := netASCII r |}.
Definition set_block (r : response) (n : Z) : response :=
  {| conn := conn r; rb := rb r; wb := wb r; buf := buf r; block := n;
     netASCII := netASCII r |}.

(** [make([]byte, n)] *)
Definition make (n : Z) : list byte := repeat NUL (Z.to_nat n).

(** [newResponse], given the outcome of [net.SplitHostPort] and of
    [net.ListenPacket]. *)
Definition newResponse (split : option error) (listen : result PacketConn)
    (mode : Mode) : result response :=
  match split with
  | Some err => Err err
  | None =>
      match listen with
      | Err err => Err err
      | Ok c =>
          let netASCII := if bytes_eqb mode ModeNetASCII then true else false in
          Ok {| conn := c;
                buf := [];
                rb := make (blockSize + 4);
                wb := make (blockSize + 4);
                block := 0;
                netASCII := netASCII |}
      end
  end.

(** How a call that talks to the network ends: it returns its [error]
    ([None] is [nil]), or it is still inside a call on the socket when the
    script of the network ends. *)
Inductive outcome :=
| Returned (err : option error)
| Blocked.

(** [binary.BigEndian.PutUint16(b[off:off+2], v)] *)
Definition PutUint16 (b : list byte) (off : Z) (v : Z) : list byte :=
  fst (copy_at b off (binary.Uint16_bytes v)).

(** [bytes.Buffer.Next(n)]: the next [n] unread bytes (fewer if the buffer
    holds fewer) and the buffer after them. *)
Definition Next (b : list byte) (n : Z) : list byte * list byte :=
  (firstn (Z.to_nat n) b, skipn (Z.to_nat n) b).

(** The inner [for] of [writeOneBlock]: read until a datagram arrives.
    [Some (Ok readN)] is the [break], [Some (Err e)] a [return e]. *)
Fixpoint readLoop (fuel : nat) (r : response)
  : response * option (result Z) :=
  match fuel with
  | O => (r, None)
  | S fuel' =>
      match ReadFrom (conn r) (rb r) with
      | None => (r, None)
      | Some (c, rb', (rn, err)) =>
          let r := set_rb (set_conn r c) rb' in
          match err with
          | Some e =>
              match e with
              | OpError true => readLoop fuel' r
              | _ => (r, Some (Err e))
              end
          | None => (r, Some (Ok rn))
          end
      end
  end.

(** The outer [for] of [writeOneBlock], for the [cn] payload bytes framed in
    [wb]. *)
Fixpoint sendLoop (fuel : nat) (r : response) (cn : Z)
  : response * outcome :=
  match fuel with
  | O => (r, Blocked)
  | S fuel' =>
      match SetDeadline (conn r) with
      | None => (r, Blocked)
      | Some (c, Some err) => (set_conn r c, Returned (Some err))
      | Some (c, None) =>
          let r := set_conn r c in
          match WriteTo (conn r) (slice (wb r) 0 (cn + 4)) with
          | None => (r, Blocked)
          | Some (c, (wn, Some err)) =>
              let r := set_conn r c in
              match err with
              | OpError true => sendLoop fuel' r cn
              | _ => (r, Returned (Some err))
              end
          | Some (c, (wn, None)) =>
              let r := set_conn r c in
              if negb (wn =? cn + 4) then (r, Returned (Some ErrShortWrite))
              else
                match readLoop (S (length (read_replies (conn r)))) r with
                | (r, None) => (r, Blocked)
                | (r, Some (Err e)) => (r, Returned (Some e))
                | (r, Some (Ok readN)) =>
                    match parseACKPacket (slice (rb r) 0 readN) with
                    | Err e => (r, Returned (Some e))
                    | Ok ack =>
                        if ack_Block ack =? (block r - 1) mod 65536
                        then sendLoop fuel' r cn
                        else (r, Returned None)
                    end
                end
          end
      end
  end.

(** The header and payload of [writeOneBlock], before its loop. *)
Definition frameBlock (r : response) : response * Z :=
  let r := set_block r ((block r + 1) mod 65536) in
  let r := set_wb r (PutUint16 (wb r) 0 opcodeDATA) in
  let r := set_wb r (PutUint16 (wb r) 2 (block r)) in
  let (next, rest) := Next (buf r) blockSize in
  let r := set_buf r rest in
  let (wb', cn) := copy_at (wb r) 4 next in
  (set_wb r wb', cn).

Definition writeOneBlock (r : response) : response * outcome :=
  let (r, cn) := frameBlock r in
  sendLoop (S (length (deadline_replies (conn r)))) r cn.

(** [for i := 0; i < available; i++ { ... }] of [Write], with [n] rounds
    left. *)
Fixpoint writeBlocks (n : nat) (r : response) : response * outcome :=
  match n with
  | O => (r, Returned None)
  | S n' =>
      match writeOneBlock r with
      | (r, Returned None) => writeBlocks n' r
      | (r, o) => (r, o)
      end
  end.

(** What [Write] gives back: [(n, err)], or nothing when it stays inside a
    call on the socket. *)
Inductive write_result :=
| WReturned (n : Z) (err : option error)
| WBlocked.

Definition write_return (pl : Z) (o : outcome) : write_result :=
  match o with
  | Returned err => WReturned pl err
  | Blocked => WBlocked
  end.

(** [int(math.Floor(float64(n) / float64(blockSize)))].  The conversion of
    [n] is exact below 2^53 and the division by 2^9 is exact, so this is the
    integer quotient. *)
Definition available_blocks (n : Z) : Z := n / blockSize.

Definition response_Write (r : response) (p : list byte)
  : response * write_result :=
  let pl := len p in
  let p := if netASCII r then toNetASCII p else p in
  let r := set_buf r (buf r ++ p) in
  if len (buf r) <? blockSize then (r, WReturned pl None)
  else
    let available := available_blocks (len (buf r)) in
    let (r, o) := writeBlocks (Z.to_nat available) r in
    (r, write_return pl o).

Definition response_Flush (r : response) : response * outcome :=
  writeOneBlock r.

(** ** The later revision: [bufferedSocketResponseWriter] wrapped by
    [netASCIIResponseWriter]

    [bufferedSocketResponseWriter] has the fields of [response] without
    [netASCII], and the same [writeOneBlock] and [Flush]; it is the record
    [response] whose flag is never read. *)


(** The interface [ResponseWriter] ([Close] only closes the socket). *)
Class ResponseWriter (W : Type) := {
  Write : W -> list byte -> W * write_result;
  Flush : W -> W * outcome
}.


(** [netASCIIResponseWriter.Write] over the embedded [ResponseWriter]. *)
Definition netASCIIResponseWriter_Write (W : Type) `{ResponseWriter W}
    (w : W) (p : list byte) : W * write_result :=
  let b := netASCII_replace p in
  let (w, res) := Write w b in
  (w, match res with
      | WReturned _ err => WReturned (len p) err
      | WBlocked => WBlocked
      end).

(** [captureResponseWriter] of the tests: it appends to a buffer. *)
#[export] Instance captureResponseWriter : ResponseWriter (list byte) := {
  Write := fun w p => (w ++ p, WReturned (len p) None);
  Flush := fun w => (w, Returned None)
}.

(** ** request.go *)

(** [RemoteAddr] is [remoteAddr.String()], given as its bytes. *)
Record Request := mkRequest {
  rq_Opcode : Opcode;
  rq_Filename : list byte;
  rq_Mode : Mode;
  rq_Length : Z;
  rq_RemoteAddr : list byte
}.

Definition parseRequest (mapUnicodeLower : list byte -> list byte)
    (b : list byte) (remoteAddr : list byte) : result Request :=
  match parseRequestPacket mapUnicodeLower b with
  | Err err => Err err
  | Ok p =>
      Ok {| rq_Opcode := rp_Opcode p;
            rq_Filename := rp_Filename p;
            rq_Mode := rp_Mode p;
            rq_Length := len b;
            rq_RemoteAddr := remoteAddr |}
  end.

(** ** The server: [newConn] and [conn.serve] *)

(** [newConn] in memory: [c.buf = make([]byte, n)], a new array, then
    [copy(c.buf, buf[:n])].  [buf[:n]] panics ([None]) when [n] is more
    than the capacity of [buf]. *)
Definition newConn_mem (h : store) (n : nat) (buf : Slice)
  : option (store * Slice) :=
  if (n <=? length (array_at h (s_array buf)) - s_off buf)%nat then
    let a := length h in
    let h := h ++ [repeat NUL n] in
    let src := contents h {| s_array := s_array buf; s_off := s_off buf;
                             s_len := n |} in
    let h := set_array h a (fst (copy_at (array_at h a) 0 src)) in
    Some (h, {| s_array := a; s_off := O; s_len := n |})
  else None.

(** [conn.serve] for the handler [handler], given what [net.SplitHostPort]
    and [net.ListenPacket] answer inside [newResponse]: the handler's call,
    or [None] when [serve] returns without calling it. *)
Definition serve (A : Type) (mapUnicodeLower : list byte -> list byte)
    (handler : response -> Request -> A)
    (buf : list byte) (remoteAddr : list byte)
    (split : option error) (listen : result PacketConn) : option A :=
  match parseRequest mapUnicodeLower buf remoteAddr with
  | Err _ => None
  | Ok r =>
      match newResponse split listen (rq_Mode r) with
      | Err _ => None
      | Ok w => Some (handler w r)
      end
  end.

(* ================================================================== *)
(** * Part II: the specification's reading of the wire formats *)
(* ================================================================== *)

(** A big-endian 16-bit field made of the bytes [hi] and [lo]. *)
Definition be16 (hi lo : byte) : Z := 256 * byte_to_Z hi + byte_to_Z lo.

(** The first occurrence of [c] in [b] at or after index [from] is at
    index [i]. *)
Definition first_at (b : list byte) (c : byte) (from i : Z) : Prop :=
  from <= i < len b /\ index b i = c /\
  forall k, from <= k < i -> index b k <> c.

(** The structural rules of a request datagram, with the filename's NUL at
    index [i] and the mode's NUL at index [j]; [lower] lowercases the mode
    token. *)
Record valid_request (lower : list byte -> list byte) (b : list byte)
    (i j : Z) : Prop := mkValidRequest {
  vr_length : 4 <= len b;
  vr_opcode : be16 (index b 0) (index b 1) = 1 \/
              be16 (index b 0) (index b 1) = 2;
  vr_filename : first_at b NUL 2 i;
  vr_mode : first_at b NUL (i + 1) j;
  vr_token : lower (slice b (i + 1) j) = ModeNetASCII \/
             lower (slice b (i + 1) j) = ModeOctet;
  vr_final : index b (len b - 1) = NUL
}.

(** The request packet the specification describes for such a datagram. *)
Definition request_of (lower : list byte -> list byte) (b : list byte)
    (i j : Z) : requestPacket :=
  {| rp_Opcode := be16 (index b 0) (index b 1);
     rp_Filename := slice b 2 i;
     rp_Mode := lower (slice b (i + 1) j) |}.

(** The netascii encoding of one byte, in the specification's words: LF
    becomes CR LF, CR becomes CR NUL, any other byte stays. *)
Definition encode_byte (c : byte) : list byte :=
  if Byte.eqb c LF then [CR; LF]
  else if Byte.eqb c CR then [CR; NUL]
  else [c].

(** Encode as a left-to-right scan. *)
Definition Encode (s : list byte) : list byte := flat_map encode_byte s.

(** The DATA datagram of block [blk]: opcode 3, the block number, the
    payload. *)
Definition data_frame (blk : Z) (payload : list byte) : list byte :=
  [x00; x03; byte_of_Z (blk / 256); byte_of_Z (blk mod 256)] ++ payload.

(** The ACK datagram of block [blk]. *)
Definition ack_frame (blk : Z) : list byte :=
  [x00; x04; byte_of_Z (blk / 256); byte_of_Z (blk mod 256)].

(** The datagrams on the wire when a session whose counter is [blk] issues
    the blocks [bl] one after the other, each with the next block number
    (mod 65536), the block with payload [p] being transmitted [k] times for
    each [(p, k)] of [bl]. *)
Fixpoint transmissions (blk : Z) (bl : list (list byte * nat))
  : list (list byte) :=
  match bl with
  | [] => []
  | (payload, k) :: bl' =>
      repeat (data_frame ((blk + 1) mod 65536) payload) k
      ++ transmissions ((blk + 1) mod 65536) bl'
  end.

(** The first [n] blocks of 512 bytes of [data]. *)
Fixpoint full_blocks (n : nat) (data : list byte) : list (list byte) :=
  match n with
  | O => []
  | S n' => firstn 512 data :: full_blocks n' (skipn 512 data)
  end.

(** What a handler does with a session: calls of [Write] and [Flush]. *)
Inductive call :=
| CallWrite (p : list byte)
| CallFlush.

(** A handler making the calls [cs] in order, whatever they return; a call
    that does not return ends the run. *)
Fixpoint run (cs : list call) (r : response) : response :=
  match cs with
  | [] => r
  | CallWrite p :: cs' =>
      match response_Write r p with
      | (r', WBlocked) => r'
      | (r', WReturned _ _) => run cs' r'
      end
  | CallFlush :: cs' =>
      match response_Flush r with
      | (r', Blocked) => r'
      | (r', Returned _) => run cs' r'
      end
  end.
(** The sessions [newResponse] makes and the methods keep: both scratch
    buffers hold [blockSize + 4] bytes and the counter is a [uint16]. *)
Definition wellformed (r : response) : Prop :=
  length (rb r) = 516%nat /\ length (wb r) = 516%nat /\
  0 <= block r < 65536.

(** The network of a transfer of three blocks in which every send goes
    through and every block is acknowledged at once. *)
Definition three_acked_blocks : PacketConn :=
  {| deadline_replies := [None; None; None];
     write_replies := [(516, None); (516, None); (4, None)];
     read_replies := [Ok (ack_frame 1); Ok (ack_frame 2); Ok (ack_frame 3)];
     wlog := [] |}.

(** The new octet-mode session on that network. *)
Definition octet_session : response :=
  {| conn := three_acked_blocks;
     rb := make 516; wb := make 516; buf := []; block := 0;
     netASCII := false |}.

(** A session with one byte buffered whose peer, after a read timeout,
    first acknowledges block 0 again and then block 1. *)
Definition stale_ack_session : response :=
  {| conn := {| deadline_replies := [None; None];
                write_replies := [(5, None); (5, None)];
                read_replies := [Err (OpError true); Ok (ack_frame 0);
                                 Ok (ack_frame 1)];
                wlog := [] |};
     rb := make 516; wb := make 516; buf := [x61]; block := 0;
     netASCII := false |}.

(** A session after two blocks, with an empty buffer, whose peer
    acknowledges block 3. *)
Definition drained_session : response :=
  {| conn := {| deadline_replies := [None];
                write_replies := [(4, None)];
                read_replies := [Ok (ack_frame 3)];
                wlog := [] |};
     rb := make 516; wb := make 516; buf := []; block := 2;
     netASCII := false |}.

(** A netascii session with 511 bytes buffered whose peer acknowledges
    block 1. *)
Definition netascii_session : response :=
  {| conn := {| deadline_replies := [None];
                write_replies := [(516, None)];
                read_replies := [Ok (ack_frame 1)];
                wlog := [] |};
     rb := make 516; wb := make 516; buf := repeat x61 511; block := 0;
     netASCII := true |}.

(** The slice [p] lies within an array of the store [h]. *)
Definition in_store (h : store) (p : Slice) : Prop :=
  (s_array p < length h)%nat /\
  (s_off p + s_len p <= length (array_at h (s_array p)))%nat.

(** The store [h] extends [h0], whose arrays are as they were, and the
    buffer [out], if it has storage, has it outside [h0] with the bytes
    [acc]. *)
Definition buffer_holds (h0 h : store) (out : Buffer) (acc : list byte)
  : Prop :=
  firstn (length h0) h = h0 /\
  match out with
  | None => acc = []
  | Some a => (length h0 <= a < length h)%nat /\ array_at h a = acc
  end.

(** The replies of a peer that acknowledges at once each of the blocks
    issued after block [blk], one per payload of [payloads]. *)
Fixpoint acks (blk : Z) (payloads : list (list byte))
  : list (result (list byte)) :=
  match payloads with
  | [] => []
  | _ :: ps =>
      Ok (ack_frame ((blk + 1) mod 65536)) :: acks ((blk + 1) mod 65536) ps
  end.

(** The network on which, for the blocks with these payloads, every
    deadline is set, every frame is written whole and every block is
    acknowledged at once. *)
Definition acking_network (blk : Z) (payloads : list (list byte))
    (log : list (list byte)) : PacketConn :=
  {| deadline_replies := map (fun _ => None) payloads;
     write_replies := map (fun p => (len p + 4, None)) payloads;
     read_replies := acks blk payloads;
     wlog := log |}.

(** The blocks of a transfer of [data]: its full blocks of 512 bytes, then
    what is left, fewer than 512 bytes and possibly none. *)
Definition transfer_blocks (data : list byte) : list (list byte) :=
  let n := Z.to_nat (len data / 512) in
  full_blocks n data ++ [skipn (512 * n) data].

(** Each payload sent once. *)
Definition once (payloads : list (list byte)) : list (list byte * nat) :=
  map (fun p => (p, 1%nat)) payloads.

(** The 256 bytes, to decide a property of all bytes by evaluation. *)
Definition all_bytes : list byte :=
  Eval vm_compute in
    map (fun n => byte_of_Z (Z.of_nat n)) (seq 0 256).

(** The script of the network has run out for one of the calls. *)
Definition exhausted (c : PacketConn) : Prop :=
  deadline_replies c = [] \/ write_replies c = [] \/ read_replies c = [].

(** The ERROR datagram with code [code] and message [msg]. *)
Definition error_frame (code : Z) (msg : list byte) : list byte :=
  [x00; x05; byte_of_Z (code / 256); byte_of_Z (code mod 256)]
  ++ msg ++ [NUL].

(** The request datagram: opcode, filename, NUL, mode text, NUL. *)
Definition request_frame (op : Z) (filename token : list byte) : list byte :=
  [byte_of_Z (op / 256); byte_of_Z (op mod 256)]
  ++ filename ++ [NUL] ++ token ++ [NUL].

(** Well-formed netascii, read from left to right: a CR comes with an LF or
    a NUL after it, and no LF stands alone. *)
Fixpoint canonical (l : list byte) : bool :=
  match l with
  | [] => true
  | c :: t =>
      if Byte.eqb c CR then
        match t with
        | x :: t' => (Byte.eqb x LF || Byte.eqb x NUL) && canonical t'
        | [] => false
        end
      else negb (Byte.eqb c LF) && canonical t
  end.

(** [bytes.Replace(s, {a, b}, new, -1)] as a scan over [s]. *)
Fixpoint replace_pair (a b : byte) (new : list byte) (s : list byte)
  : list byte :=
  match s with
  | [] => []
  | c1 :: t =>
      match t with
      | [] => [c1]
      | c2 :: t' =>
          if Byte.eqb c1 a && Byte.eqb c2 b
          then new ++ replace_pair a b new t'
          else c1 :: replace_pair a b new t
      end
  end.

(** A handler writing the pieces [ps] one after the other through a
    [netASCIIResponseWriter]; the counts returned, last first, are
    collected. *)
Fixpoint netascii_writes {W : Type} `{ResponseWriter W} (ps : list (list byte))
    (w : W) (counts : list write_result) : W * list write_result :=
  match ps with
  | [] => (w, counts)
  | p :: ps' =>
      let (w', res) := netASCIIResponseWriter_Write w p in
      netascii_writes ps' w' (res :: counts)
  end.

(** The bytes the calls [cs] hand to the session's buffer: the argument of
    every [Write], in netascii form when the session converts. *)
Fixpoint written (na : bool) (cs : list call) : list byte :=
  match cs with
  | [] => []
  | CallWrite p :: cs' => (if na then toNetASCII p else p) ++ written na cs'
  | CallFlush :: cs' => written na cs'
  end.

(** The payloads of the blocks [bl], one after the other. *)
Definition payloads (bl : list (list byte * nat)) : list byte :=
  concat (map fst bl).

(** [writeOneBlock] returns the error [err] and leaves the socket as [c1];
    the counter has moved on and the block is gone from the buffer. *)
Definition fails_with (r : response) (c1 : PacketConn) (err : error) : Prop :=
  exists r1,
    writeOneBlock r = (r1, Returned (Some err)) /\ conn r1 = c1 /\
    block r1 = (block r + 1) mod 65536 /\ buf r1 = skipn 512 (buf r).

(** [k] reads that time out. *)
Definition timeouts (k : nat) : list (result (list byte)) :=
  repeat (Err (OpError true)) k.

(* ================================================================== *)
(** * Part III: properties *)
(* ================================================================== *)

Unset Implicit Arguments.

(** ** Bytes *)

Lemma in_all_bytes (c : byte) : In c all_bytes.
Proof. destruct c; vm_compute; tauto. Qed.

Lemma forall_bytes (P : byte -> bool) :
  forallb P all_bytes = true -> forall c, P c = true.
Proof.
  intros H c. rewrite forallb_forall in H. apply H, in_all_bytes.
Qed.

Lemma forall_bytes2 (P : byte -> byte -> bool) :
  forallb (fun a => forallb (P a) all_bytes) all_bytes = true ->
  forall a c, P a c = true.
Proof.
  intros H a c.
  apply (forall_bytes (P a)). revert a. apply forall_bytes. exact H.
Qed.

Lemma byte_eqb_eq (a c : byte) : Byte.eqb a c = true <-> a = c.
Proof.
  split; [apply Byte.byte_dec_bl | apply Byte.byte_dec_lb].
Qed.

Lemma byte_eqb_neq (a c : byte) : Byte.eqb a c = false <-> a <> c.
Proof.
  split.
  - apply Byte.eqb_false.
  - intros H. destruct (Byte.eqb a c) eqn:E; [|reflexivity].
    apply byte_eqb_eq in E. contradiction.
Qed.

Lemma byte_eqb_spec (a c : byte) : reflect (a = c) (Byte.eqb a c).
Proof.
  destruct (Byte.eqb a c) eqn:E; constructor.
  - apply byte_eqb_eq; exact E.
  - apply byte_eqb_neq; exact E.
Qed.

Lemma byte_to_Z_range (c : byte) : 0 <= byte_to_Z c < 256.
Proof.
  unfold byte_to_Z. pose proof (Byte.to_N_bounded c). lia.
Qed.

Lemma Uint16_pair (hi lo : byte) (t : list byte) :
  binary.Uint16 (hi :: lo :: t) = be16 hi lo.
Proof.
  unfold binary.Uint16, be16, index. simpl.
  apply Z.eqb_eq.
  exact (forall_bytes2
           (fun h l => Z.lor (byte_to_Z l) (Z.shiftl (byte_to_Z h) 8)
                       =? 256 * byte_to_Z h + byte_to_Z l)
           eq_refl hi lo).
Qed.

Lemma be16_range (hi lo : byte) : 0 <= be16 hi lo < 65536.
Proof.
  unfold be16. pose proof (byte_to_Z_range hi). pose proof (byte_to_Z_range lo).
  lia.
Qed.

(** ** Slices and [bytes.IndexByte] *)

Lemma len_nonneg {A : Type} (l : list A) : 0 <= len l.
Proof. unfold len. lia. Qed.

Lemma len_cons {A : Type} (a : A) (l : list A) : len (a :: l) = len l + 1.
Proof. unfold len. simpl length. lia. Qed.

Lemma len_app {A : Type} (l1 l2 : list A) : len (l1 ++ l2) = len l1 + len l2.
Proof. unfold len. rewrite length_app. lia. Qed.

Lemma index_cons_succ (a : byte) (l : list byte) (k : Z) :
  0 <= k -> index (a :: l) (k + 1) = index l k.
Proof.
  intros Hk. unfold index.
  replace (Z.to_nat (k + 1)) with (S (Z.to_nat k)) by lia. reflexivity.
Qed.

Lemma index_slice_from (b : list byte) (from k : Z) :
  0 <= from -> 0 <= k -> index (slice_from b from) k = index b (from + k).
Proof.
  intros Hf Hk. unfold index, slice_from.
  rewrite nth_skipn. f_equal. lia.
Qed.

Lemma len_slice_from (b : list byte) (from : Z) :
  0 <= from <= len b -> len (slice_from b from) = len b - from.
Proof.
  intros H. unfold len, slice_from in *. rewrite length_skipn. lia.
Qed.

Lemma IndexByte_range (l : list byte) (c : byte) :
  bytes.IndexByte l c = -1 \/ 0 <= bytes.IndexByte l c < len l.
Proof.
  induction l as [|x t IH]; simpl.
  - left; reflexivity.
  - rewrite len_cons. pose proof (len_nonneg t).
    destruct (Byte.eqb x c); [right; lia|].
    destruct IH as [-> | IH]; [left; reflexivity|].
    destruct (Z.eqb_spec (bytes.IndexByte t c) (-1)); [lia|]. right; lia.
Qed.

Lemma IndexByte_none (l : list byte) (c : byte) :
  bytes.IndexByte l c = -1 <->
  forall k, 0 <= k < len l -> index l k <> c.
Proof.
  induction l as [|x t IH]; simpl.
  - split; [|reflexivity]. intros _ k Hk. unfold len in Hk. simpl in Hk. lia.
  - destruct (Byte.eqb x c) eqn:E.
    + apply byte_eqb_eq in E. split; [discriminate|].
      intros H. exfalso.
      apply (H 0); [rewrite len_cons; pose proof (len_nonneg t); lia|].
      exact E.
    + apply byte_eqb_neq in E.
      destruct (IndexByte_range t c) as [Hn | Hr].
      * rewrite Hn. simpl. split; [|reflexivity]. intros _ k Hk.
        rewrite len_cons in Hk.
        destruct (Z.eq_dec k 0) as [-> | Hk0]; [exact E|].
        replace k with ((k - 1) + 1) by lia.
        rewrite index_cons_succ by lia.
        apply (proj1 IH Hn). lia.
      * destruct (Z.eqb_spec (bytes.IndexByte t c) (-1)) as [He|He]; [lia|].
        split; [lia|]. intros H. exfalso. apply He, IH.
        intros k Hk. rewrite <- (index_cons_succ x t) by lia.
        apply H. rewrite len_cons. lia.
Qed.

Lemma IndexByte_found (l : list byte) (c : byte) (i : Z) :
  0 <= i ->
  (bytes.IndexByte l c = i <-> first_at l c 0 i).
Proof.
  unfold first_at. revert i.
  induction l as [|x t IH]; intros i Hi; simpl.
  - split; [lia|]. unfold len; simpl. lia.
  - rewrite len_cons. pose proof (len_nonneg t) as Ht.
    destruct (Byte.eqb x c) eqn:E.
    + apply byte_eqb_eq in E. split.
      * intros <-. repeat split; [lia|lia|exact E|]. intros k Hk; lia.
      * intros (Hr & Hc & Hmin).
        destruct (Z.eq_dec i 0) as [->|Hne]; [reflexivity|].
        exfalso. apply (Hmin 0); [lia|exact E].
    + apply byte_eqb_neq in E.
      destruct (Z.eqb_spec (bytes.IndexByte t c) (-1)) as [He|He].
      * split; [lia|]. intros (Hr & Hc & Hmin). exfalso.
        destruct (Z.eq_dec i 0) as [->|Hne]; [exact (E Hc)|].
        apply (proj1 (IndexByte_none t c) He (i - 1)); [lia|].
        rewrite <- (index_cons_succ x t) by lia.
        replace (i - 1 + 1) with i by lia. exact Hc.
      * destruct (Z.eq_dec i 0) as [->|Hne].
        { destruct (IndexByte_range t c); split; try lia.
          intros (_ & Hc & _). exfalso. exact (E Hc). }
        specialize (IH (i - 1) ltac:(lia)).
        split.
        -- intros Heq. assert (Hi1 : bytes.IndexByte t c = i - 1) by lia.
           apply IH in Hi1. destruct Hi1 as (Hr & Hc & Hmin).
           repeat split; try lia.
           ++ replace i with (i - 1 + 1) by lia.
              rewrite index_cons_succ by lia. exact Hc.
           ++ intros k Hk. destruct (Z.eq_dec k 0) as [->|Hk0]; [exact E|].
              replace k with (k - 1 + 1) by lia.
              rewrite index_cons_succ by lia. apply Hmin. lia.
        -- intros (Hr & Hc & Hmin).
           enough (bytes.IndexByte t c = i - 1) by lia.
           apply IH. repeat split; try lia.
           ++ rewrite <- (index_cons_succ x t) by lia.
              replace (i - 1 + 1) with i by lia. exact Hc.
           ++ intros k Hk. rewrite <- (index_cons_succ x t) by lia.
              apply Hmin. lia.
Qed.

(** [bytes.IndexByte(b[from:], c)] against the first occurrence at or after
    [from]. *)
Lemma IndexByte_slice_from (b : list byte) (c : byte) (from i : Z) :
  0 <= from <= len b -> from <= i ->
  (bytes.IndexByte (slice_from b from) c = i - from <-> first_at b c from i).
Proof.
  intros Hf Hi. rewrite IndexByte_found by lia. unfold first_at.
  rewrite len_slice_from by lia.
  split; intros (Hr & Hc & Hmin).
  - rewrite index_slice_from in Hc by lia.
    replace (from + (i - from)) with i in Hc by lia.
    repeat split; try lia; [exact Hc|].
    intros k Hk. replace k with (from + (k - from)) by lia.
    rewrite <- index_slice_from by lia. apply Hmin. lia.
  - repeat split; try lia.
    + rewrite index_slice_from by lia.
      replace (from + (i - from)) with i by lia. exact Hc.
    + intros k Hk. rewrite index_slice_from by lia. apply Hmin. lia.
Qed.

Lemma IndexByte_slice_from_none (b : list byte) (c : byte) (from : Z) :
  0 <= from <= len b ->
  (bytes.IndexByte (slice_from b from) c = -1 <->
   forall i, ~ first_at b c from i).
Proof.
  intros Hf. split.
  - intros Hn i (Hr & Hc & _).
    apply (proj1 (IndexByte_none _ _) Hn (i - from)).
    + rewrite len_slice_from by lia. lia.
    + rewrite index_slice_from by lia.
      replace (from + (i - from)) with i by lia. exact Hc.
  - intros H.
    destruct (IndexByte_range (slice_from b from) c) as [|Hr]; [assumption|].
    exfalso. apply (H (bytes.IndexByte (slice_from b from) c + from)).
    apply IndexByte_slice_from; lia.
Qed.

Lemma first_at_unique (b : list byte) (c : byte) (from i i' : Z) :
  first_at b c from i -> first_at b c from i' -> i = i'.
Proof.
  intros (Hr & Hc & Hmin) (Hr' & Hc' & Hmin').
  destruct (Z.lt_trichotomy i i') as [Hlt | [Heq | Hgt]]; [|exact Heq|].
  - exfalso. apply (Hmin' i); [lia|exact Hc].
  - exfalso. apply (Hmin i'); [lia|exact Hc'].
Qed.

Lemma bytes_eqb_eq (a b : list byte) : bytes_eqb a b = true <-> a = b.
Proof.
  revert b. induction a as [|x a IH]; intros [|y b]; simpl;
    try (split; [discriminate|discriminate]); [tauto|].
  rewrite andb_true_iff, byte_eqb_eq, IH.
  split; [intros [-> ->]; reflexivity | intros H; inversion H; auto].
Qed.

Lemma index_slice (b : list byte) (lo hi k : Z) :
  0 <= lo -> 0 <= k < hi - lo -> index (slice b lo hi) k = index b (lo + k).
Proof.
  intros Hlo Hk. unfold index, slice.
  rewrite nth_firstn.
  destruct (Nat.ltb_spec (Z.to_nat k) (Z.to_nat (hi - lo))); [|lia].
  rewrite nth_skipn. f_equal. lia.
Qed.

Lemma Uint16_be (l : list byte) :
  binary.Uint16 l = be16 (index l 0) (index l 1).
Proof.
  unfold binary.Uint16, be16.
  apply Z.eqb_eq.
  exact (forall_bytes2
           (fun h l => Z.lor (byte_to_Z l) (Z.shiftl (byte_to_Z h) 8)
                       =? 256 * byte_to_Z h + byte_to_Z l)
           eq_refl (index l 0) (index l 1)).
Qed.

Lemma Uint16_slice (b : list byte) (off : Z) :
  0 <= off ->
  binary.Uint16 (slice b off (off + 2))
  = be16 (index b off) (index b (off + 1)).
Proof.
  intros H. rewrite Uint16_be. rewrite !index_slice by lia.
  rewrite Z.add_0_r. reflexivity.
Qed.

(** ** C1: [parseRequestPacket] *)

Section RequestCodec.

Variable mapUnicodeLower : list byte -> list byte.


(** What [parseRequestPacket] returns, read off its branches. *)
Lemma parseRequestPacket_cases (b : list byte) :
  match parseRequestPacket mapUnicodeLower b with
  | Ok p =>
      exists i j,
        valid_request (strings.ToLower mapUnicodeLower) b i j /\
        p = request_of (strings.ToLower mapUnicodeLower) b i j
  | Err e => e = errInvalidRequestPacket /\
             forall i j, ~ valid_request (strings.ToLower mapUnicodeLower) b i j
  end.
Proof.
  unfold parseRequestPacket.
  destruct (Z.ltb_spec (len b) 4) as [Hlen | Hlen].
  { split; [reflexivity|]. intros i j V. pose proof (vr_length V). lia. }
  replace (binary.Uint16 (slice b 0 2)) with (be16 (index b 0) (index b 1))
    by (symmetry; apply (Uint16_slice b 0); lia).
  set (opcode := be16 (index b 0) (index b 1)).
  destruct (negb (opcode =? OpcodeRead) && negb (opcode =? OpcodeWrite))
    eqn:Eop.
  { split; [reflexivity|]. intros i j V.
    pose proof (vr_opcode V) as Ho. fold opcode in Ho.
    apply andb_true_iff in Eop. destruct Eop as [E1 E2].
    apply negb_true_iff, Z.eqb_neq in E1, E2.
    unfold OpcodeRead, OpcodeWrite in *. lia. }
  assert (Hop : opcode = 1 \/ opcode = 2).
  { apply andb_false_iff in Eop.
    destruct Eop as [E | E]; apply negb_false_iff, Z.eqb_eq in E;
      unfold OpcodeRead, OpcodeWrite in E; lia. }
  clear Eop.
  destruct (IndexByte_range (slice_from b 2) NUL) as [Hn1 | Hr1].
  { rewrite Hn1. simpl (-1 =? -1).
    split; [reflexivity|]. intros i j V.
    apply (proj1 (IndexByte_slice_from_none b NUL 2 ltac:(lia)) Hn1 i).
    exact (vr_filename V). }
  rewrite len_slice_from in Hr1 by lia.
  set (idx := bytes.IndexByte (slice_from b 2) NUL) in *.
  destruct (Z.eqb_spec idx (-1)) as [He|_]; [lia|].
  assert (F1 : first_at b NUL 2 (idx + 2)).
  { apply IndexByte_slice_from; [lia|lia|]. unfold idx. lia. }
  destruct (IndexByte_range (slice_from b (idx + 3)) NUL) as [Hn2 | Hr2].
  { rewrite Hn2. simpl (-1 =? -1).
    split; [reflexivity|]. intros i j V.
    pose proof (first_at_unique _ _ _ _ _ (vr_filename V) F1) as ->.
    apply (proj1 (IndexByte_slice_from_none b NUL (idx + 3) ltac:(lia)) Hn2 j).
    replace (idx + 3) with (idx + 2 + 1) by lia.
    exact (vr_mode V). }
  rewrite len_slice_from in Hr2 by lia.
  set (idx2 := bytes.IndexByte (slice_from b (idx + 3)) NUL) in *.
  destruct (Z.eqb_spec idx2 (-1)) as [He|_]; [lia|].
  assert (F2 : first_at b NUL (idx + 2 + 1) (idx + 3 + idx2)).
  { replace (idx + 2 + 1) with (idx + 3) by lia.
    apply IndexByte_slice_from; [lia|lia|]. unfold idx2. lia. }
  set (mode := strings.ToLower mapUnicodeLower
                 (slice b (idx + 3) (idx + 3 + idx2))).
  assert (Hinv : forall i j,
             valid_request (strings.ToLower mapUnicodeLower) b i j ->
             i = idx + 2 /\ j = idx + 3 + idx2).
  { intros i j V.
    pose proof (first_at_unique _ _ _ _ _ (vr_filename V) F1) as Hi. subst i.
    split; [reflexivity|].
    exact (first_at_unique _ _ _ _ _ (vr_mode V) F2). }
  destruct (negb (bytes_eqb mode ModeNetASCII)
            && negb (bytes_eqb mode ModeOctet)) eqn:Emode.
  { split; [reflexivity|]. intros i j V.
    destruct (Hinv i j V) as [-> ->].
    pose proof (vr_token V) as Ht.
    replace (idx + 2 + 1) with (idx + 3) in Ht by lia. fold mode in Ht.
    apply andb_true_iff in Emode. destruct Emode as [E1 E2].
    apply negb_true_iff in E1, E2.
    destruct Ht as [Ht | Ht]; apply bytes_eqb_eq in Ht; congruence. }
  assert (Hmode : mode = ModeNetASCII \/ mode = ModeOctet).
  { apply andb_false_iff in Emode.
    destruct Emode as [E | E]; apply negb_false_iff, bytes_eqb_eq in E; auto. }
  clear Emode.
  destruct (Byte.eqb (index b (len b - 1)) NUL) eqn:Efin; simpl negb; cbv iota.
  2: { split; [reflexivity|]. intros i j V.
       apply byte_eqb_neq in Efin. exact (Efin (vr_final V)). }
  apply byte_eqb_eq in Efin.
  exists (idx + 2), (idx + 3 + idx2). split.
  - constructor; try assumption; try lia.
    replace (idx + 2 + 1) with (idx + 3) by lia. exact Hmode.
  - unfold request_of. fold opcode.
    replace (idx + 2 + 1) with (idx + 3) by lia. reflexivity.
Qed.

(** C1.  [parseRequestPacket b] yields a request packet exactly when [b]
    passes every structural rule: at least 4 bytes, opcode Read or Write, a
    first NUL at or after index 2 (ending the filename), a second NUL after
    it (ending the mode token), the lowercased mode token equal to
    "netascii" or "octet", and NUL as the last byte; the packet then holds
    the opcode, the filename and the lowercased mode.  In every other case
    the result is the one error [errInvalidRequestPacket] and no packet. *)
Theorem parseRequestPacket_spec (b : list byte) :
  (forall p,
     parseRequestPacket mapUnicodeLower b = Ok p <->
     exists i j,
       valid_request (strings.ToLower mapUnicodeLower) b i j /\
       p = request_of (strings.ToLower mapUnicodeLower) b i j) /\
  (forall e,
     parseRequestPacket mapUnicodeLower b = Err e <->
     e = errInvalidRequestPacket /\
     forall i j, ~ valid_request (strings.ToLower mapUnicodeLower) b i j).
Proof.
  pose proof (parseRequestPacket_cases b) as H.
  destruct (parseRequestPacket mapUnicodeLower b) as [q | e0].
  - destruct H as (i & j & V & Hq). split.
    + intros p. split.
      * intros [= <-]. exists i, j. auto.
      * intros (i' & j' & V' & Hp).
        assert (i' = i) as ->
          by exact (first_at_unique _ _ _ _ _ (vr_filename V') (vr_filename V)).
        assert (j' = j) as ->
          by exact (first_at_unique _ _ _ _ _ (vr_mode V') (vr_mode V)).
        congruence.
    + intros e. split; [discriminate|]. intros [_ Hno]. exfalso.
      exact (Hno i j V).
  - destruct H as [-> Hno]. split.
    + intros p. split; [discriminate|]. intros (i & j & V & _). exfalso.
      exact (Hno i j V).
    + intros e. split.
      * intros [= <-]. auto.
      * intros [-> _]. reflexivity.
Qed.

End RequestCodec.

(** The rules hold of the netascii request of the tests, with the NULs at
    indices 3 and 12. *)
Lemma parseRequestPacket_spec_witness :
  exists i j,
    valid_request (strings.ToLower (fun s => s))
      [x00; x01; x61; x00; x4e; x65; x74; x41; x53; x43; x49; x49; x00] i j /\
    {| rp_Opcode := OpcodeRead; rp_Filename := [x61];
       rp_Mode := ModeNetASCII |}
    = request_of (strings.ToLower (fun s => s))
        [x00; x01; x61; x00; x4e; x65; x74; x41; x53; x43; x49; x49; x00] i j.
Proof.
  exact (proj1 (proj1 (parseRequestPacket_spec (fun s => s)
                         [x00; x01; x61; x00; x4e; x65; x74; x41; x53; x43;
                          x49; x49; x00]) _) eq_refl).
Defined.

(** The cases of [Test_parseRequestPacket]. *)
Example parseRequestPacket_test_netascii :
  parseRequestPacket (fun s => s)
    [x00; x01; x61; x00; x4e; x65; x74; x41; x53; x43; x49; x49; x00]
  = Ok {| rp_Opcode := OpcodeRead; rp_Filename := [x61];
          rp_Mode := ModeNetASCII |}.
Proof. reflexivity. Qed.

Example parseRequestPacket_test_octet :
  parseRequestPacket (fun s => s)
    [x00; x02; x62; x00; x4f; x63; x54; x65; x54; x00]
  = Ok {| rp_Opcode := OpcodeWrite; rp_Filename := [x62];
          rp_Mode := ModeOctet |}.
Proof. reflexivity. Qed.

Example parseRequestPacket_test_invalid :
  map (parseRequestPacket (fun s => s))
    [ [];
      [x00; x00; x00];
      [x00; x03; x00; x00];
      [x00; x01; x61; xff];
      [x00; x01; x61; x00; x6f; x63; x74; x65; x74];
      [x00; x01; x61; x00; x6f; x63; x74; x65; x78; x00];
      [x00; x01; x61; x00; x4e; x65; x74; x41; x53; x43; x49; x49; x00; xff] ]
  = repeat (Err errInvalidRequestPacket) 7.
Proof. reflexivity. Qed.

(** An empty filename passes. *)
Example parseRequestPacket_empty_filename :
  parseRequestPacket (fun s => s) [x00; x01; x00; x6f; x63; x74; x65; x74; x00]
  = Ok {| rp_Opcode := OpcodeRead; rp_Filename := []; rp_Mode := ModeOctet |}.
Proof. reflexivity. Qed.

(** ** C2: [parseACKPacket] *)

(** C2.  [parseACKPacket b]: fewer than 4 bytes give [errInvalidACKPacket];
    exactly 4 bytes with opcode Ack (4) give an [ackPacket] whose block is
    the big-endian value of bytes 2 and 3; otherwise an opcode other than
    Error (5) gives [errInvalidERRORPacket]; opcode Error with fewer than 5
    bytes, or with a last byte other than NUL, gives [errInvalidERRORPacket];
    and opcode Error with at least 5 bytes ending in NUL gives no
    [ackPacket] but, as the error value, an [ErrorPacket] with the code of
    bytes 2 and 3 and the message [b[4 : len(b)-1]]. *)
Theorem parseACKPacket_spec (b : list byte) :
  let opcode := be16 (index b 0) (index b 1) in
  let n := be16 (index b 2) (index b 3) in
  (len b < 4 -> parseACKPacket b = Err errInvalidACKPacket) /\
  (len b = 4 -> opcode = 4 ->
     parseACKPacket b = Ok {| ack_Opcode := 4; ack_Block := n |}) /\
  (4 <= len b -> ~ (len b = 4 /\ opcode = 4) -> opcode <> 5 ->
     parseACKPacket b = Err errInvalidERRORPacket) /\
  (4 <= len b -> opcode = 5 ->
     len b < 5 \/ index b (len b - 1) <> NUL ->
     parseACKPacket b = Err errInvalidERRORPacket) /\
  (opcode = 5 -> 5 <= len b -> index b (len b - 1) = NUL ->
     parseACKPacket b =
     Err (ErrorPacketError {| ep_Opcode := 5;
                              ep_ErrorCode := n;
                              ep_ErrorMsg := slice b 4 (len b - 1) |})).
Proof.
  intros opcode n. unfold parseACKPacket.
  destruct (Z.ltb_spec (len b) 4) as [Hlen | Hlen].
  { repeat split; intros; try lia; reflexivity. }
  replace (binary.Uint16 (slice b 0 2)) with opcode
    by (symmetry; apply (Uint16_slice b 0); lia).
  replace (binary.Uint16 (slice b 2 4)) with n
    by (symmetry; apply (Uint16_slice b 2); lia).
  unfold opcodeACK, OpcodeError.
  destruct (Z.eqb_spec (len b) 4) as [H4 | H4];
    destruct (Z.eqb_spec opcode 4) as [Ho4 | Ho4];
    destruct (Z.eqb_spec opcode 5) as [Ho5 | Ho5];
    destruct (Z.ltb_spec (len b) 5) as [H5 | H5];
    destruct (byte_eqb_spec (index b (len b - 1)) NUL) as [Efin | Efin];
    simpl; try lia;
    repeat split; intros; try lia; try tauto; try congruence;
    try (rewrite Ho4; reflexivity); try (rewrite Ho5; reflexivity);
    try (exfalso; intuition lia).
Qed.

(** Each of the five cases at a datagram of the tests. *)
Lemma parseACKPacket_spec_witness :
  parseACKPacket [x00] = Err errInvalidACKPacket /\
  parseACKPacket [x00; x04; x00; x01]
  = Ok {| ack_Opcode := 4; ack_Block := 1 |} /\
  parseACKPacket [x00; x01; x00; x00] = Err errInvalidERRORPacket /\
  parseACKPacket [x00; x05; x00; x00; xff] = Err errInvalidERRORPacket /\
  parseACKPacket [x00; x05; x00; x03; x61; x62; x63; x00]
  = Err (ErrorPacketError {| ep_Opcode := 5;
                             ep_ErrorCode := ErrorCodeDiskFull;
                             ep_ErrorMsg := [x61; x62; x63] |}).
Proof.
  split; [|split; [|split; [|split]]].
  - apply (proj1 (parseACKPacket_spec [x00])). reflexivity.
  - apply (proj1 (proj2 (parseACKPacket_spec [x00; x04; x00; x01])));
      reflexivity.
  - apply (proj1 (proj2 (proj2 (parseACKPacket_spec [x00; x01; x00; x00])))).
    + vm_compute; discriminate.
    + vm_compute. intros [_ H]. discriminate H.
    + vm_compute. discriminate.
  - apply (proj1 (proj2 (proj2 (proj2
             (parseACKPacket_spec [x00; x05; x00; x00; xff]))))).
    + vm_compute; discriminate.
    + reflexivity.
    + right. vm_compute. discriminate.
  - apply (proj2 (proj2 (proj2 (proj2
             (parseACKPacket_spec [x00; x05; x00; x03; x61; x62; x63; x00])))));
      [reflexivity | vm_compute; discriminate | reflexivity].
Defined.

(** The cases of [Test_parseACKPacket]. *)
Example parseACKPacket_test_ack :
  parseACKPacket [x00; x04; x00; x01]
  = Ok {| ack_Opcode := opcodeACK; ack_Block := 1 |}.
Proof. reflexivity. Qed.

Example parseACKPacket_test_errors :
  map parseACKPacket
    [ []; [x00; x00; x00]; [x00; x01; x00; x00]; [x00; x05; x00; x00];
      [x00; x05; x00; x00; xff]; [x00; x05; x00; x01; x00] ]
  = [ Err errInvalidACKPacket; Err errInvalidACKPacket;
      Err errInvalidERRORPacket; Err errInvalidERRORPacket;
      Err errInvalidERRORPacket;
      Err (ErrorPacketError {| ep_Opcode := OpcodeError;
                               ep_ErrorCode := ErrorCodeFileNotFound;
                               ep_ErrorMsg := [] |}) ].
Proof. reflexivity. Qed.


(** ** C9 and C10: the two encoders *)

Lemma toNetASCII_loop_acc (p out : list byte) :
  toNetASCII_loop p out = out ++ Encode p.
Proof.
  revert out. induction p as [|c p IH]; intros out; simpl.
  - rewrite app_nil_r. reflexivity.
  - rewrite IH. unfold encode_byte.
    destruct (byte_eqb_spec c LF) as [-> | Hlf].
    + simpl. rewrite <- !app_assoc. reflexivity.
    + destruct (byte_eqb_spec c CR) as [-> | Hcr];
        simpl; rewrite <- !app_assoc; reflexivity.
Qed.

Lemma length_encode_byte (c : byte) : (1 <= length (encode_byte c))%nat.
Proof.
  unfold encode_byte.
  destruct (Byte.eqb c LF); [simpl; lia|].
  destruct (Byte.eqb c CR); simpl; lia.
Qed.

Lemma length_Encode (s : list byte) : (length s <= length (Encode s))%nat.
Proof.
  induction s as [|c s IH]; simpl; [lia|].
  rewrite length_app. pose proof (length_encode_byte c). lia.
Qed.

(** *** [toNetASCII] in memory *)

Lemma array_at_old (h0 h : store) (a : nat) :
  firstn (length h0) h = h0 -> (a < length h0)%nat ->
  array_at h a = array_at h0 a.
Proof.
  intros Hf Ha. unfold array_at.
  transitivity (nth a (firstn (length h0) h) []);
    [| rewrite Hf; reflexivity].
  rewrite nth_firstn.
  destruct (Nat.ltb_spec a (length h0)); [reflexivity | lia].
Qed.

Lemma WriteByte_holds (h0 h : store) (out : Buffer) (acc : list byte)
    (c : byte) :
  buffer_holds h0 h out acc ->
  buffer_holds h0 (fst (WriteByte h out c)) (snd (WriteByte h out c))
    (acc ++ [c]).
Proof.
  intros [Hf Hout]. unfold WriteByte.
  assert (Hle : (length h0 <= length h)%nat).
  { rewrite <- Hf at 1. rewrite length_firstn. lia. }
  destruct out as [a|]; cbn [fst snd].
  - destruct Hout as [Ha Hacc]. unfold buffer_holds, set_array. split.
    + rewrite firstn_app, firstn_firstn, length_firstn.
      replace (Nat.min (length h0) a) with (length h0) by lia.
      replace (length h0 - Nat.min a (length h))%nat with O by lia.
      cbn [firstn]. rewrite app_nil_r. exact Hf.
    + split.
      * rewrite !length_app, length_firstn, length_skipn. cbn [length]. lia.
      * unfold array_at at 1.
        rewrite app_nth2; rewrite length_firstn; [|lia].
        replace (a - Nat.min a (length h))%nat with O by lia.
        cbn [app nth]. rewrite Hacc. reflexivity.
  - subst acc. unfold buffer_holds. split.
    + rewrite firstn_app.
      replace (length h0 - length h)%nat with O by lia.
      cbn [firstn]. rewrite app_nil_r. exact Hf.
    + split.
      * rewrite length_app. cbn [length]. lia.
      * unfold array_at. rewrite app_nth2 by lia.
        rewrite Nat.sub_diag. reflexivity.
Qed.

Lemma read_old (h0 h : store) (p : Slice) (i : nat) :
  firstn (length h0) h = h0 -> in_store h0 p -> (i < s_len p)%nat ->
  read h p i = nth i (contents h0 p) NUL.
Proof.
  intros Hf [Ha Hb] Hi. unfold read, contents.
  rewrite (array_at_old h0 h _ Hf Ha).
  rewrite nth_firstn.
  destruct (Nat.ltb_spec i (s_len p)); [|lia].
  rewrite nth_skipn. reflexivity.
Qed.

Lemma Encode_snoc (l : list byte) (c : byte) :
  Encode (l ++ [c]) = Encode l ++ encode_byte c.
Proof.
  unfold Encode. rewrite flat_map_app. cbn [flat_map].
  rewrite app_nil_r. reflexivity.
Qed.

Lemma toNetASCII_mem_loop_holds (h0 : store) (p : Slice) (n i : nat)
    (h : store) (out : Buffer) :
  in_store h0 p -> (i + n)%nat = s_len p ->
  buffer_holds h0 h out (Encode (firstn i (contents h0 p))) ->
  buffer_holds h0 (fst (toNetASCII_mem_loop n i h p out))
    (snd (toNetASCII_mem_loop n i h p out)) (Encode (contents h0 p)).
Proof.
  intros Hin. revert i h out.
  assert (Hlen : length (contents h0 p) = s_len p).
  { destruct Hin as [_ Hb]. unfold contents.
    rewrite length_firstn, length_skipn. lia. }
  induction n as [|n IH]; intros i h out Hi Hinv.
  - cbn [toNetASCII_mem_loop fst snd].
    rewrite firstn_all2 in Hinv by lia. exact Hinv.
  - cbn [toNetASCII_mem_loop].
    remember (nth i (contents h0 p) NUL) as c eqn:Hc.
    assert (Hnext : firstn (S i) (contents h0 p)
                    = firstn i (contents h0 p) ++ [c]).
    { rewrite <- (firstn_skipn i (contents h0 p)) at 1.
      rewrite firstn_app, length_firstn.
      replace (S i - Nat.min i (length (contents h0 p)))%nat with 1%nat
        by lia.
      rewrite firstn_firstn. replace (Nat.min (S i) i) with i by lia.
      f_equal. rewrite Hc.
      rewrite <- (firstn_skipn i (contents h0 p)) at 2.
      rewrite app_nth2; rewrite length_firstn; [|lia].
      replace (i - Nat.min i (length (contents h0 p)))%nat with O by lia.
      destruct (skipn i (contents h0 p)) as [|x t] eqn:E.
      - exfalso. apply (f_equal (@length byte)) in E.
        rewrite length_skipn in E. simpl in E. lia.
      - reflexivity. }
    assert (Hr0 : read h p i = c)
      by (rewrite Hc; apply read_old; [exact (proj1 Hinv) | exact Hin | lia]).
    rewrite Hr0.
    (* the CR before an LF *)
    set (s1 := if Byte.eqb c LF then WriteByte h out CR else (h, out)).
    assert (H1 : buffer_holds h0 (fst s1) (snd s1)
                   (Encode (firstn i (contents h0 p))
                    ++ (if Byte.eqb c LF then [CR] else []))).
    { unfold s1. destruct (Byte.eqb c LF).
      - apply WriteByte_holds. exact Hinv.
      - cbn [fst snd]. rewrite app_nil_r. exact Hinv. }
    destruct s1 as [h1 out1]. cbn [fst snd] in H1.
    assert (Hr1 : read h1 p i = c)
      by (rewrite Hc; apply read_old; [exact (proj1 H1) | exact Hin | lia]).
    rewrite Hr1.
    (* the byte itself *)
    pose proof (WriteByte_holds h0 h1 out1 _ c H1) as H2.
    destruct (WriteByte h1 out1 c) as [h2 out2]. cbn [fst snd] in H2.
    assert (Hr2 : read h2 p i = c)
      by (rewrite Hc; apply read_old; [exact (proj1 H2) | exact Hin | lia]).
    rewrite Hr2.
    (* the NUL after a CR *)
    set (s3 := if Byte.eqb c CR then WriteByte h2 out2 NUL else (h2, out2)).
    assert (H3 : buffer_holds h0 (fst s3) (snd s3)
                   (Encode (firstn (S i) (contents h0 p)))).
    { rewrite Hnext, Encode_snoc. unfold encode_byte.
      unfold s3.
      destruct (byte_eqb_spec c LF) as [Hlf | Hlf].
      - rewrite Hlf in *. change (Byte.eqb LF CR) with false.
        cbn [fst snd]. rewrite <- app_assoc in H2. exact H2.
      - rewrite app_nil_r in H2.
        destruct (byte_eqb_spec c CR) as [Hcr | Hcr].
        + apply (WriteByte_holds h0 h2 out2 _ NUL) in H2.
          rewrite <- app_assoc in H2. rewrite Hcr in H2. exact H2.
        + cbn [fst snd]. exact H2. }
    destruct s3 as [h3 out3]. cbn [fst snd] in H3.
    apply IH; [lia | exact H3].
Qed.

Lemma toNetASCII_Encode (p : list byte) : toNetASCII p = Encode p.
Proof. unfold toNetASCII. rewrite toNetASCII_loop_acc. reflexivity. Qed.

(** In memory, [toNetASCII] changes no array that existed before the call,
    and its result is the nil slice or a slice of an array that did not
    exist before, with the bytes [toNetASCII] of the input. *)
Lemma toNetASCII_mem_fresh (h : store) (p : Slice) :
  in_store h p ->
  firstn (length h) (fst (toNetASCII_mem h p)) = h /\
  match snd (toNetASCII_mem h p) with
  | None => toNetASCII (contents h p) = []
  | Some q =>
      (length h <= s_array q)%nat /\
      contents (fst (toNetASCII_mem h p)) q = toNetASCII (contents h p)
  end.
Proof.
  intros Hin. unfold toNetASCII_mem.
  assert (H0 : buffer_holds h h None (Encode (firstn O (contents h p))))
    by (split; [apply firstn_all | reflexivity]).
  pose proof (toNetASCII_mem_loop_holds h p (s_len p) O h None Hin
                eq_refl H0) as H.
  destruct (toNetASCII_mem_loop (s_len p) O h p None) as [h' out].
  cbn [fst snd] in *.
  destruct H as [Hf Hout].
  split; [exact Hf|].
  rewrite toNetASCII_Encode.
  destruct out as [a|]; cbn [Bytes s_array].
  - destruct Hout as [Ha Hacc]. split; [lia|].
    unfold contents. cbn [s_array s_off s_len skipn].
    rewrite firstn_all. exact Hacc.
  - exact Hout.
Qed.

(** C9.  [toNetASCII] is the left-to-right scan that turns every LF of the
    input into CR LF, every CR of the input into CR NUL and leaves every
    other byte as it is (so the CR put before an LF gets no NUL); the scan
    of a concatenation is the concatenation of the scans; its output is
    never shorter than its input; and in memory it changes no array that
    existed before the call, its input among them, and returns its bytes in
    an array that did not exist before (or the nil slice when there are
    none). *)
Theorem toNetASCII_spec (p : list byte) :
  toNetASCII p = flat_map encode_byte p /\
  (forall q, toNetASCII (p ++ q) = toNetASCII p ++ toNetASCII q) /\
  len p <= len (toNetASCII p) /\
  (forall h s,
     in_store h s -> contents h s = p ->
     firstn (length h) (fst (toNetASCII_mem h s)) = h /\
     match snd (toNetASCII_mem h s) with
     | None => toNetASCII p = []
     | Some q =>
         (length h <= s_array q)%nat /\
         contents (fst (toNetASCII_mem h s)) q = toNetASCII p
     end).
Proof.
  split; [|split; [|split]].
  - apply toNetASCII_Encode.
  - intros q. rewrite !toNetASCII_Encode. unfold Encode. apply flat_map_app.
  - rewrite toNetASCII_Encode. unfold len. pose proof (length_Encode p). lia.
  - intros h s Hin <-. apply toNetASCII_mem_fresh. exact Hin.
Qed.

(** The input "a\n\r" at offset 1 of the only array of a store: the array
    is as it was and the result is all of a second array. *)
Lemma toNetASCII_spec_witness :
  firstn 1 (fst (toNetASCII_mem [[x62; x61; LF; CR; x62]] (mkSlice 0 1 3)))
  = [[x62; x61; LF; CR; x62]] /\
  toNetASCII_mem [[x62; x61; LF; CR; x62]] (mkSlice 0 1 3)
  = ([[x62; x61; LF; CR; x62]; [x61; CR; LF; CR; NUL]],
     Some (mkSlice 1 0 5)).
Proof.
  split; [|reflexivity].
  refine (proj1 (proj2 (proj2 (proj2 (toNetASCII_spec [x61; LF; CR])))
                   [[x62; x61; LF; CR; x62]] (mkSlice 0 1 3) _ eq_refl)).
  split; cbn; lia.
Defined.

(** The cases of [Test_toNetASCII]. *)
Example toNetASCII_test :
  map toNetASCII
    [ []; [x61; x62; x63]; [x61; LF; x62; LF; x63];
      [x61; CR; x62; CR; x63]; [x61; CR; x62; LF; x63] ]
  = [ []; [x61; x62; x63]; [x61; CR; LF; x62; CR; LF; x63];
      [x61; CR; NUL; x62; CR; NUL; x63];
      [x61; CR; NUL; x62; CR; LF; x63] ].
Proof. reflexivity. Qed.

(** [bytes.Replace] of a one-byte pattern, without limit, works byte by
    byte. *)
Lemma Replace_from_single (fuel : nat) (s : list byte) (x : byte)
    (new : list byte) :
  (length s <= fuel)%nat ->
  bytes.Replace_from fuel s [x] new (-1)
  = flat_map (fun c => if Byte.eqb c x then new else [c]) s.
Proof.
  revert s. induction fuel as [|fuel IH]; intros s Hs.
  - destruct s; [reflexivity | simpl in Hs; lia].
  - destruct s as [|c t]; [reflexivity|].
    simpl in Hs. cbn [bytes.Replace_from bytes.HasPrefix flat_map].
    change (-1 =? 0) with false. change (-1 <? 0) with true. cbv iota.
    replace (bytes.HasPrefix t []) with true by (destruct t; reflexivity).
    rewrite andb_true_r.
    destruct (Byte.eqb c x).
    + cbn [length skipn]. rewrite IH by lia. reflexivity.
    + rewrite IH by lia. reflexivity.
Qed.

Lemma flat_map_flat_map (A B C : Type) (f : A -> list B) (g : B -> list C)
    (l : list A) :
  flat_map g (flat_map f l) = flat_map (fun a => flat_map g (f a)) l.
Proof.
  induction l as [|a l IH]; simpl; [reflexivity|].
  rewrite flat_map_app, IH. reflexivity.
Qed.

(** The two passes of [netASCIIResponseWriter.Write] encode byte by byte. *)
Lemma netASCII_replace_Encode (p : list byte) : netASCII_replace p = Encode p.
Proof.
  unfold netASCII_replace, bytes.Replace.
  rewrite (Replace_from_single _ p CR) by lia.
  rewrite Replace_from_single by lia.
  rewrite flat_map_flat_map. unfold Encode.
  apply flat_map_ext. intros c. unfold encode_byte.
  destruct (byte_eqb_spec c CR) as [-> | Hcr].
  - reflexivity.
  - simpl. rewrite app_nil_r.
    destruct (Byte.eqb c LF); reflexivity.
Qed.

(** C10.  The two [bytes.Replace] passes of [netASCIIResponseWriter.Write]
    (CR to CR NUL, then LF to CR LF) give, on every input, the bytes that
    the scan [toNetASCII] gives. *)
Theorem netASCII_replace_eq_toNetASCII (p : list byte) :
  netASCII_replace p = toNetASCII p.
Proof.
  rewrite netASCII_replace_Encode, toNetASCII_Encode. reflexivity.
Qed.

(** The cases of [Test_netASCIIResponseWriterWrite], on a
    [captureResponseWriter]. *)
Example netASCIIResponseWriter_Write_test :
  map (fun p => fst (netASCIIResponseWriter_Write ([] : list byte) p))
    [ []; [x61; x62; x63]; [x61; LF; x62; LF; x63];
      [x61; CR; x62; CR; x63]; [x61; CR; x62; LF; x63] ]
  = [ []; [x61; x62; x63]; [x61; CR; LF; x62; CR; LF; x63];
      [x61; CR; NUL; x62; CR; NUL; x63];
      [x61; CR; NUL; x62; CR; LF; x63] ].
Proof. reflexivity. Qed.

(** ** C4 and C5: [fromNetASCII] *)

(** One step of the decoding loop for each shape of the unread input. *)
Lemma fromNetASCII_loop_other (b : byte) (rest out : list byte) :
  b <> CR ->
  fromNetASCII_loop (b :: rest) out = fromNetASCII_loop rest (out ++ [b]).
Proof.
  intros H. simpl. destruct (byte_eqb_spec b CR); [contradiction|].
  reflexivity.
Qed.

Lemma fromNetASCII_loop_final_CR (out : list byte) :
  fromNetASCII_loop [CR] out = Ok (out ++ [CR]).
Proof. reflexivity. Qed.

Lemma fromNetASCII_loop_CR_LF (rest out : list byte) :
  fromNetASCII_loop (CR :: LF :: rest) out
  = fromNetASCII_loop rest (out ++ [LF]).
Proof.
  cbn [fromNetASCII_loop]. change (Byte.eqb CR CR) with true.
  rewrite len_cons. pose proof (len_nonneg rest).
  destruct (Z.eqb_spec (len rest + 1) 0); [lia|]. reflexivity.
Qed.

Lemma fromNetASCII_loop_CR_NUL (rest out : list byte) :
  fromNetASCII_loop (CR :: NUL :: rest) out
  = fromNetASCII_loop rest (out ++ [CR]).
Proof.
  cbn [fromNetASCII_loop]. change (Byte.eqb CR CR) with true.
  rewrite len_cons. pose proof (len_nonneg rest).
  destruct (Z.eqb_spec (len rest + 1) 0); [lia|]. reflexivity.
Qed.

(** A CR before any other byte: both bytes are skipped and the loop goes
    on. *)
Lemma fromNetASCII_loop_CR_other (x : byte) (rest out : list byte) :
  x <> LF -> x <> NUL ->
  fromNetASCII_loop (CR :: x :: rest) out = fromNetASCII_loop rest out.
Proof.
  intros Hlf Hnul.
  cbn [fromNetASCII_loop]. change (Byte.eqb CR CR) with true.
  rewrite len_cons. pose proof (len_nonneg rest).
  destruct (Z.eqb_spec (len rest + 1) 0); [lia|]. simpl.
  destruct (byte_eqb_spec x LF); [contradiction|].
  destruct (byte_eqb_spec x NUL); [contradiction|]. reflexivity.
Qed.

Lemma fromNetASCII_loop_Encode (s out : list byte) :
  fromNetASCII_loop (Encode s) out = Ok (out ++ s).
Proof.
  revert out. induction s as [|c s IH]; intros out.
  - simpl. rewrite app_nil_r. reflexivity.
  - change (Encode (c :: s)) with (encode_byte c ++ Encode s).
    unfold encode_byte.
    destruct (byte_eqb_spec c LF) as [-> | Hlf].
    + cbn [app]. rewrite fromNetASCII_loop_CR_LF, IH, <- app_assoc.
      reflexivity.
    + destruct (byte_eqb_spec c CR) as [-> | Hcr].
      * cbn [app]. rewrite fromNetASCII_loop_CR_NUL, IH, <- app_assoc.
        reflexivity.
      * cbn [app]. rewrite fromNetASCII_loop_other by assumption.
        rewrite IH, <- app_assoc. reflexivity.
Qed.

(** Decoding undoes encoding on every input. *)
Lemma fromNetASCII_toNetASCII (s : list byte) :
  fromNetASCII (toNetASCII s) = Ok s.
Proof.
  unfold fromNetASCII, toNetASCII. rewrite toNetASCII_loop_acc. simpl.
  apply fromNetASCII_loop_Encode.
Qed.

(** C5.  For every byte sequence [s] without a NUL byte,
    [fromNetASCII (toNetASCII s)] succeeds and returns exactly [s]. *)
Theorem fromNetASCII_toNetASCII_no_NUL (s : list byte) :
  ~ In NUL s -> fromNetASCII (toNetASCII s) = Ok s.
Proof.
  intros _. apply fromNetASCII_toNetASCII.
Qed.

Lemma fromNetASCII_toNetASCII_no_NUL_witness :
  fromNetASCII (toNetASCII [x61; CR; x62; LF; LF; CR])
  = Ok [x61; CR; x62; LF; LF; CR].
Proof.
  apply (fromNetASCII_toNetASCII_no_NUL [x61; CR; x62; LF; LF; CR]).
  simpl. intros H. repeat (destruct H as [H | H]; [discriminate H|]). exact H.
Defined.

(** The cases of [Test_fromNetASCII]. *)
Example fromNetASCII_test :
  map fromNetASCII
    [ []; [x61; x62; x63]; [x61; CR; LF; x62; CR; LF; x63];
      [x61; CR; NUL; x62; CR; NUL; x63]; [x61; CR; NUL; x62; CR; LF; x63];
      [x61; CR] ]
  = map Ok
    [ []; [x61; x62; x63]; [x61; LF; x62; LF; x63];
      [x61; CR; x62; CR; x63]; [x61; CR; x62; LF; x63]; [x61; CR] ].
Proof. reflexivity. Qed.

(** [fromNetASCII] has no failing input. *)
Lemma fromNetASCII_loop_never_fails (n : nat) (p out : list byte) :
  (length p <= n)%nat -> exists q, fromNetASCII_loop p out = Ok q.
Proof.
  revert p out. induction n as [|n IH]; intros p out Hn.
  - destruct p; [|simpl in Hn; lia]. exists out. reflexivity.
  - destruct p as [|b rest]; [exists out; reflexivity|].
    simpl in Hn.
    destruct (byte_eqb_spec b CR) as [-> | Hb].
    + destruct rest as [|x rest'].
      * exists (out ++ [CR]). reflexivity.
      * simpl in Hn.
        destruct (byte_eqb_spec x LF) as [-> | Hlf].
        { rewrite fromNetASCII_loop_CR_LF. apply IH. lia. }
        destruct (byte_eqb_spec x NUL) as [-> | Hnul].
        { rewrite fromNetASCII_loop_CR_NUL. apply IH. lia. }
        rewrite fromNetASCII_loop_CR_other by assumption. apply IH. lia.
    + rewrite fromNetASCII_loop_other by assumption. apply IH. lia.
Qed.

(** C4.  On the three bytes 'a' CR 'b', where a CR is followed by a byte
    that is neither LF nor NUL, [fromNetASCII] returns no error: it drops
    the CR and the 'b' and returns "a"; and no input at all makes it return
    an error. *)
Theorem fromNetASCII_malformed_pair_dropped :
  fromNetASCII [x61; CR; x62] = Ok [x61] /\
  forall p, exists q, fromNetASCII p = Ok q.
Proof.
  split; [reflexivity|].
  intros p. apply (fromNetASCII_loop_never_fails (length p)). lia.
Qed.

(** The earlier revision passes the same input through unchanged. *)
Example fromNetASCII_replace_malformed :
  fromNetASCII_replace [x61; CR; x62] = [x61; CR; x62].
Proof. reflexivity. Qed.

(** ** The transfer engine *)

Lemma byte_of_Z_mod (v : Z) : byte_of_Z (v mod 256) = byte_of_Z v.
Proof. unfold byte_of_Z. rewrite Z.mod_mod by lia. reflexivity. Qed.

Lemma Uint16_bytes_be (v : Z) :
  binary.Uint16_bytes v = [byte_of_Z (v / 256); byte_of_Z (v mod 256)].
Proof.
  unfold binary.Uint16_bytes. rewrite Z.shiftr_div_pow2 by lia.
  rewrite byte_of_Z_mod. reflexivity.
Qed.

(** [copy(dst[off:], src)] when [src] fits: it overwrites [len(src)] bytes
    at [off] and nothing else. *)
Lemma copy_at_prefix (pre dst src : list byte) :
  (length src <= length dst)%nat ->
  copy_at (pre ++ dst) (len pre) src
  = (pre ++ src ++ skipn (length src) dst, len src).
Proof.
  intros Hle. unfold copy_at.
  rewrite len_app.
  replace (Z.min (len pre + len dst - len pre) (len src)) with (len src)
    by (unfold len; lia).
  f_equal.
  unfold len.
  rewrite Nat2Z.id.
  rewrite firstn_app, Nat.sub_diag, firstn_all. simpl firstn at 1.
  rewrite app_nil_r. f_equal.
  rewrite Nat2Z.id, firstn_all. f_equal.
  replace (Z.to_nat (Z.of_nat (length pre) + Z.of_nat (length src)))
    with (length pre + length src)%nat by lia.
  rewrite skipn_app.
  rewrite skipn_all2 by lia. simpl.
  f_equal. lia.
Qed.

Lemma PutUint16_prefix (pre : list byte) (a b : byte) (t : list byte) (v : Z) :
  PutUint16 (pre ++ a :: b :: t) (len pre) v
  = pre ++ binary.Uint16_bytes v ++ t.
Proof.
  unfold PutUint16. rewrite copy_at_prefix by (simpl; lia).
  reflexivity.
Qed.

Lemma PutUint16_at0 (a b : byte) (t : list byte) (v : Z) :
  PutUint16 (a :: b :: t) 0 v = binary.Uint16_bytes v ++ t.
Proof. exact (PutUint16_prefix [] a b t v). Qed.

Lemma PutUint16_at2 (x y a b : byte) (t : list byte) (v : Z) :
  PutUint16 (x :: y :: a :: b :: t) 2 v = x :: y :: binary.Uint16_bytes v ++ t.
Proof. exact (PutUint16_prefix [x; y] a b t v). Qed.

Lemma copy_at_4 (a b c d : byte) (t src : list byte) :
  (length src <= length t)%nat ->
  copy_at (a :: b :: c :: d :: t) 4 src
  = (a :: b :: c :: d :: src ++ skipn (length src) t, len src).
Proof. exact (copy_at_prefix [a; b; c; d] t src). Qed.

(** A read into [p] keeps the length of [p], and the bytes read are the
    datagram cut to [len(p)]. *)
Lemma copy_at_0 (p d : list byte) :
  length (fst (copy_at p 0 d)) = length p /\
  snd (copy_at p 0 d) = len (firstn (length p) d) /\
  slice (fst (copy_at p 0 d)) 0 (snd (copy_at p 0 d)) = firstn (length p) d.
Proof.
  unfold copy_at, slice. cbn [fst snd]. rewrite Z.sub_0_r, Z.add_0_l, Z.sub_0_r.
  change (Z.to_nat 0) with O. cbn [firstn skipn app].
  assert (Hn : Z.to_nat (Z.min (len p) (len d)) = Nat.min (length p) (length d))
    by (unfold len; lia).
  rewrite Hn.
  assert (Hf : firstn (Nat.min (length p) (length d)) d = firstn (length p) d).
  { destruct (Nat.le_ge_cases (length p) (length d)) as [H | H].
    - rewrite Nat.min_l by lia. reflexivity.
    - rewrite Nat.min_r by lia. rewrite !firstn_all2 by lia. reflexivity. }
  rewrite Hf.
  assert (Hl : length (firstn (length p) d) = Nat.min (length p) (length d))
    by apply length_firstn.
  repeat split.
  - rewrite length_app, Hl, length_skipn. lia.
  - unfold len. rewrite Hl. lia.
  - rewrite firstn_app, Hl, Nat.sub_diag. cbn [firstn].
    rewrite app_nil_r, <- Hl. apply firstn_all.
Qed.

Lemma frameBlock_spec (r : response) :
  length (wb r) = 516%nat ->
  exists wb',
    frameBlock r =
      ({| conn := conn r; rb := rb r; wb := wb';
          buf := skipn 512 (buf r);
          block := (block r + 1) mod 65536;
          netASCII := netASCII r |}, len (firstn 512 (buf r))) /\
    length wb' = 516%nat /\
    slice wb' 0 (len (firstn 512 (buf r)) + 4)
    = data_frame ((block r + 1) mod 65536) (firstn 512 (buf r)).
Proof.
  intros Hwb.
  destruct r as [c rb0 wb0 buf0 blk na].
  cbn [wb buf block conn rb netASCII] in *.
  destruct wb0 as [|w0 [|w1 [|w2 [|w3 wt]]]]; try (simpl in Hwb; lia).
  assert (Hwt : length wt = 512%nat) by (simpl in Hwb; lia).
  set (next := firstn 512 buf0).
  assert (Hnext : (length next <= 512)%nat)
    by (unfold next; apply firstn_le_length).
  exists ([x00; x03; byte_of_Z (((blk + 1) mod 65536) / 256);
           byte_of_Z (((blk + 1) mod 65536) mod 256)]
          ++ next ++ skipn (length next) wt).
  split; [|split].
  - unfold frameBlock, Next, set_block, set_wb, set_buf.
    cbn [wb buf block conn rb netASCII].
    rewrite PutUint16_at0, (Uint16_bytes_be opcodeDATA). cbn [app].
    rewrite PutUint16_at2, Uint16_bytes_be. cbn [app].
    change (Z.to_nat blockSize) with 512%nat. fold next.
    rewrite copy_at_4 by lia.
    reflexivity.
  - cbn [app length]. rewrite length_app, length_skipn. lia.
  - unfold slice, data_frame. rewrite Z.sub_0_r. change (Z.to_nat 0) with O.
    cbn [skipn].
    replace (Z.to_nat (len next + 4)) with (4 + length next)%nat
      by (unfold len; lia).
    cbn [app Nat.add firstn]. do 4 f_equal.
    rewrite firstn_app, Nat.sub_diag. cbn [firstn]. rewrite app_nil_r.
    rewrite firstn_all. reflexivity.
Qed.

(** *** The loops of [writeOneBlock] *)

(** The session after the socket moved on to [c] and [rbuf] was read. *)
Lemma readLoop_arrival (k fuel : nat) (r : response)
    (ds : list (option error)) (ws : list (Z * option error))
    (rs : list (result (list byte))) (log : list (list byte))
    (dgram : list byte) :
  conn r = mkPacketConn ds ws
             (repeat (Err (OpError true)) k ++ Ok dgram :: rs) log ->
  (k < fuel)%nat ->
  readLoop fuel r
  = ({| conn := mkPacketConn ds ws rs log;
        rb := fst (copy_at (rb r) 0 dgram);
        wb := wb r; buf := buf r; block := block r;
        netASCII := netASCII r |},
     Some (Ok (snd (copy_at (rb r) 0 dgram)))).
Proof.
  revert fuel r. induction k as [|k IH]; intros fuel r Hc Hk.
  - destruct fuel as [|fuel]; [lia|].
    cbn [readLoop]. unfold ReadFrom. rewrite Hc. cbn.
    destruct (copy_at (rb r) 0 dgram) as [p' rn]. reflexivity.
  - destruct fuel as [|fuel]; [lia|].
    cbn [readLoop]. unfold ReadFrom. rewrite Hc.
    cbn [read_replies repeat app deadline_replies write_replies wlog].
    rewrite IH; [reflexivity | reflexivity | lia].
Qed.

Lemma readLoop_inv (fuel : nat) (r r' : response) (res : option (result Z)) :
  readLoop fuel r = (r', res) ->
  wb r' = wb r /\ buf r' = buf r /\ block r' = block r /\
  netASCII r' = netASCII r /\ length (rb r') = length (rb r) /\
  deadline_replies (conn r') = deadline_replies (conn r) /\
  write_replies (conn r') = write_replies (conn r) /\
  wlog (conn r') = wlog (conn r).
Proof.
  revert r. induction fuel as [|fuel IH]; intros r H.
  - cbn in H. injection H as <- _. repeat split.
  - cbn [readLoop] in H. unfold ReadFrom in H.
    destruct (read_replies (conn r)) as [|[dgram | e] rs].
    + injection H as <- _. repeat split.
    + pose proof (copy_at_0 (rb r) dgram) as (Hl & _ & _).
      destruct (copy_at (rb r) 0 dgram) as [p' rn].
      injection H as <- _. cbn in *. repeat split. exact Hl.
    + destruct e as [| | | | | | [|] |];
        try (injection H as <- _; cbn; repeat split).
      apply IH in H. cbn in H. exact H.
Qed.

Lemma sendLoop_inv (fuel : nat) (r r' : response) (cn : Z) (o : outcome) :
  sendLoop fuel r cn = (r', o) ->
  wb r' = wb r /\ buf r' = buf r /\ block r' = block r /\
  netASCII r' = netASCII r /\ length (rb r') = length (rb r) /\
  exists k, wlog (conn r') = wlog (conn r) ++ repeat (slice (wb r) 0 (cn + 4)) k
    /\ (fuel <> O ->
        (exists ds, deadline_replies (conn r) = None :: ds) ->
        write_replies (conn r) <> [] -> (1 <= k)%nat).
Proof.
  revert r. induction fuel as [|fuel IH]; intros r H.
  - cbn in H. injection H as <- _. repeat split.
    exists O. rewrite app_nil_r. split; [reflexivity | congruence].
  - cbn [sendLoop] in H. unfold SetDeadline in H.
    destruct (deadline_replies (conn r)) as [|[e|] ds] eqn:Eds.
    + injection H as <- _. repeat split.
      exists O. rewrite app_nil_r. split; [reflexivity|].
      intros _ [ds' Hd]. discriminate.
    + injection H as <- _. repeat split.
      exists O. rewrite app_nil_r. split; [reflexivity|].
      intros _ [ds' Hd]. discriminate.
    + unfold WriteTo in H. cbn [conn set_conn write_replies] in H.
      destruct (write_replies (conn r)) as [|[wn [e|]] ws] eqn:Ews.
      * injection H as <- _. cbn. repeat split.
        exists O. rewrite app_nil_r. split; [reflexivity|]. congruence.
      * assert (Hstop :
          forall r0,
            r0 = set_conn
                   (set_conn r
                      {| deadline_replies := ds;
                         write_replies := write_replies (conn r);
                         read_replies := read_replies (conn r);
                         wlog := wlog (conn r) |})
                   {| deadline_replies := ds;
                      write_replies := ws;
                      read_replies := read_replies (conn r);
                      wlog := wlog (conn r) ++ [slice (wb r) 0 (cn + 4)] |} ->
            wb r0 = wb r /\ buf r0 = buf r /\ block r0 = block r /\
            netASCII r0 = netASCII r /\ length (rb r0) = length (rb r) /\
            wlog (conn r0)
            = wlog (conn r) ++ repeat (slice (wb r) 0 (cn + 4)) 1).
        { intros r0 ->. cbn. repeat split. }
        cbn [wb set_conn deadline_replies read_replies wlog conn] in H.
        destruct e as [| | | | | | [|] |];
          try (injection H as <- _;
               destruct (Hstop _ eq_refl) as (? & ? & ? & ? & ? & Hw);
               repeat split; try assumption;
               exists 1%nat; split; [exact Hw | lia]).
        apply IH in H.
        destruct H as (H1 & H2 & H3 & H4 & H5 & k & Hk & _).
        cbn in H1, H2, H3, H4, H5, Hk.
        repeat split; try assumption.
        exists (S k). split; [|lia].
        rewrite Hk, <- app_assoc. reflexivity.
      * cbn [wb set_conn deadline_replies read_replies wlog conn] in H.
        destruct (negb (wn =? cn + 4)).
        { injection H as <- _. cbn. repeat split.
          exists 1%nat. split; [reflexivity | lia]. }
        match type of H with
        | context [readLoop ?f ?x] =>
            destruct (readLoop f x) as [r1 res] eqn:Er
        end.
        apply readLoop_inv in Er.
        destruct Er as (R1 & R2 & R3 & R4 & R5 & R6 & R7 & R8).
        cbn in R1, R2, R3, R4, R5, R6, R7, R8.
        assert (Hone :
          wb r1 = wb r /\ buf r1 = buf r /\ block r1 = block r /\
          netASCII r1 = netASCII r /\ length (rb r1) = length (rb r) /\
          exists k, wlog (conn r1)
                    = wlog (conn r) ++ repeat (slice (wb r) 0 (cn + 4)) k
            /\ (S fuel <> O ->
                (exists ds0, None :: ds = None :: ds0) ->
                (wn, @None error) :: ws <> [] -> (1 <= k)%nat)).
        { repeat split; try assumption.
          exists 1%nat. split; [exact R8 | lia]. }
        destruct res as [[readN | e]|];
          [| injection H as <- _; exact Hone | injection H as <- _; exact Hone].
        destruct (parseACKPacket (slice (rb r1) 0 readN)) as [ack | e];
          [| injection H as <- _; exact Hone].
        destruct (ack_Block ack =? (block r1 - 1) mod 65536);
          [| injection H as <- _; exact Hone].
        apply IH in H.
        destruct H as (H1 & H2 & H3 & H4 & H5 & k & Hk & _).
        repeat split; try congruence.
        exists (S k). split; [|lia].
        rewrite Hk, R8, R1, <- app_assoc. reflexivity.
Qed.

(** One full round of the outer loop: the deadline is set, the frame is
    written whole, and after [k] read timeouts the datagram [dgram]
    arrives. *)
Lemma sendLoop_round (k fuel : nat) (r : response) (cn : Z)
    (ds : list (option error)) (ws : list (Z * option error))
    (rs : list (result (list byte))) (log : list (list byte))
    (dgram : list byte) :
  conn r = mkPacketConn (None :: ds) ((cn + 4, None) :: ws)
             (repeat (Err (OpError true)) k ++ Ok dgram :: rs) log ->
  let r1 := {| conn := mkPacketConn ds ws rs (log ++ [slice (wb r) 0 (cn + 4)]);
               rb := fst (copy_at (rb r) 0 dgram);
               wb := wb r; buf := buf r; block := block r;
               netASCII := netASCII r |} in
  sendLoop (S fuel) r cn
  = match parseACKPacket (firstn (length (rb r)) dgram) with
    | Err e => (r1, Returned (Some e))
    | Ok ack =>
        if ack_Block ack =? (block r - 1) mod 65536
        then sendLoop fuel r1 cn
        else (r1, Returned None)
    end.
Proof.
  intros Hc r1.
  cbn [sendLoop]. unfold SetDeadline, WriteTo. rewrite Hc.
  cbn [deadline_replies write_replies read_replies wlog conn set_conn wb].
  rewrite Z.eqb_refl. cbn [negb].
  rewrite (readLoop_arrival k _ _ ds ws rs
             (log ++ [slice (wb r) 0 (cn + 4)]) dgram);
    [| reflexivity | rewrite length_app, repeat_length; simpl; lia].
  cbn [rb wb buf block netASCII conn set_conn].
  destruct (copy_at_0 (rb r) dgram) as (_ & _ & Hs). rewrite Hs.
  reflexivity.
Qed.

Lemma len_data_frame (blk : Z) (payload : list byte) :
  len (data_frame blk payload) = len payload + 4.
Proof.
  unfold data_frame. rewrite len_app.
  change (len [x00; x03; byte_of_Z (blk / 256); byte_of_Z (blk mod 256)])
    with 4.
  lia.
Qed.

(** *** What [writeOneBlock] does with the reply *)

(** Let [writeOneBlock] frame block [N] and send it whole, and let a
    datagram arrive (after any number of read timeouts).  If the datagram
    parses as an ACK for block [N-1] (mod 65536), the call is back at the
    top of its send loop with the same frame and the counter still [N], and
    when the socket takes another send that frame is written again.  If it
    parses as an ACK for any other block, the call returns [nil].  If
    parsing gives an error (an [ErrorPacket] or a decoding error), the call
    returns that error, with nothing more sent or read. *)
Lemma writeOneBlock_round (r : response) (k : nat)
    (ds : list (option error)) (ws : list (Z * option error))
    (rs : list (result (list byte))) (log : list (list byte))
    (dgram : list byte) :
  length (wb r) = 516%nat -> length (rb r) = 516%nat ->
  let N := (block r + 1) mod 65536 in
  let payload := firstn 512 (buf r) in
  let frame := data_frame N payload in
  conn r = mkPacketConn (None :: ds) ((len frame, None) :: ws)
             (repeat (Err (OpError true)) k ++ Ok dgram :: rs) log ->
  exists r1,
    (conn r1 = mkPacketConn ds ws rs (log ++ [frame]) /\
     block r1 = N /\ buf r1 = skipn 512 (buf r) /\
     slice (wb r1) 0 (len frame) = frame) /\
    (forall ack,
       parseACKPacket (firstn 516 dgram) = Ok ack ->
       ack_Block ack = (N - 1) mod 65536 ->
       writeOneBlock r = sendLoop (S (length ds)) r1 (len payload) /\
       (forall ds' w ws', ds = None :: ds' -> ws = w :: ws' ->
          exists k', wlog (conn (fst (writeOneBlock r)))
                     = log ++ frame :: frame :: repeat frame k')) /\
    (forall ack,
       parseACKPacket (firstn 516 dgram) = Ok ack ->
       ack_Block ack <> (N - 1) mod 65536 ->
       writeOneBlock r = (r1, Returned None)) /\
    (forall e,
       parseACKPacket (firstn 516 dgram) = Err e ->
       writeOneBlock r = (r1, Returned (Some e))).
Proof.
  intros Hwb Hrb N payload frame Hc.
  destruct (frameBlock_spec r Hwb) as (wb' & Hf & Hwb' & Hslice).
  fold payload N in Hf, Hslice. fold frame in Hslice.
  set (r0 := {| conn := conn r; rb := rb r; wb := wb';
                buf := skipn 512 (buf r); block := N;
                netASCII := netASCII r |}) in *.
  assert (Hlen : len frame = len payload + 4) by apply len_data_frame.
  assert (Hc0 : conn r0
                = mkPacketConn (None :: ds) ((len payload + 4, None) :: ws)
                    (repeat (Err (OpError true)) k ++ Ok dgram :: rs) log)
    by (rewrite <- Hlen; exact Hc).
  pose proof (sendLoop_round k (S (length ds)) r0 (len payload)
                ds ws rs log dgram Hc0) as Hround.
  cbn zeta in Hround. cbn [rb wb buf block netASCII r0] in Hround.
  rewrite Hslice, Hrb in Hround.
  set (r1 := {| conn := mkPacketConn ds ws rs (log ++ [frame]);
                rb := fst (copy_at (rb r) 0 dgram);
                wb := wb'; buf := skipn 512 (buf r); block := N;
                netASCII := netASCII r |}) in *.
  assert (Hw : writeOneBlock r
               = sendLoop (S (S (length ds))) r0 (len payload)).
  { unfold writeOneBlock. rewrite Hf. cbn [conn r0]. rewrite Hc.
    reflexivity. }
  exists r1. split; [|split; [|split]].
  - unfold r1. cbn [conn block buf wb]. repeat split.
    rewrite Hlen. exact Hslice.
  - intros ack Hp Hb. rewrite Hp in Hround.
    rewrite Hb, Z.eqb_refl in Hround.
    rewrite Hw, Hround. split; [reflexivity|].
    intros ds' w ws' -> ->.
    destruct (sendLoop (S (length (None :: ds'))) r1 (len payload))
      as [r2 o] eqn:E.
    apply sendLoop_inv in E.
    destruct E as (_ & _ & _ & _ & _ & k' & Hk' & Hpos).
    cbn [r1 conn wlog wb deadline_replies write_replies] in Hk', Hpos.
    rewrite Hslice in Hk'.
    assert (Hk1 : (1 <= k')%nat)
      by (apply Hpos; [discriminate | eexists; reflexivity | discriminate]).
    destruct k' as [|k'']; [lia|].
    exists k''. cbn [fst]. rewrite Hk', <- app_assoc. reflexivity.
  - intros ack Hp Hb. rewrite Hp in Hround.
    apply Z.eqb_neq in Hb. rewrite Hb in Hround.
    rewrite Hw. exact Hround.
  - intros e Hp. rewrite Hp in Hround. rewrite Hw. exact Hround.
Qed.

(** ** A call stays on the socket only when the script of the network has
    run out *)

Lemma readLoop_blocked (fuel : nat) (r r' : response) :
  readLoop fuel r = (r', None) ->
  (length (read_replies (conn r)) < fuel)%nat ->
  read_replies (conn r') = [].
Proof.
  revert r. induction fuel as [|fuel IH]; intros r H Hf; [lia|].
  cbn [readLoop] in H. unfold ReadFrom in H.
  destruct (read_replies (conn r)) as [|[dgram | e] rs] eqn:E.
  - injection H as <-. exact E.
  - destruct (copy_at (rb r) 0 dgram). discriminate.
  - destruct e as [| | | | | | [|] |]; try discriminate.
    apply IH in H; [exact H|]. cbn in *. lia.
Qed.

Lemma sendLoop_blocked (fuel : nat) (r r' : response) (cn : Z) :
  sendLoop fuel r cn = (r', Blocked) ->
  (length (deadline_replies (conn r)) < fuel)%nat ->
  exhausted (conn r').
Proof.
  unfold exhausted.
  revert r. induction fuel as [|fuel IH]; intros r H Hf; [lia|].
  cbn [sendLoop] in H. unfold SetDeadline in H.
  destruct (deadline_replies (conn r)) as [|[e|] ds] eqn:Eds.
  - injection H as <-. left. exact Eds.
  - discriminate.
  - unfold WriteTo in H. cbn [conn set_conn write_replies] in H.
    destruct (write_replies (conn r)) as [|[wn [e|]] ws] eqn:Ews.
    + injection H as <-. right; left. reflexivity.
    + cbn [wb set_conn deadline_replies read_replies wlog conn] in H.
      destruct e as [| | | | | | [|] |]; try discriminate.
      apply IH in H; [exact H|]. cbn in *. lia.
    + cbn [wb set_conn deadline_replies read_replies wlog conn] in H.
      destruct (negb (wn =? cn + 4)); [discriminate|].
      match type of H with
      | context [readLoop ?f ?x] =>
          destruct (readLoop f x) as [r1 res] eqn:Er
      end.
      destruct res as [[readN | e]|]; [| discriminate |].
      * pose proof (readLoop_inv _ _ _ _ Er) as (_ & _ & _ & _ & _ & R6 & _).
        cbn in R6.
        destruct (parseACKPacket (slice (rb r1) 0 readN)); [|discriminate].
        destruct (ack_Block a =? (block r1 - 1) mod 65536); [|discriminate].
        apply IH in H; [exact H|]. rewrite R6. cbn in *. lia.
      * injection H as <-. right; right.
        apply readLoop_blocked in Er; [exact Er|]. cbn. lia.
Qed.

Lemma writeOneBlock_blocked (r r' : response) :
  writeOneBlock r = (r', Blocked) -> exhausted (conn r').
Proof.
  unfold writeOneBlock. intros H.
  destruct (frameBlock r) as [r0 cn].
  apply sendLoop_blocked in H; [exact H | lia].
Qed.

Lemma writeBlocks_blocked (n : nat) (r r' : response) :
  writeBlocks n r = (r', Blocked) -> exhausted (conn r').
Proof.
  revert r. induction n as [|n IH]; intros r H; [discriminate|].
  cbn [writeBlocks] in H.
  destruct (writeOneBlock r) as [r1 [[e|]|]] eqn:E.
  - discriminate.
  - exact (IH r1 H).
  - injection H as <-. exact (writeOneBlock_blocked r r1 E).
Qed.

(** ** C3: what [writeOneBlock] does with the reply *)

(** C3.  Let [writeOneBlock] frame block [N] and send it whole, and let a
    datagram arrive (after any number of read timeouts).  If the datagram
    parses as an ACK for block [N-1] (mod 65536), the call is back at the
    top of its send loop with the same frame and the counter still [N], and
    when the socket takes another send that frame is written again.  If it
    parses as an ACK for any other block, the call returns [nil].  If
    parsing gives an error (an [ErrorPacket] or a decoding error), the call
    returns that error, with nothing more sent or read. *)
Theorem writeOneBlock_reply_handling (r : response) (k : nat)
    (ds : list (option error)) (ws : list (Z * option error))
    (rs : list (result (list byte))) (log : list (list byte))
    (dgram : list byte) :
  length (wb r) = 516%nat -> length (rb r) = 516%nat ->
  let N := (block r + 1) mod 65536 in
  let payload := firstn 512 (buf r) in
  let frame := data_frame N payload in
  conn r = mkPacketConn (None :: ds) ((len frame, None) :: ws)
             (repeat (Err (OpError true)) k ++ Ok dgram :: rs) log ->
  exists r1,
    (conn r1 = mkPacketConn ds ws rs (log ++ [frame]) /\
     block r1 = N /\ buf r1 = skipn 512 (buf r) /\
     slice (wb r1) 0 (len frame) = frame) /\
    (forall ack,
       parseACKPacket (firstn 516 dgram) = Ok ack ->
       ack_Block ack = (N - 1) mod 65536 ->
       writeOneBlock r = sendLoop (S (length ds)) r1 (len payload) /\
       (forall ds' w ws', ds = None :: ds' -> ws = w :: ws' ->
          exists k', wlog (conn (fst (writeOneBlock r)))
                     = log ++ frame :: frame :: repeat frame k')) /\
    (forall ack,
       parseACKPacket (firstn 516 dgram) = Ok ack ->
       ack_Block ack <> (N - 1) mod 65536 ->
       writeOneBlock r = (r1, Returned None)) /\
    (forall e,
       parseACKPacket (firstn 516 dgram) = Err e ->
       writeOneBlock r = (r1, Returned (Some e))).
Proof.
  intros Hwb Hrb N payload frame Hc.
  exact (writeOneBlock_round r k ds ws rs log dgram Hwb Hrb Hc).
Qed.

(** A stale ACK at work: block 1 goes out twice. *)
Example writeOneBlock_stale_ack :
  writeOneBlock stale_ack_session
  = ({| conn := {| deadline_replies := []; write_replies := [];
                   read_replies := [];
                   wlog := [ [x00; x03; x00; x01; x61];
                             [x00; x03; x00; x01; x61] ] |};
        rb := ack_frame 1 ++ make 512;
        wb := [x00; x03; x00; x01; x61] ++ make 511;
        buf := []; block := 1; netASCII := false |},
     Returned None).
Proof. vm_compute. reflexivity. Qed.

Lemma writeOneBlock_reply_handling_witness :
  exists k',
    wlog (conn (fst (writeOneBlock stale_ack_session)))
    = [x00; x03; x00; x01; x61] :: [x00; x03; x00; x01; x61]
      :: repeat [x00; x03; x00; x01; x61] k'.
Proof.
  destruct (writeOneBlock_reply_handling stale_ack_session 1
              [None] [(5, None)] [Ok (ack_frame 1)] [] (ack_frame 0)
              eq_refl eq_refl eq_refl)
    as (r1 & _ & Hstale & _ & _).
  destruct (Hstale {| ack_Opcode := 4; ack_Block := 0 |} eq_refl eq_refl)
    as [_ Hresend].
  exact (Hresend [] (5, None) [] eq_refl eq_refl).
Defined.

(** ** Blocks on the wire *)

Lemma transmissions_app (blk : Z) (bl1 bl2 : list (list byte * nat)) :
  transmissions blk (bl1 ++ bl2)
  = transmissions blk bl1
    ++ transmissions ((blk + Z.of_nat (length bl1)) mod 65536) bl2.
Proof.
  revert blk. induction bl1 as [|[p k] bl1 IH]; intros blk.
  - cbn [app length transmissions Z.of_nat].
    rewrite Z.add_0_r.
    destruct bl2 as [|[p k] bl2]; [reflexivity|].
    cbn [transmissions].
    rewrite Zplus_mod_idemp_l. reflexivity.
  - cbn [app transmissions]. rewrite IH, <- app_assoc.
    rewrite Zplus_mod_idemp_l.
    replace (blk + 1 + Z.of_nat (length bl1))
      with (blk + Z.of_nat (length ((p, k) :: bl1)))
      by (cbn [length]; lia).
    reflexivity.
Qed.

(** One call of [writeOneBlock]: one increment of the counter, one block
    taken from the front of the buffer, and on the wire only copies of that
    block. *)
Lemma writeOneBlock_inv (r r' : response) (o : outcome) :
  length (wb r) = 516%nat ->
  writeOneBlock r = (r', o) ->
  length (wb r') = 516%nat /\ length (rb r') = length (rb r) /\
  netASCII r' = netASCII r /\
  buf r' = skipn 512 (buf r) /\
  block r' = (block r + 1) mod 65536 /\
  exists k,
    wlog (conn r') = wlog (conn r)
                     ++ transmissions (block r) [(firstn 512 (buf r), k)] /\
    ((exists ds, deadline_replies (conn r) = None :: ds) ->
     write_replies (conn r) <> [] -> (1 <= k)%nat).
Proof.
  intros Hwb H.
  destruct (frameBlock_spec r Hwb) as (wb' & Hf & Hwb' & Hslice).
  unfold writeOneBlock in H. rewrite Hf in H.
  apply sendLoop_inv in H. cbn [wb buf block netASCII rb conn] in H.
  destruct H as (H1 & H2 & H3 & H4 & H5 & k & Hk & Hpos).
  rewrite Hslice in Hk.
  repeat split; try congruence.
  exists k. split.
  - cbn [transmissions]. rewrite app_nil_r. exact Hk.
  - intros Hd Hw. apply Hpos; [discriminate | exact Hd | exact Hw].
Qed.

Lemma skipn_512_mul (m : nat) (data : list byte) :
  skipn (512 * m) (skipn 512 data) = skipn (512 * S m) data.
Proof. rewrite skipn_skipn. f_equal. lia. Qed.

(** The loop of [Write]: it issues the first [m] full blocks of the buffer,
    in order, where [m] is the number of rounds unless a round does not
    return [nil], which is then the last one. *)
Lemma writeBlocks_inv (n : nat) (r r' : response) (o : outcome) :
  length (wb r) = 516%nat ->
  0 <= block r < 65536 ->
  writeBlocks n r = (r', o) ->
  length (wb r') = 516%nat /\ length (rb r') = length (rb r) /\
  netASCII r' = netASCII r /\
  exists (m : nat) (ks : list nat),
    (m <= n)%nat /\ length ks = m /\
    wlog (conn r') = wlog (conn r)
                     ++ transmissions (block r)
                          (combine (full_blocks m (buf r)) ks) /\
    buf r' = skipn (512 * m) (buf r) /\
    block r' = (block r + Z.of_nat m) mod 65536 /\
    (o = Returned None -> m = n) /\
    (o <> Returned None ->
     exists r0, writeOneBlock r0 = (r', o) /\
                buf r0 = skipn (512 * (m - 1)) (buf r) /\
                block r0 = (block r + Z.of_nat (m - 1)) mod 65536 /\
                (1 <= m)%nat).
Proof.
  revert r. induction n as [|n IH]; intros r Hwb Hblk0 H.
  - cbn in H. injection H as <- <-. repeat split; try assumption.
    exists O, []. repeat split; try reflexivity.
    + cbn. rewrite app_nil_r. reflexivity.
    + cbn [Z.of_nat]. rewrite Z.add_0_r, Z.mod_small by lia. reflexivity.
    + congruence.
  - cbn [writeBlocks] in H.
    destruct (writeOneBlock r) as [r1 o1] eqn:E1.
    pose proof (writeOneBlock_inv r r1 o1 Hwb E1)
      as (W1 & W2 & W3 & W4 & W5 & k & Wk & _).
    assert (Hstop : o1 <> Returned None -> (r1, o1) = (r', o) ->
      length (wb r') = 516%nat /\ length (rb r') = length (rb r) /\
      netASCII r' = netASCII r /\
      exists (m : nat) (ks : list nat),
        (m <= S n)%nat /\ length ks = m /\
        wlog (conn r') = wlog (conn r)
                         ++ transmissions (block r)
                              (combine (full_blocks m (buf r)) ks) /\
        buf r' = skipn (512 * m) (buf r) /\
        block r' = (block r + Z.of_nat m) mod 65536 /\
        (o = Returned None -> m = S n) /\
        (o <> Returned None ->
         exists r0, writeOneBlock r0 = (r', o) /\
                    buf r0 = skipn (512 * (m - 1)) (buf r) /\
                    block r0 = (block r + Z.of_nat (m - 1)) mod 65536 /\
                    (1 <= m)%nat)).
    { intros Hne [= <- <-]. repeat split; try assumption.
      exists 1%nat, [k]. repeat split; try assumption; try lia.
      - contradiction.
      - intros _. exists r. repeat split; try assumption; try lia.
        cbn [Nat.sub Z.of_nat]. rewrite Z.add_0_r, Z.mod_small by lia.
        reflexivity. }
    destruct o1 as [[e|]|]; try (apply Hstop; [discriminate | exact H]).
    clear Hstop.
    apply IH in H;
      [| exact W1 | rewrite W5; apply Z.mod_pos_bound; lia].
    destruct H as (H1 & H2 & H3 & m & ks & Hm & Hks & Hlog & Hbuf & Hblk
                   & Hok & Herr).
    repeat split; try congruence.
    exists (S m), (k :: ks). repeat split.
    + lia.
    + cbn [length]. lia.
    + rewrite Hlog, Wk, W5, W4, <- app_assoc. f_equal.
      cbn [full_blocks combine transmissions]. rewrite app_nil_r.
      reflexivity.
    + rewrite Hbuf, W4. apply skipn_512_mul.
    + rewrite Hblk, W5, Zplus_mod_idemp_l. f_equal. lia.
    + intros Ho. f_equal. exact (Hok Ho).
    + intros Ho. destruct (Herr Ho) as (r0 & Hr0 & Hb0 & Hk0 & Hm1).
      exists r0. repeat split; try assumption; try lia.
      * rewrite Hb0, W4.
        replace (S m - 1)%nat with (S (m - 1)) by lia.
        apply skipn_512_mul.
      * rewrite Hk0, W5, Zplus_mod_idemp_l. f_equal. lia.
Qed.

Lemma full_blocks_length (m : nat) (data : list byte) :
  (512 * m <= length data)%nat ->
  Forall (fun b => len b = 512) (full_blocks m data).
Proof.
  revert data. induction m as [|m IH]; intros data Hm; cbn [full_blocks].
  - constructor.
  - constructor.
    + unfold len. rewrite length_firstn. lia.
    + apply IH. rewrite length_skipn. lia.
Qed.

Lemma length_full_blocks (m : nat) (data : list byte) :
  length (full_blocks m data) = m.
Proof.
  revert data. induction m as [|m IH]; intros data; cbn [full_blocks length];
    [reflexivity | rewrite IH; reflexivity].
Qed.

(** *** [Write] *)

Lemma response_Write_unfold (r : response) (p : list byte) :
  let data := buf r ++ (if netASCII r then toNetASCII p else p) in
  response_Write r p
  = if len data <? 512 then (set_buf r data, WReturned (len p) None)
    else let (r', o) := writeBlocks (Z.to_nat (len data / 512)) (set_buf r data)
         in (r', write_return (len p) o).
Proof. reflexivity. Qed.





(** What [Write] leaves behind, whatever the network does. *)
Lemma response_Write_inv (r r' : response) (p : list byte)
    (res : write_result) :
  wellformed r ->
  response_Write r p = (r', res) ->
  wellformed r' /\ netASCII r' = netASCII r /\
  exists bl,
    wlog (conn r') = wlog (conn r) ++ transmissions (block r) bl /\
    block r' = (block r + Z.of_nat (length bl)) mod 65536.
Proof.
  intros (Hrb & Hwb & Hblk) H.
  rewrite response_Write_unfold in H. cbn zeta in H.
  set (data := buf r ++ (if netASCII r then toNetASCII p else p)) in *.
  destruct (len data <? 512).
  - injection H as <- _. split; [|split].
    + repeat split; cbn; assumption || lia.
    + reflexivity.
    + exists []. cbn. rewrite app_nil_r, Z.add_0_r, Z.mod_small by lia.
      split; reflexivity.
  - destruct (writeBlocks _ _) as [r1 o] eqn:E.
    injection H as <- _.
    apply writeBlocks_inv in E; [| exact Hwb | exact Hblk].
    cbn [rb wb buf block netASCII conn set_buf] in E.
    destruct E as (W1 & W2 & W3 & m & ks & Hm & Hks & Hlog & Hbuf & Hb & _).
    split; [|split].
    + repeat split; try congruence; rewrite Hb; apply Z.mod_pos_bound; lia.
    + exact W3.
    + exists (combine (full_blocks m data) ks). split; [exact Hlog|].
      rewrite length_combine, length_full_blocks, Hks, Nat.min_id.
      exact Hb.
Qed.

(** The sessions of the examples are well formed. *)
Lemma wellformed_stale_ack_session : wellformed stale_ack_session.
Proof. repeat split; try reflexivity; discriminate. Defined.


Lemma wellformed_drained_session : wellformed drained_session.
Proof. repeat split; try reflexivity; discriminate. Defined.

(** *** A block that was acknowledged was sent *)

(** When the send loop returns [nil], the frame was handed to the socket at
    least once: [nil] is returned only after a whole write and an ACK. *)
Lemma sendLoop_nil_sent (fuel : nat) (r r' : response) (cn : Z) :
  sendLoop fuel r cn = (r', Returned None) ->
  exists k,
    wlog (conn r')
    = wlog (conn r) ++ repeat (slice (wb r) 0 (cn + 4)) (S k).
Proof.
  revert r. induction fuel as [|fuel IH]; intros r H.
  - discriminate H.
  - cbn [sendLoop] in H. unfold SetDeadline in H.
    destruct (deadline_replies (conn r)) as [|[e|] ds] eqn:Eds;
      try discriminate H.
    unfold WriteTo in H. cbn [conn set_conn write_replies] in H.
    destruct (write_replies (conn r)) as [|[wn [e|]] ws] eqn:Ews;
      try discriminate H.
    + cbn [wb set_conn deadline_replies read_replies wlog conn] in H.
      destruct e as [| | | | | | [|] |]; try discriminate H.
      apply IH in H. destruct H as (k & Hk). cbn in Hk.
      exists (S k). rewrite Hk, <- app_assoc. reflexivity.
    + cbn [wb set_conn deadline_replies read_replies wlog conn] in H.
      destruct (negb (wn =? cn + 4)); [discriminate H|].
      match type of H with
      | context [readLoop ?f ?x] =>
          destruct (readLoop f x) as [r1 res] eqn:Er
      end.
      apply readLoop_inv in Er.
      destruct Er as (R1 & _ & _ & _ & _ & _ & _ & R8).
      cbn in R1, R8.
      destruct res as [[readN | e]|]; try discriminate H.
      destruct (parseACKPacket (slice (rb r1) 0 readN)) as [ack | e];
        [| discriminate H].
      destruct (ack_Block ack =? (block r1 - 1) mod 65536).
      * apply IH in H. destruct H as (k & Hk).
        exists (S k). rewrite Hk, R8, R1, <- app_assoc. reflexivity.
      * injection H as <-. exists O. exact R8.
Qed.

Lemma repeat_count_unique {A : Type} (l : list A) (f : A) (k k' : nat) :
  l ++ repeat f k = l ++ repeat f k' -> k = k'.
Proof.
  intros H. apply app_inv_head in H.
  apply (f_equal (@length A)) in H. rewrite !repeat_length in H. exact H.
Qed.

(** [writeOneBlock_inv] with the lower bound on the copies sent: at least
    one as soon as the socket takes the deadline and answers the write, and
    at least one whenever the call returns [nil]. *)
Lemma writeOneBlock_inv_sent (r r' : response) (o : outcome) :
  length (wb r) = 516%nat ->
  writeOneBlock r = (r', o) ->
  length (wb r') = 516%nat /\ length (rb r') = length (rb r) /\
  netASCII r' = netASCII r /\
  buf r' = skipn 512 (buf r) /\
  block r' = (block r + 1) mod 65536 /\
  exists k,
    wlog (conn r') = wlog (conn r)
                     ++ transmissions (block r) [(firstn 512 (buf r), k)] /\
    ((exists ds, deadline_replies (conn r) = None :: ds) ->
     write_replies (conn r) <> [] -> (1 <= k)%nat) /\
    (o = Returned None -> (1 <= k)%nat).
Proof.
  intros Hwb H.
  destruct (writeOneBlock_inv r r' o Hwb H)
    as (W1 & W2 & W3 & W4 & W5 & k & Wk & Wpos).
  repeat split; try assumption.
  exists k. split; [exact Wk|]. split; [exact Wpos|].
  intros ->.
  destruct (frameBlock_spec r Hwb) as (wb' & Hf & _ & Hslice).
  unfold writeOneBlock in H. rewrite Hf in H.
  apply sendLoop_nil_sent in H. destruct H as (k0 & Hk0).
  cbn [wb conn] in Hk0. rewrite Hslice in Hk0.
  cbn [transmissions] in Wk. rewrite app_nil_r in Wk.
  rewrite Wk in Hk0. apply repeat_count_unique in Hk0. lia.
Qed.


(** ** C6: [Write] *)



(** A netascii write that fills one block: the CR put before the LF is the
    last byte of block 1 and the LF stays buffered. *)
Example response_Write_netascii_block :
  response_Write netascii_session [LF]
  = ({| conn := {| deadline_replies := []; write_replies := [];
                   read_replies := [];
                   wlog := [data_frame 1 (repeat x61 511 ++ [CR])] |};
        rb := ack_frame 1 ++ make 512;
        wb := data_frame 1 (repeat x61 511 ++ [CR]);
        buf := [LF]; block := 1; netASCII := true |},
     WReturned 1 None).
Proof. vm_compute. reflexivity. Qed.

(** *** A block that is acknowledged at once *)

Lemma writeOneBlock_acked (r : response)
    (ds : list (option error)) (ws : list (Z * option error))
    (rs : list (result (list byte))) (log : list (list byte))
    (wn : Z) (dgram : list byte) (ack : ackPacket) :
  wellformed r ->
  conn r = mkPacketConn (None :: ds) ((wn, None) :: ws) (Ok dgram :: rs) log ->
  wn = len (firstn 512 (buf r)) + 4 ->
  parseACKPacket (firstn 516 dgram) = Ok ack ->
  ack_Block ack <> block r ->
  exists r1,
    writeOneBlock r = (r1, Returned None) /\
    wellformed r1 /\ netASCII r1 = netASCII r /\
    conn r1 = mkPacketConn ds ws rs
                (log ++ [data_frame ((block r + 1) mod 65536)
                           (firstn 512 (buf r))]) /\
    block r1 = (block r + 1) mod 65536 /\
    buf r1 = skipn 512 (buf r).
Proof.
  intros (Hrb & Hwb & Hblk) Hc -> Hp Hne.
  rewrite <- len_data_frame with (blk := (block r + 1) mod 65536) in Hc.
  destruct (writeOneBlock_round r 0 ds ws rs log dgram Hwb Hrb Hc)
    as (r1 & (Hc1 & Hb1 & Hbuf1 & _) & _ & Hok & _).
  assert (Hprev : ((block r + 1) mod 65536 - 1) mod 65536 = block r).
  { rewrite Zminus_mod_idemp_l.
    replace (block r + 1 - 1) with (block r) by lia.
    apply Z.mod_small. exact Hblk. }
  specialize (Hok ack Hp). rewrite Hprev in Hok. specialize (Hok Hne).
  exists r1. split; [exact Hok|].
  destruct (writeOneBlock_inv r r1 _ Hwb Hok) as (W1 & W2 & W3 & _).
  repeat split; try assumption; try congruence.
  - rewrite Hb1. apply Z.mod_pos_bound. lia.
  - rewrite Hb1. apply Z.mod_pos_bound. lia.
Qed.

(** ** C7: [Flush] *)

(** C7.  Every call of [Flush] issues exactly one block: the counter moves
    by one, the block is the first 512 bytes of the buffer (all of it when
    it holds fewer, none when it is empty, which leaves the bare 4-byte
    header), and every datagram the call hands to the socket is that one
    block.  The block is handed to the socket at least once as soon as the
    socket takes the deadline and answers the write, whatever the buffer
    holds, and exactly once when it is written whole and an ACK for a block
    other than the previous one comes back; the call returns unless the
    network stops answering. *)
Theorem response_Flush_spec (r : response) :
  wellformed r ->
  let r' := fst (response_Flush r) in
  let N := (block r + 1) mod 65536 in
  let payload := firstn 512 (buf r) in
  let frame := data_frame N payload in
  wellformed r' /\
  block r' = N /\ buf r' = skipn 512 (buf r) /\
  len payload = Z.min 512 (len (buf r)) /\
  (buf r = [] ->
   frame = [x00; x03; byte_of_Z (N / 256); byte_of_Z (N mod 256)]) /\
  (exists k,
     wlog (conn r') = wlog (conn r) ++ repeat frame k /\
     ((exists ds, deadline_replies (conn r) = None :: ds) ->
      write_replies (conn r) <> [] -> (1 <= k)%nat)) /\
  (snd (response_Flush r) = Blocked -> exhausted (conn r')) /\
  (forall ds ws rs log dgram ack,
     conn r = mkPacketConn (None :: ds) ((len frame, None) :: ws)
                (Ok dgram :: rs) log ->
     parseACKPacket (firstn 516 dgram) = Ok ack ->
     ack_Block ack <> block r ->
     snd (response_Flush r) = Returned None /\
     conn r' = mkPacketConn ds ws rs (log ++ [frame])).
Proof.
  intros Hwf r' N payload frame.
  pose proof Hwf as (Hrb & Hwb & Hblk).
  unfold response_Flush in *.
  destruct (writeOneBlock r) as [r1 o] eqn:E.
  pose proof (writeOneBlock_inv r r1 o Hwb E)
    as (W1 & W2 & W3 & W4 & W5 & k & Wk & Wpos).
  subst r'. cbn [fst snd].
  split; [|split; [|split; [|split; [|split; [|split; [|split]]]]]].
  - repeat split; try congruence; rewrite W5; apply Z.mod_pos_bound; lia.
  - exact W5.
  - exact W4.
  - unfold payload, len. rewrite length_firstn. lia.
  - intros Hb. unfold frame, payload. rewrite Hb. reflexivity.
  - exists k. split; [|exact Wpos].
    rewrite Wk. cbn [transmissions]. rewrite app_nil_r. reflexivity.
  - intros ->. exact (writeOneBlock_blocked r r1 E).
  - intros ds ws rs log dgram ack Hc Hp Hne.
    destruct (writeOneBlock_acked r ds ws rs log (len frame) dgram ack
                Hwf Hc (len_data_frame _ _) Hp Hne)
      as (r2 & Hw & _ & _ & Hc2 & _).
    rewrite E in Hw. injection Hw as <- <-. split; [reflexivity | exact Hc2].
Qed.

Lemma response_Flush_spec_witness :
  snd (response_Flush drained_session) = Returned None /\
  conn (fst (response_Flush drained_session))
  = mkPacketConn [] [] [] [[x00; x03; x00; x03]].
Proof.
  exact (proj2 (proj2 (proj2 (proj2 (proj2 (proj2 (proj2
           (response_Flush_spec drained_session
              wellformed_drained_session)))))))
           [] [] [] [] (ack_frame 3) {| ack_Opcode := 4; ack_Block := 3 |}
           eq_refl eq_refl ltac:(discriminate)).
Defined.

(** ** A transfer to a peer that acknowledges every block *)

Lemma byte_to_Z_of_Z (v : Z) : 0 <= v < 256 -> byte_to_Z (byte_of_Z v) = v.
Proof.
  intros Hv. unfold byte_of_Z, byte_to_Z. rewrite Z.mod_small by lia.
  destruct (Byte.of_N (Z.to_N v)) as [c|] eqn:E.
  - apply Byte.to_of_N in E. rewrite E. lia.
  - apply Byte.of_N_None_iff in E. lia.
Qed.

Lemma parseACKPacket_ack_frame (blk : Z) :
  0 <= blk < 65536 ->
  parseACKPacket (firstn 516 (ack_frame blk))
  = Ok {| ack_Opcode := 4; ack_Block := blk |}.
Proof.
  intros Hb. unfold ack_frame. cbn [firstn].
  unfold parseACKPacket.
  change (len [x00; x04; byte_of_Z (blk / 256); byte_of_Z (blk mod 256)])
    with 4.
  cbn [Z.ltb Z.compare Pos.compare Pos.compare_cont Z.eqb Pos.eqb andb].
  change (slice [x00; x04; byte_of_Z (blk / 256); byte_of_Z (blk mod 256)] 0 2)
    with [x00; x04].
  change (slice [x00; x04; byte_of_Z (blk / 256); byte_of_Z (blk mod 256)] 2 4)
    with [byte_of_Z (blk / 256); byte_of_Z (blk mod 256)].
  rewrite !Uint16_pair.
  change (be16 x00 x04) with 4. change (4 =? opcodeACK) with true.
  cbv iota. do 2 f_equal.
  unfold be16.
  rewrite !byte_to_Z_of_Z.
  - symmetry. apply Z.div_mod. lia.
  - apply Z.mod_pos_bound. lia.
  - split; [apply Z.div_pos; lia | apply Z.div_lt_upper_bound; lia].
Qed.

Lemma writeOneBlock_acking (r : response) (rest : list (list byte))
    (log : list (list byte)) :
  wellformed r ->
  conn r = acking_network (block r) (firstn 512 (buf r) :: rest) log ->
  exists r1,
    writeOneBlock r = (r1, Returned None) /\
    wellformed r1 /\ netASCII r1 = netASCII r /\
    block r1 = (block r + 1) mod 65536 /\
    buf r1 = skipn 512 (buf r) /\
    conn r1 = acking_network (block r1) rest
                (log ++ transmissions (block r) (once [firstn 512 (buf r)])).
Proof.
  intros Hwf Hc.
  pose proof Hwf as (_ & _ & Hblk).
  assert (HN : 0 <= (block r + 1) mod 65536 < 65536)
    by (apply Z.mod_pos_bound; lia).
  destruct (writeOneBlock_acked r
              (map (fun _ => None) rest)
              (map (fun p => (len p + 4, None)) rest)
              (acks ((block r + 1) mod 65536) rest) log
              (len (firstn 512 (buf r)) + 4)
              (ack_frame ((block r + 1) mod 65536))
              {| ack_Opcode := 4; ack_Block := (block r + 1) mod 65536 |}
              Hwf Hc eq_refl (parseACKPacket_ack_frame _ HN))
    as (r1 & Hw & Hwf1 & Hna & Hc1 & Hb1 & Hbuf1).
  { cbn [ack_Block]. intros Heq.
    destruct (Z.eq_dec (block r) 65535) as [E | E].
    - rewrite E in Heq. vm_compute in Heq. discriminate.
    - rewrite Z.mod_small in Heq by lia. lia. }
  exists r1. repeat split; try assumption; try apply Hwf1.
  rewrite Hc1, Hb1. unfold acking_network, once.
  cbn [map transmissions]. rewrite app_nil_r. reflexivity.
Qed.

Lemma once_app (l1 l2 : list (list byte)) :
  once (l1 ++ l2) = once l1 ++ once l2.
Proof. unfold once. apply map_app. Qed.

Lemma length_once (l : list (list byte)) : length (once l) = length l.
Proof. unfold once. apply length_map. Qed.

Lemma writeBlocks_acking (n : nat) (r : response) (rest : list (list byte))
    (log : list (list byte)) :
  wellformed r ->
  conn r = acking_network (block r) (full_blocks n (buf r) ++ rest) log ->
  exists r1,
    writeBlocks n r = (r1, Returned None) /\
    wellformed r1 /\ netASCII r1 = netASCII r /\
    block r1 = (block r + Z.of_nat n) mod 65536 /\
    buf r1 = skipn (512 * n) (buf r) /\
    conn r1 = acking_network (block r1) rest
                (log ++ transmissions (block r)
                          (once (full_blocks n (buf r)))).
Proof.
  revert r log. induction n as [|n IH]; intros r log Hwf Hc.
  - exists r. cbn [writeBlocks full_blocks once map transmissions].
    pose proof Hwf as (_ & _ & Hblk).
    cbn [Z.of_nat]. rewrite Z.add_0_r, Z.mod_small, app_nil_r by lia.
    repeat split; try apply Hwf. exact Hc.
  - cbn [full_blocks app] in Hc.
    destruct (writeOneBlock_acking r _ log Hwf Hc)
      as (r1 & Hw & Hwf1 & Hna1 & Hb1 & Hbuf1 & Hc1).
    rewrite <- Hbuf1 in Hc1.
    destruct (IH r1 _ Hwf1 Hc1)
      as (r2 & Hw2 & Hwf2 & Hna2 & Hb2 & Hbuf2 & Hc2).
    exists r2. cbn [writeBlocks]. rewrite Hw.
    split; [exact Hw2|]. split; [exact Hwf2|]. split; [congruence|].
    split; [|split].
    + rewrite Hb2, Hb1, Zplus_mod_idemp_l. f_equal. lia.
    + rewrite Hbuf2, Hbuf1. apply skipn_512_mul.
    + rewrite Hc2. f_equal.
      rewrite <- app_assoc. f_equal.
      cbn [full_blocks].
      change (firstn 512 (buf r) :: full_blocks n (skipn 512 (buf r)))
        with ([firstn 512 (buf r)] ++ full_blocks n (skipn 512 (buf r))).
      rewrite once_app, transmissions_app, length_once. cbn [length Z.of_nat].
      rewrite Hb1, Hbuf1. reflexivity.
Qed.

(** [Write] on such a network sends every full block of the buffer and
    returns [nil]. *)
Lemma response_Write_acking (r : response) (p : list byte)
    (rest : list (list byte)) (log : list (list byte)) :
  wellformed r ->
  let data := buf r ++ (if netASCII r then toNetASCII p else p) in
  let n := Z.to_nat (len data / 512) in
  conn r = acking_network (block r) (full_blocks n data ++ rest) log ->
  exists r1,
    response_Write r p = (r1, WReturned (len p) None) /\
    wellformed r1 /\ netASCII r1 = netASCII r /\
    block r1 = (block r + Z.of_nat n) mod 65536 /\
    buf r1 = skipn (512 * n) data /\
    conn r1 = acking_network (block r1) rest
                (log ++ transmissions (block r) (once (full_blocks n data))).
Proof.
  intros Hwf data n Hc.
  rewrite response_Write_unfold. cbn zeta. fold data.
  pose proof Hwf as (Hrb & Hwb & Hblk).
  destruct (Z.ltb_spec (len data) 512) as [Hlt | Hge].
  - assert (Hn : n = O).
    { unfold n. rewrite Z.div_small; [reflexivity|].
      pose proof (len_nonneg data). lia. }
    rewrite Hn in *.
    exists (set_buf r data). cbn [full_blocks once map transmissions app] in *.
    cbn [set_buf block buf netASCII conn rb wb].
    cbn [Z.of_nat]. rewrite Z.add_0_r, Z.mod_small, app_nil_r by lia.
    repeat split; try assumption; cbn [set_buf block]; lia.
  - fold n.
    destruct (writeBlocks_acking n (set_buf r data) rest log)
      as (r1 & Hw & Hwf1 & Hna1 & Hb1 & Hbuf1 & Hc1).
    + exact Hwf.
    + exact Hc.
    + rewrite Hw. exists r1. cbn [write_return].
      repeat split; try assumption; apply Hwf1.
Qed.

Lemma transfer_blocks_short (d : list byte) :
  len d < 512 -> transfer_blocks d = [d].
Proof.
  intros H. unfold transfer_blocks.
  rewrite Z.div_small by (pose proof (len_nonneg d); lia).
  reflexivity.
Qed.

Lemma transfer_blocks_full (d : list byte) :
  512 <= len d ->
  transfer_blocks d = firstn 512 d :: transfer_blocks (skipn 512 d).
Proof.
  intros H. unfold transfer_blocks.
  assert (Hl : len (skipn 512 d) = len d - 512)
    by (unfold len in *; rewrite length_skipn; lia).
  rewrite Hl.
  assert (Hn : Z.to_nat (len d / 512) = S (Z.to_nat ((len d - 512) / 512))).
  { replace (len d) with ((len d - 512) + 1 * 512) at 1 by lia.
    rewrite Z.div_add by lia.
    pose proof (Z.div_pos (len d - 512) 512 ltac:(lia) ltac:(lia)). lia. }
  rewrite Hn. cbn [full_blocks app]. rewrite skipn_512_mul. reflexivity.
Qed.

Lemma transfer_blocks_split (n : nat) (d e : list byte) :
  n = Z.to_nat (len d / 512) ->
  transfer_blocks (d ++ e)
  = full_blocks n d ++ transfer_blocks (skipn (512 * n) d ++ e).
Proof.
  revert d. induction n as [|n IH]; intros d Hn.
  - reflexivity.
  - assert (Hd : 512 <= len d).
    { destruct (Z.ltb_spec (len d) 512) as [Hlt|]; [|assumption].
      rewrite Z.div_small in Hn by (pose proof (len_nonneg d); lia).
      discriminate. }
    rewrite transfer_blocks_full
      by (rewrite len_app; pose proof (len_nonneg e); lia).
    assert (Hlen : (512 <= length d)%nat) by (unfold len in Hd; lia).
    rewrite firstn_app, skipn_app.
    replace (512 - length d)%nat with O by lia.
    rewrite firstn_O, skipn_O, app_nil_r.
    cbn [full_blocks app]. f_equal.
    rewrite IH.
    + rewrite skipn_512_mul. reflexivity.
    + assert (Hl : len (skipn 512 d) = len d - 512)
        by (unfold len in *; rewrite length_skipn; lia).
      rewrite Hl.
      replace (len d) with ((len d - 512) + 1 * 512) in Hn by lia.
      rewrite Z.div_add in Hn by lia.
      pose proof (Z.div_pos (len d - 512) 512 ltac:(lia) ltac:(lia)). lia.
Qed.

Lemma remainder_short (d : list byte) :
  len (skipn (512 * Z.to_nat (len d / 512)) d) < 512.
Proof.
  unfold len. rewrite length_skipn.
  pose proof (Z.mul_div_le (Z.of_nat (length d)) 512 ltac:(lia)).
  pose proof (Z.mul_succ_div_gt (Z.of_nat (length d)) 512 ltac:(lia)).
  pose proof (Z.div_pos (Z.of_nat (length d)) 512 ltac:(lia) ltac:(lia)).
  lia.
Qed.

(** A handler that writes [data] in the pieces [ps], in a mode without
    transcoding, and then flushes, to a peer that acknowledges every
    block: the blocks of the transfer of the buffered bytes and [data] go
    out in order, once each. *)
Lemma run_acking (ps : list (list byte)) (r : response)
    (log : list (list byte)) :
  wellformed r -> netASCII r = false -> len (buf r) < 512 ->
  conn r = acking_network (block r)
             (transfer_blocks (buf r ++ concat ps)) log ->
  wlog (conn (run (map CallWrite ps ++ [CallFlush]) r))
  = log ++ transmissions (block r)
             (once (transfer_blocks (buf r ++ concat ps))).
Proof.
  revert r log. induction ps as [|p ps IH]; intros r log Hwf Hna Hshort Hc.
  - cbn [concat map app run] in *. rewrite app_nil_r in *.
    rewrite transfer_blocks_short in * by assumption.
    unfold response_Flush.
    assert (Hf : firstn 512 (buf r) = buf r)
      by (apply firstn_all2; unfold len in Hshort; lia).
    assert (Hc' : conn r = acking_network (block r)
                             [firstn 512 (buf r)] log)
      by (rewrite Hf; exact Hc).
    destruct (writeOneBlock_acking r [] log Hwf Hc')
      as (r1 & Hw & _ & _ & _ & _ & Hc1).
    rewrite Hw. cbn [run]. rewrite Hc1, Hf. reflexivity.
  - cbn [concat map app run] in *.
    set (data := buf r ++ p).
    set (n := Z.to_nat (len data / 512)).
    assert (Hsplit : transfer_blocks (buf r ++ p ++ concat ps)
                     = full_blocks n data
                       ++ transfer_blocks (skipn (512 * n) data ++ concat ps)).
    { rewrite app_assoc. apply transfer_blocks_split. reflexivity. }
    rewrite Hsplit in *.
    pose proof (response_Write_acking r p
                  (transfer_blocks (skipn (512 * n) data ++ concat ps))
                  log Hwf) as HW.
    cbn zeta in HW. rewrite Hna in HW. fold data n in HW.
    destruct (HW Hc) as (r1 & Hw & Hwf1 & Hna1 & Hb1 & Hbuf1 & Hc1).
    rewrite Hw. rewrite <- Hbuf1 in Hc1.
    rewrite (IH r1 (log ++ transmissions (block r)
                                (once (full_blocks n data))) Hwf1);
      [| congruence | | exact Hc1].
    + rewrite <- app_assoc. f_equal.
      rewrite once_app, transmissions_app, length_once, length_full_blocks.
      rewrite Hb1, Hbuf1. reflexivity.
    + rewrite Hbuf1. apply remainder_short.
Qed.

(** ** C8: block numbers *)

Lemma newResponse_ok (c : PacketConn) (mode : Mode) (r : response) :
  newResponse None (Ok c) mode = Ok r ->
  wellformed r /\ block r = 0 /\ buf r = [] /\ conn r = c /\
  netASCII r = bytes_eqb mode ModeNetASCII.
Proof.
  intros [= <-]. cbn [rb wb block buf conn netASCII].
  repeat split; try reflexivity; try lia.
  destruct (bytes_eqb mode ModeNetASCII); reflexivity.
Qed.

(** Whatever calls a handler makes and whatever the network answers, the
    datagrams of a session are consecutive blocks. *)
Lemma run_inv (cs : list call) (r : response) :
  wellformed r ->
  wellformed (run cs r) /\
  exists bl,
    wlog (conn (run cs r)) = wlog (conn r) ++ transmissions (block r) bl /\
    block (run cs r) = (block r + Z.of_nat (length bl)) mod 65536.
Proof.
  revert r. induction cs as [|c cs IH]; intros r Hwf.
  - cbn [run]. split; [exact Hwf|]. exists []. cbn.
    destruct Hwf as (_ & _ & Hblk).
    rewrite app_nil_r, Z.add_0_r, Z.mod_small by lia. split; reflexivity.
  - assert (Hstep : forall r1 bl1,
      wellformed r1 ->
      wlog (conn r1) = wlog (conn r) ++ transmissions (block r) bl1 ->
      block r1 = (block r + Z.of_nat (length bl1)) mod 65536 ->
      wellformed (run cs r1) /\
      exists bl,
        wlog (conn (run cs r1)) = wlog (conn r) ++ transmissions (block r) bl /\
        block (run cs r1) = (block r + Z.of_nat (length bl)) mod 65536).
    { intros r1 bl1 Hwf1 Hlog1 Hb1.
      destruct (IH r1 Hwf1) as (Hwf2 & bl2 & Hlog2 & Hb2).
      split; [exact Hwf2|]. exists (bl1 ++ bl2). split.
      - rewrite Hlog2, Hlog1, transmissions_app, <- app_assoc, Hb1.
        reflexivity.
      - rewrite Hb2, Hb1, Zplus_mod_idemp_l, length_app. f_equal. lia. }
    destruct c as [p|]; cbn [run].
    + destruct (response_Write r p) as [r1 res] eqn:E.
      destruct (response_Write_inv r r1 p res Hwf E)
        as (Hwf1 & _ & bl1 & Hlog1 & Hb1).
      destruct res as [n err|].
      * exact (Hstep r1 bl1 Hwf1 Hlog1 Hb1).
      * split; [exact Hwf1|]. exists bl1. split; assumption.
    + unfold response_Flush.
      destruct (writeOneBlock r) as [r1 o] eqn:E.
      pose proof Hwf as (Hrb & Hwb & Hblk).
      destruct (writeOneBlock_inv r r1 o Hwb E)
        as (W1 & W2 & W3 & W4 & W5 & k & Wk & _).
      assert (Hwf1 : wellformed r1).
      { repeat split; try congruence; rewrite W5; apply Z.mod_pos_bound; lia. }
      destruct o as [err|].
      * exact (Hstep r1 [(firstn 512 (buf r), k)] Hwf1 Wk W5).
      * split; [exact Hwf1|]. exists [(firstn 512 (buf r), k)].
        split; assumption.
Qed.

Lemma transfer_1024 (ps : list (list byte)) (r : response) :
  length (concat ps) = 1024%nat ->
  newResponse None (Ok three_acked_blocks) ModeOctet = Ok r ->
  wlog (conn (run (map CallWrite ps ++ [CallFlush]) r))
  = [ data_frame 1 (firstn 512 (concat ps));
      data_frame 2 (skipn 512 (concat ps));
      data_frame 3 [] ].
Proof.
  intros Hlen Hr.
  destruct (newResponse_ok _ _ _ Hr) as (Hwf & Hb & Hbuf & Hc & Hna).
  change (bytes_eqb ModeOctet ModeNetASCII) with false in Hna.
  set (data := concat ps) in *.
  assert (Hl : len data = 1024) by (unfold len; lia).
  assert (Htb : transfer_blocks data
                = [firstn 512 data; skipn 512 data; []]).
  { rewrite transfer_blocks_full by lia.
    assert (Hl2 : len (skipn 512 data) = 512)
      by (unfold len; rewrite length_skipn; lia).
    rewrite transfer_blocks_full by lia.
    rewrite transfer_blocks_short
      by (unfold len; rewrite !length_skipn; lia).
    rewrite (firstn_all2 (n := 512) (skipn 512 data))
      by (rewrite length_skipn; lia).
    rewrite (skipn_all2 (n := 512) (skipn 512 data))
      by (rewrite length_skipn; lia).
    reflexivity. }
  rewrite (run_acking ps r [] Hwf Hna).
  - rewrite Hbuf, Hb. cbn [app]. fold data. rewrite Htb. reflexivity.
  - rewrite Hbuf. reflexivity.
  - rewrite Hbuf, Hb, Hc. cbn [app]. fold data. rewrite Htb.
    unfold acking_network, three_acked_blocks. cbn [map acks].
    assert (Hf1 : len (firstn 512 data) = 512)
      by (unfold len; rewrite length_firstn; lia).
    assert (Hf2 : len (skipn 512 data) = 512)
      by (unfold len; rewrite length_skipn; lia).
    rewrite Hf1, Hf2. reflexivity.
Qed.

(** The scenario of a 600-byte read in octet mode: block 1 with 512 bytes,
    then block 2 with the 88 bytes left, and nothing else. *)
Lemma transfer_600 (ps : list (list byte)) (r : response) :
  length (concat ps) = 600%nat ->
  wellformed r -> netASCII r = false -> buf r = [] -> block r = 0 ->
  conn r = acking_network 0 (transfer_blocks (concat ps)) [] ->
  wlog (conn (run (map CallWrite ps ++ [CallFlush]) r))
  = [ data_frame 1 (firstn 512 (concat ps));
      data_frame 2 (skipn 512 (concat ps)) ] /\
  length (skipn 512 (concat ps)) = 88%nat.
Proof.
  intros Hlen Hwf Hna Hbuf Hb Hc.
  set (data := concat ps) in *.
  assert (Hl : len data = 600) by (unfold len; lia).
  assert (Htb : transfer_blocks data = [firstn 512 data; skipn 512 data]).
  { rewrite transfer_blocks_full by lia.
    rewrite transfer_blocks_short
      by (unfold len; rewrite length_skipn; lia).
    reflexivity. }
  split; [|rewrite length_skipn; lia].
  rewrite (run_acking ps r [] Hwf Hna).
  - rewrite Hbuf, Hb. cbn [app]. fold data. rewrite Htb. reflexivity.
  - rewrite Hbuf. reflexivity.
  - rewrite Hbuf, Hb. cbn [app]. exact Hc.
Qed.

(** C8.  A new session starts with block counter 0.  Each call of
    [writeOneBlock] increments the counter once (mod 65536) before it
    frames and sends, and every datagram of the call carries the new
    number.  Whatever calls of [Write] and [Flush] a handler makes and
    whatever the network answers, the datagrams of the session are, in
    order, those of consecutive blocks, each numbered one more (mod 65536)
    than the block before it, and a block number occurs again only on
    further copies of the same datagram.  In particular, in octet mode,
    when every block is acknowledged at once, writing 1024 bytes (in
    whatever pieces) and flushing sends block 1 and block 2 with 512 bytes
    each and then block 3 with no payload. *)
Theorem block_numbers_spec :
  (forall c mode r,
     newResponse None (Ok c) mode = Ok r -> wellformed r /\ block r = 0) /\
  (forall r r' o,
     wellformed r -> writeOneBlock r = (r', o) ->
     block r' = (block r + 1) mod 65536 /\
     exists k, wlog (conn r')
               = wlog (conn r)
                 ++ repeat (data_frame (block r') (firstn 512 (buf r))) k) /\
  (forall cs r,
     wellformed r ->
     exists bl,
       wlog (conn (run cs r)) = wlog (conn r) ++ transmissions (block r) bl /\
       block (run cs r) = (block r + Z.of_nat (length bl)) mod 65536) /\
  (forall ps r,
     length (concat ps) = 1024%nat ->
     newResponse None (Ok three_acked_blocks) ModeOctet = Ok r ->
     wlog (conn (run (map CallWrite ps ++ [CallFlush]) r))
     = [ data_frame 1 (firstn 512 (concat ps));
         data_frame 2 (skipn 512 (concat ps));
         data_frame 3 [] ]).
Proof.
  split; [|split; [|split]].
  - intros c mode r H.
    destruct (newResponse_ok c mode r H) as (Hwf & Hb & _). auto.
  - intros r r' o (_ & Hwb & _) H.
    destruct (writeOneBlock_inv r r' o Hwb H)
      as (_ & _ & _ & _ & W5 & k & Wk & _).
    split; [exact W5|]. exists k. rewrite Wk, W5. cbn [transmissions].
    rewrite app_nil_r. reflexivity.
  - intros cs r Hwf. exact (proj2 (run_inv cs r Hwf)).
  - exact transfer_1024.
Qed.

(** The four parts at sessions of the examples; the 1024 bytes are written
    in pieces of 700 and 324 bytes. *)
Lemma block_numbers_spec_witness :
  block octet_session = 0 /\
  block (fst (writeOneBlock stale_ack_session)) = 1 /\
  (exists bl,
     wlog (conn (run [CallWrite [x62]; CallFlush] stale_ack_session))
     = transmissions 0 bl) /\
  wlog (conn (run [CallWrite (repeat x61 700); CallWrite (repeat x62 324);
                   CallFlush] octet_session))
  = [ data_frame 1 (repeat x61 512);
      data_frame 2 (repeat x61 188 ++ repeat x62 324);
      data_frame 3 [] ].
Proof.
  destruct block_numbers_spec as (Hnew & Hone & Hrun & H1024).
  split; [|split; [|split]].
  - exact (proj2 (Hnew three_acked_blocks ModeOctet octet_session eq_refl)).
  - exact (proj1 (Hone stale_ack_session _ _ wellformed_stale_ack_session
                    (surjective_pairing _))).
  - destruct (Hrun [CallWrite [x62]; CallFlush] stale_ack_session
                wellformed_stale_ack_session) as (bl & Hbl & _).
    exists bl. exact Hbl.
  - exact (H1024 [repeat x61 700; repeat x62 324] octet_session
             eq_refl eq_refl).
Defined.

(* ================================================================== *)
(** * Part IV: further properties of the code *)
(* ================================================================== *)

(** ** [toNetASCII] *)

Lemma len_encode_byte (c : byte) :
  len (encode_byte c)
  = 1 + (if Byte.eqb c CR then 1 else 0) + (if Byte.eqb c LF then 1 else 0).
Proof.
  unfold encode_byte.
  destruct (byte_eqb_spec c LF) as [-> | Hlf]; [reflexivity|].
  destruct (Byte.eqb c CR); reflexivity.
Qed.

Lemma len_Encode (p : list byte) :
  len (Encode p)
  = len p + Z.of_nat (count_occ Byte.byte_eq_dec p CR)
    + Z.of_nat (count_occ Byte.byte_eq_dec p LF).
Proof.
  induction p as [|c p IH]; [reflexivity|].
  change (Encode (c :: p)) with (encode_byte c ++ Encode p).
  rewrite len_app, len_cons, IH, len_encode_byte. cbn [count_occ].
  destruct (byte_eqb_spec c CR) as [-> | Hcr].
  - change (Byte.eqb CR LF) with false.
    destruct (Byte.byte_eq_dec CR CR) as [_ | N]; [|contradiction].
    destruct (Byte.byte_eq_dec CR LF) as [E | _]; [discriminate E|]. lia.
  - destruct (Byte.byte_eq_dec c CR) as [E | _]; [contradiction|].
    destruct (byte_eqb_spec c LF) as [-> | Hlf].
    + destruct (Byte.byte_eq_dec LF LF) as [_ | N]; [|contradiction]. lia.
    + destruct (Byte.byte_eq_dec c LF) as [E | _]; [contradiction|]. lia.
Qed.

(** X1.  The output of [toNetASCII] has one byte more than the input for
    each CR and each LF of the input, and so at most twice its length. *)
Theorem toNetASCII_length (p : list byte) :
  len (toNetASCII p)
  = len p + Z.of_nat (count_occ Byte.byte_eq_dec p CR)
    + Z.of_nat (count_occ Byte.byte_eq_dec p LF) /\
  len (toNetASCII p) <= 2 * len p.
Proof.
  rewrite toNetASCII_Encode, len_Encode. split; [reflexivity|].
  assert (H : forall l : list byte,
             (count_occ Byte.byte_eq_dec l CR
              + count_occ Byte.byte_eq_dec l LF <= length l)%nat).
  { induction l as [|c l IH]; [simpl; lia|]. cbn [count_occ length].
    destruct (Byte.byte_eq_dec c CR) as [E1 | E1];
      destruct (Byte.byte_eq_dec c LF) as [E2 | E2]; try lia.
    rewrite E1 in E2. discriminate E2. }
  specialize (H p). unfold len. lia.
Qed.

Lemma Encode_inj (s t : list byte) : Encode s = Encode t -> s = t.
Proof.
  intros H.
  assert (Hs := fromNetASCII_loop_Encode s []).
  assert (Ht := fromNetASCII_loop_Encode t []).
  rewrite H in Hs. rewrite Hs in Ht. cbn [app] in Ht. congruence.
Qed.

(** X2.  [toNetASCII] is injective: two inputs with the same encoding are
    the same. *)
Theorem toNetASCII_injective (s t : list byte) :
  toNetASCII s = toNetASCII t -> s = t.
Proof.
  rewrite !toNetASCII_Encode. apply Encode_inj.
Qed.

Lemma toNetASCII_injective_witness :
  [x61; LF] = [x61; LF].
Proof.
  apply (toNetASCII_injective [x61; LF] [x61; LF]). reflexivity.
Defined.

Lemma canonical_Encode (s : list byte) : canonical (Encode s) = true.
Proof.
  induction s as [|c s IH]; [reflexivity|].
  change (Encode (c :: s)) with (encode_byte c ++ Encode s).
  unfold encode_byte.
  destruct (byte_eqb_spec c LF) as [-> | Hlf]; [exact IH|].
  destruct (byte_eqb_spec c CR) as [-> | Hcr]; [exact IH|].
  cbn [app canonical].
  destruct (byte_eqb_spec c CR); [contradiction|].
  destruct (byte_eqb_spec c LF); [contradiction|]. exact IH.
Qed.

(** In a well-formed string, what follows a CR and what precedes an LF. *)
Lemma canonical_pairs (n : nat) (l : list byte) :
  (length l <= n)%nat -> canonical l = true ->
  (forall a b, l = a ++ CR :: b ->
     exists x b', b = x :: b' /\ (x = LF \/ x = NUL)) /\
  (forall a b, l = a ++ LF :: b -> exists a', a = a' ++ [CR]).
Proof.
  revert l. induction n as [|n IH]; intros l Hn Hc.
  - destruct l; [|simpl in Hn; lia].
    split; intros a b E; destruct a; discriminate E.
  - destruct l as [|c t]; [split; intros a b E; destruct a; discriminate E|].
    simpl in Hn. cbn [canonical] in Hc.
    destruct (byte_eqb_spec c CR) as [-> | Hcr].
    + destruct t as [|x t']; [discriminate|].
      apply andb_true_iff in Hc. destruct Hc as [Hx Hc'].
      assert (Hx' : x = LF \/ x = NUL).
      { apply orb_true_iff in Hx.
        destruct Hx as [Hx | Hx]; apply byte_eqb_eq in Hx; auto. }
      simpl in Hn.
      destruct (IH t' ltac:(lia) Hc') as [IH1 IH2].
      split.
      * intros a b E. destruct a as [|a0 a].
        { injection E as <-. exists x, t'. auto. }
        injection E as <- E. destruct a as [|a1 a].
        { injection E as -> _. destruct Hx' as [Hx' | Hx']; discriminate Hx'. }
        injection E as <- E. exact (IH1 a b E).
      * intros a b E. destruct a as [|a0 a]; [discriminate E|].
        injection E as <- E. destruct a as [|a1 a].
        { exists []. reflexivity. }
        injection E as <- E. destruct (IH2 a b E) as [a' ->].
        exists (CR :: x :: a'). reflexivity.
    + apply andb_true_iff in Hc. destruct Hc as [Hlf Hc'].
      apply negb_true_iff, byte_eqb_neq in Hlf.
      destruct (IH t ltac:(lia) Hc') as [IH1 IH2].
      split.
      * intros a b E. destruct a as [|a0 a].
        { injection E as E _. contradiction. }
        injection E as <- E. exact (IH1 a b E).
      * intros a b E. destruct a as [|a0 a].
        { injection E as E _. contradiction. }
        injection E as <- E. destruct (IH2 a b E) as [a' ->].
        exists (c :: a'). reflexivity.
Qed.

(** X3.  The output of [toNetASCII] is well-formed netascii: each CR in it
    is followed by an LF or a NUL, and each LF in it comes right after a
    CR. *)
Theorem toNetASCII_wellformed (p : list byte) :
  (forall a b, toNetASCII p = a ++ CR :: b ->
     exists x b', b = x :: b' /\ (x = LF \/ x = NUL)) /\
  (forall a b, toNetASCII p = a ++ LF :: b -> exists a', a = a' ++ [CR]).
Proof.
  rewrite toNetASCII_Encode.
  apply (canonical_pairs (length (Encode p))); [lia|].
  apply canonical_Encode.
Qed.

Lemma toNetASCII_wellformed_witness :
  exists x b', [NUL; x62] = x :: b' /\ (x = LF \/ x = NUL).
Proof.
  exact (proj1 (toNetASCII_wellformed [x61; CR; x62]) [x61] [NUL; x62]
           eq_refl).
Defined.

(** ** [fromNetASCII] *)

(** The decoding loop adds to its output buffer what it would give from an
    empty one. *)
Lemma fromNetASCII_loop_out (n : nat) (l out : list byte) :
  (length l <= n)%nat ->
  exists s, fromNetASCII_loop l [] = Ok s /\
            fromNetASCII_loop l out = Ok (out ++ s) /\
            (length s <= length l)%nat.
Proof.
  revert l out. induction n as [|n IH]; intros l out Hn.
  - destruct l; [|simpl in Hn; lia].
    exists []. rewrite app_nil_r. cbn. auto.
  - assert (Hemit : forall e rest',
              (length rest' <= n)%nat ->
              exists s, fromNetASCII_loop rest' [e] = Ok (e :: s) /\
                        fromNetASCII_loop rest' (out ++ [e])
                        = Ok (out ++ e :: s) /\
                        (length s <= length rest')%nat).
    { intros e rest' Hr.
      destruct (IH rest' (out ++ [e]) Hr) as (s1 & H0 & H1 & Hl).
      destruct (IH rest' [e] Hr) as (s2 & H0' & H2 & _).
      assert (s2 = s1) by congruence. subst s2.
      exists s1. rewrite H2, H1, <- app_assoc. auto. }
    destruct l as [|b rest].
    { exists []. rewrite app_nil_r. cbn. auto. }
    simpl in Hn.
    destruct (byte_eqb_spec b CR) as [-> | Hb].
    + destruct rest as [|x rest'].
      * exists [CR]. cbn. auto.
      * simpl in Hn.
        destruct (byte_eqb_spec x LF) as [-> | Hlf].
        { rewrite !fromNetASCII_loop_CR_LF. cbn [app].
          destruct (Hemit LF rest' ltac:(lia)) as (s & H1 & H2 & Hl).
          exists (LF :: s). cbn [length]. repeat split; try assumption; lia. }
        destruct (byte_eqb_spec x NUL) as [-> | Hnul].
        { rewrite !fromNetASCII_loop_CR_NUL. cbn [app].
          destruct (Hemit CR rest' ltac:(lia)) as (s & H1 & H2 & Hl).
          exists (CR :: s). cbn [length]. repeat split; try assumption; lia. }
        rewrite !fromNetASCII_loop_CR_other by assumption.
        destruct (IH rest' out ltac:(lia)) as (s' & Hs0 & Hs' & Hl').
        exists s'. cbn [length]. repeat split; try assumption; lia.
    + rewrite !fromNetASCII_loop_other by assumption. cbn [app].
      destruct (Hemit b rest ltac:(lia)) as (s & H1 & H2 & Hl).
      exists (b :: s). cbn [length]. repeat split; try assumption; lia.
Qed.

(** X4.  [fromNetASCII] never returns more bytes than it is given, and it
    returns an input without CR as it is. *)
Theorem fromNetASCII_length (p : list byte) :
  (exists q, fromNetASCII p = Ok q /\ len q <= len p) /\
  (~ In CR p -> fromNetASCII p = Ok p).
Proof.
  split.
  - destruct (fromNetASCII_loop_out (length p) p [] (le_n _))
      as (s & Hs & _ & Hl).
    exists s. split; [exact Hs | unfold len; lia].
  - unfold fromNetASCII.
    assert (H : forall l out, ~ In CR l ->
                fromNetASCII_loop l out = Ok (out ++ l)).
    { induction l as [|c l IH]; intros out Hno.
      - cbn. rewrite app_nil_r. reflexivity.
      - rewrite fromNetASCII_loop_other
          by (intros ->; apply Hno; left; reflexivity).
        rewrite IH by (intros Hin; apply Hno; right; exact Hin).
        rewrite <- app_assoc. reflexivity. }
    intros Hno. exact (H p [] Hno).
Qed.

Lemma fromNetASCII_length_witness :
  fromNetASCII [x61; LF; NUL; x62] = Ok [x61; LF; NUL; x62].
Proof.
  apply (proj2 (fromNetASCII_length [x61; LF; NUL; x62])).
  simpl. intros H. repeat (destruct H as [H | H]; [discriminate H|]). exact H.
Defined.

(** On a well-formed string the decoding loop inverts the encoding. *)
Lemma canonical_decode (n : nat) (l out : list byte) :
  (length l <= n)%nat -> canonical l = true ->
  exists s, Encode s = l /\
            forall rest, fromNetASCII_loop (l ++ rest) out
                         = fromNetASCII_loop rest (out ++ s).
Proof.
  revert l out. induction n as [|n IH]; intros l out Hn Hc.
  - destruct l; [|simpl in Hn; lia].
    exists []. split; [reflexivity|]. intros rest. rewrite app_nil_r.
    reflexivity.
  - destruct l as [|c t].
    { exists []. split; [reflexivity|]. intros rest. rewrite app_nil_r.
      reflexivity. }
    simpl in Hn. cbn [canonical] in Hc.
    destruct (byte_eqb_spec c CR) as [-> | Hcr].
    + destruct t as [|x t']; [discriminate|].
      apply andb_true_iff in Hc. destruct Hc as [Hx Hc'].
      simpl in Hn. apply orb_true_iff in Hx.
      destruct Hx as [Hx | Hx]; apply byte_eqb_eq in Hx; subst x.
      * destruct (IH t' (out ++ [LF]) ltac:(lia) Hc') as (s & Hs & Hd).
        exists (LF :: s). split.
        { change (Encode (LF :: s)) with ([CR; LF] ++ Encode s).
          rewrite Hs. reflexivity. }
        intros rest. cbn [app]. rewrite fromNetASCII_loop_CR_LF, Hd.
        rewrite <- app_assoc. reflexivity.
      * destruct (IH t' (out ++ [CR]) ltac:(lia) Hc') as (s & Hs & Hd).
        exists (CR :: s). split.
        { change (Encode (CR :: s)) with ([CR; NUL] ++ Encode s).
          rewrite Hs. reflexivity. }
        intros rest. cbn [app]. rewrite fromNetASCII_loop_CR_NUL, Hd.
        rewrite <- app_assoc. reflexivity.
    + apply andb_true_iff in Hc. destruct Hc as [Hlf Hc'].
      apply negb_true_iff, byte_eqb_neq in Hlf.
      destruct (IH t (out ++ [c]) ltac:(lia) Hc') as (s & Hs & Hd).
      exists (c :: s). split.
      { change (Encode (c :: s)) with (encode_byte c ++ Encode s).
        unfold encode_byte.
        destruct (byte_eqb_spec c LF); [contradiction|].
        destruct (byte_eqb_spec c CR); [contradiction|].
        rewrite Hs. reflexivity. }
      intros rest. cbn [app]. rewrite fromNetASCII_loop_other by assumption.
      rewrite Hd, <- app_assoc. reflexivity.
Qed.

(** X5.  On well-formed netascii, encoding undoes decoding: [fromNetASCII]
    succeeds and [toNetASCII] of its result is the input again. *)
Theorem toNetASCII_fromNetASCII (l : list byte) :
  canonical l = true ->
  exists s, fromNetASCII l = Ok s /\ toNetASCII s = l.
Proof.
  intros Hc.
  destruct (canonical_decode (length l) l [] (le_n _) Hc) as (s & Hs & Hd).
  exists s. split.
  - unfold fromNetASCII. specialize (Hd []). rewrite app_nil_r in Hd.
    rewrite Hd. reflexivity.
  - rewrite toNetASCII_Encode. exact Hs.
Qed.

Lemma toNetASCII_fromNetASCII_witness :
  exists s, fromNetASCII [x61; CR; LF; CR; NUL] = Ok s /\
            toNetASCII s = [x61; CR; LF; CR; NUL].
Proof.
  exact (toNetASCII_fromNetASCII [x61; CR; LF; CR; NUL] eq_refl).
Defined.

(** X6.  After a well-formed prefix, [fromNetASCII] decodes the rest on its
    own: the decoding of [a ++ b] is the decoding of [a] followed by the
    decoding of [b]. *)
Theorem fromNetASCII_app (a b : list byte) :
  canonical a = true ->
  exists x y,
    fromNetASCII a = Ok x /\ fromNetASCII b = Ok y /\
    fromNetASCII (a ++ b) = Ok (x ++ y).
Proof.
  intros Hc.
  destruct (canonical_decode (length a) a [] (le_n _) Hc) as (s & Hs & Hd).
  destruct (fromNetASCII_loop_out (length b) b s (le_n _))
    as (y & Hy & Hy' & _).
  exists s, y. unfold fromNetASCII. repeat split.
  - specialize (Hd []). rewrite app_nil_r in Hd. rewrite Hd. reflexivity.
  - exact Hy.
  - rewrite Hd. exact Hy'.
Qed.

Lemma fromNetASCII_app_witness :
  exists x y,
    fromNetASCII [x61; CR; LF] = Ok x /\ fromNetASCII [CR; x62] = Ok y /\
    fromNetASCII ([x61; CR; LF] ++ [CR; x62]) = Ok (x ++ y).
Proof.
  exact (fromNetASCII_app [x61; CR; LF] [CR; x62] eq_refl).
Defined.

(** The decoding of a block that ends in the CR of a pair does not compose
    with the decoding of the next block. *)
Example fromNetASCII_split_pair :
  fromNetASCII [x61; CR] = Ok [x61; CR] /\
  fromNetASCII [LF; x62] = Ok [LF; x62] /\
  fromNetASCII ([x61; CR] ++ [LF; x62]) = Ok [x61; LF; x62].
Proof. repeat split. Qed.

(** *** The revision with [bytes.Replace] *)

Lemma Replace_from_pair (fuel : nat) (s : list byte) (a b : byte)
    (new : list byte) :
  (length s <= fuel)%nat ->
  bytes.Replace_from fuel s [a; b] new (-1) = replace_pair a b new s.
Proof.
  revert s. induction fuel as [|fuel IH]; intros s Hs.
  - destruct s; [reflexivity | simpl in Hs; lia].
  - destruct s as [|c1 t]; [reflexivity|].
    simpl in Hs. cbn [bytes.Replace_from].
    change (-1 =? 0) with false. change (-1 <? 0) with true. cbv iota.
    destruct t as [|c2 t'].
    + cbn [bytes.HasPrefix replace_pair].
      rewrite andb_false_r.
      rewrite IH by (simpl; lia). reflexivity.
    + cbn [bytes.HasPrefix replace_pair].
      replace (bytes.HasPrefix t' []) with true by (destruct t'; reflexivity).
      rewrite andb_true_r.
      destruct (Byte.eqb c1 a && Byte.eqb c2 b).
      * cbn [length skipn]. rewrite IH by (simpl in Hs; lia). reflexivity.
      * rewrite IH by lia. reflexivity.
Qed.

Lemma replace_pair_other (a b c : byte) (new t : list byte) :
  c <> a -> replace_pair a b new (c :: t) = c :: replace_pair a b new t.
Proof.
  intros Hc. cbn [replace_pair]. destruct t as [|c2 t']; [reflexivity|].
  destruct (byte_eqb_spec c a); [contradiction|]. reflexivity.
Qed.

Lemma replace_pair_hit (a b : byte) (new t : list byte) :
  replace_pair a b new (a :: b :: t) = new ++ replace_pair a b new t.
Proof.
  cbn [replace_pair].
  destruct (byte_eqb_spec a a); [|contradiction].
  destruct (byte_eqb_spec b b); [|contradiction]. reflexivity.
Qed.

Lemma replace_pair_miss (a b c : byte) (new t : list byte) :
  c <> b ->
  replace_pair a b new (a :: c :: t) = a :: replace_pair a b new (c :: t).
Proof.
  intros Hc. cbn [replace_pair].
  destruct (byte_eqb_spec c b); [contradiction|].
  rewrite andb_false_r. reflexivity.
Qed.

Lemma fromNetASCII_replace_Encode (s : list byte) :
  fromNetASCII_replace (Encode s) = s.
Proof.
  unfold fromNetASCII_replace, bytes.Replace. cbv zeta.
  rewrite (Replace_from_pair _ (Encode s)) by lia.
  (* the first pass leaves CR NUL for a CR, and the byte for any other *)
  assert (H1 : forall t,
            replace_pair CR LF [LF] (Encode t)
            = flat_map (fun c => if Byte.eqb c CR then [CR; NUL] else [c]) t).
  { induction t as [|c t IH]; [reflexivity|].
    change (Encode (c :: t)) with (encode_byte c ++ Encode t).
    unfold encode_byte. cbn [flat_map].
    destruct (byte_eqb_spec c LF) as [-> | Hlf].
    - cbn [app]. rewrite replace_pair_hit, IH. reflexivity.
    - destruct (byte_eqb_spec c CR) as [-> | Hcr].
      + cbn [app]. rewrite replace_pair_miss by discriminate.
        rewrite replace_pair_other by discriminate. rewrite IH. reflexivity.
      + cbn [app]. rewrite replace_pair_other by assumption.
        rewrite IH. reflexivity. }
  rewrite H1.
  rewrite Replace_from_pair by lia.
  induction s as [|c s IH]; [reflexivity|].
  cbn [flat_map].
  destruct (byte_eqb_spec c CR) as [-> | Hcr].
  - cbn [app]. rewrite replace_pair_hit, IH. reflexivity.
  - cbn [app]. rewrite replace_pair_other by assumption.
    rewrite IH. reflexivity.
Qed.

(** X7.  The earlier revision of the decoder undoes the encoder of
    [netASCIIResponseWriter.Write], and the scan [toNetASCII], on every
    input. *)
Theorem fromNetASCII_replace_roundtrip (s : list byte) :
  fromNetASCII_replace (netASCII_replace s) = s /\
  fromNetASCII_replace (toNetASCII s) = s.
Proof.
  rewrite netASCII_replace_Encode, toNetASCII_Encode.
  split; apply fromNetASCII_replace_Encode.
Qed.

(** X8.  On well-formed netascii the two revisions of the decoder give the
    same bytes. *)
Theorem fromNetASCII_revisions_agree (l : list byte) :
  canonical l = true -> fromNetASCII l = Ok (fromNetASCII_replace l).
Proof.
  intros Hc.
  destruct (canonical_decode (length l) l [] (le_n _) Hc) as (s & Hs & Hd).
  unfold fromNetASCII. specialize (Hd []). rewrite app_nil_r in Hd.
  rewrite Hd. cbn [fromNetASCII_loop app].
  rewrite <- Hs, fromNetASCII_replace_Encode. reflexivity.
Qed.

Lemma fromNetASCII_revisions_agree_witness :
  fromNetASCII [x61; CR; LF; CR; NUL; NUL]
  = Ok (fromNetASCII_replace [x61; CR; LF; CR; NUL; NUL]).
Proof.
  exact (fromNetASCII_revisions_agree [x61; CR; LF; CR; NUL; NUL] eq_refl).
Defined.

(** ** The packet codec *)

Section RequestFrames.

Variable mapUnicodeLower : list byte -> list byte.

(** A datagram that passes the rules is parsed to its fields. *)
Lemma parseRequestPacket_valid (b : list byte) (i j : Z) :
  valid_request (strings.ToLower mapUnicodeLower) b i j ->
  parseRequestPacket mapUnicodeLower b
  = Ok (request_of (strings.ToLower mapUnicodeLower) b i j).
Proof.
  intros V. pose proof (parseRequestPacket_cases mapUnicodeLower b) as H.
  destruct (parseRequestPacket mapUnicodeLower b) as [q | e].
  - destruct H as (i' & j' & V' & ->).
    assert (i' = i) as ->
      by exact (first_at_unique _ _ _ _ _ (vr_filename V') (vr_filename V)).
    assert (j' = j) as ->
      by exact (first_at_unique _ _ _ _ _ (vr_mode V') (vr_mode V)).
    reflexivity.
  - destruct H as [_ Hno]. exfalso. exact (Hno i j V).
Qed.

Lemma index_app_l (b e : list byte) (k : Z) :
  0 <= k < len b -> index (b ++ e) k = index b k.
Proof.
  intros Hk. unfold index. apply app_nth1. unfold len in Hk. lia.
Qed.

Lemma index_app_r (b e : list byte) (k : Z) :
  len b <= k -> index (b ++ e) k = index e (k - len b).
Proof.
  intros Hk. unfold index. rewrite app_nth2 by (unfold len in Hk; lia).
  f_equal. unfold len. lia.
Qed.

Lemma slice_app_l (b e : list byte) (lo hi : Z) :
  0 <= lo -> hi <= len b -> slice (b ++ e) lo hi = slice b lo hi.
Proof.
  intros Hlo Hhi. unfold slice.
  rewrite skipn_app, firstn_app, length_skipn.
  replace (Z.to_nat (hi - lo) - (length b - Z.to_nat lo))%nat with O
    by (unfold len in Hhi; lia).
  rewrite firstn_O, app_nil_r. reflexivity.
Qed.

Lemma first_at_app (b e : list byte) (c : byte) (from i : Z) :
  0 <= from -> first_at b c from i -> first_at (b ++ e) c from i.
Proof.
  intros Hf (Hr & Hc & Hmin). pose proof (len_nonneg e).
  repeat split.
  - lia.
  - rewrite len_app. lia.
  - rewrite index_app_l by lia. exact Hc.
  - intros k Hk. rewrite index_app_l by lia. apply Hmin. exact Hk.
Qed.

(** X9.  Bytes after the mode's NUL do not matter: if a datagram is
    accepted, so is the datagram with any further bytes ending in NUL
    appended (such as RFC 2347 options), with the same opcode, filename and
    mode. *)
Theorem parseRequestPacket_trailing (b e : list byte) (p : requestPacket) :
  parseRequestPacket mapUnicodeLower b = Ok p ->
  parseRequestPacket mapUnicodeLower (b ++ e ++ [NUL]) = Ok p.
Proof.
  intros Hp. pose proof (parseRequestPacket_cases mapUnicodeLower b) as H.
  rewrite Hp in H. destruct H as (i & j & V & ->).
  pose proof (vr_filename V) as F1. pose proof (vr_mode V) as F2.
  pose proof F1 as (R1 & _). pose proof F2 as (R2 & _).
  rewrite (parseRequestPacket_valid (b ++ e ++ [NUL]) i j).
  - unfold request_of.
    rewrite !index_app_l by (pose proof (vr_length V); lia).
    rewrite !slice_app_l by lia. reflexivity.
  - pose proof (vr_length V) as HL.
    constructor.
    + rewrite len_app. pose proof (len_nonneg (e ++ [NUL])). lia.
    + rewrite !index_app_l by lia. exact (vr_opcode V).
    + apply first_at_app; [lia | exact F1].
    + apply first_at_app; [lia | exact F2].
    + rewrite slice_app_l by lia. exact (vr_token V).
    + rewrite app_assoc, len_app. change (len [NUL]) with 1.
      rewrite index_app_r by lia.
      replace (len (b ++ e) + 1 - 1 - len (b ++ e)) with 0 by lia.
      reflexivity.
Qed.

End RequestFrames.

Lemma parseRequestPacket_trailing_witness :
  parseRequestPacket (fun s => s)
    ([x00; x01; x61; x00; x6f; x63; x74; x65; x74; x00]
     ++ [x62; x6c; x6b; x73; x69; x7a; x65; x00; x38] ++ [NUL])
  = Ok {| rp_Opcode := OpcodeRead; rp_Filename := [x61];
          rp_Mode := ModeOctet |}.
Proof.
  apply (parseRequestPacket_trailing (fun s => s)
           [x00; x01; x61; x00; x6f; x63; x74; x65; x74; x00]).
  reflexivity.
Defined.

Lemma byte_of_Z_to_Z (c : byte) : byte_of_Z (byte_to_Z c) = c.
Proof.
  unfold byte_of_Z. pose proof (byte_to_Z_range c).
  rewrite Z.mod_small by lia. unfold byte_to_Z.
  rewrite N2Z.id, Byte.of_to_N. reflexivity.
Qed.

Lemma be16_bytes (hi lo : byte) :
  byte_of_Z (be16 hi lo / 256) = hi /\ byte_of_Z (be16 hi lo mod 256) = lo.
Proof.
  unfold be16. pose proof (byte_to_Z_range hi). pose proof (byte_to_Z_range lo).
  assert (Hd : (256 * byte_to_Z hi + byte_to_Z lo) / 256 = byte_to_Z hi)
    by (symmetry; apply (Z.div_unique _ 256 _ (byte_to_Z lo)); lia).
  assert (Hm : (256 * byte_to_Z hi + byte_to_Z lo) mod 256 = byte_to_Z lo)
    by (symmetry; apply (Z.mod_unique _ 256 (byte_to_Z hi)); lia).
  rewrite Hd, Hm, !byte_of_Z_to_Z. auto.
Qed.

Lemma be16_of_Z (v : Z) :
  0 <= v < 65536 -> be16 (byte_of_Z (v / 256)) (byte_of_Z (v mod 256)) = v.
Proof.
  intros Hv. unfold be16. rewrite !byte_to_Z_of_Z.
  - symmetry. apply Z.div_mod. lia.
  - apply Z.mod_pos_bound. lia.
  - split; [apply Z.div_pos; lia | apply Z.div_lt_upper_bound; lia].
Qed.

Lemma index_no_occurrence (l : list byte) (c : byte) (k : Z) :
  ~ In c l -> 0 <= k < len l -> index l k <> c.
Proof.
  intros Hno Hk E. apply Hno. rewrite <- E. unfold index.
  apply nth_In. unfold len in Hk. lia.
Qed.

Lemma In_slice (b : list byte) (c : byte) (lo hi : Z) :
  0 <= lo -> In c (slice b lo hi) ->
  exists k, lo <= k < hi /\ k < len b /\ index b k = c.
Proof.
  intros Hlo Hin. unfold slice in Hin.
  destruct (In_nth _ _ NUL Hin) as (n & Hn & E).
  rewrite length_firstn, length_skipn in Hn.
  rewrite nth_firstn in E.
  destruct (Nat.ltb_spec n (Z.to_nat (hi - lo))) as [Hlt | Hge]; [|lia].
  rewrite nth_skipn in E.
  exists (lo + Z.of_nat n). unfold len, index. repeat split; try lia.
  rewrite <- E. f_equal. lia.
Qed.

Lemma len_slice (b : list byte) (lo hi : Z) :
  0 <= lo <= hi -> hi <= len b -> len (slice b lo hi) = hi - lo.
Proof.
  intros H1 H2. unfold len, slice in *.
  rewrite length_firstn, length_skipn. lia.
Qed.

Section RequestContract.

Variable mapUnicodeLower : list byte -> list byte.

(** What holds of the fields of an accepted request packet. *)
Lemma parseRequestPacket_fields (b : list byte) (p : requestPacket) :
  parseRequestPacket mapUnicodeLower b = Ok p ->
  (rp_Opcode p = OpcodeRead \/ rp_Opcode p = OpcodeWrite) /\
  ~ In NUL (rp_Filename p) /\
  (rp_Mode p = ModeNetASCII \/ rp_Mode p = ModeOctet) /\
  len (rp_Filename p) + 4 <= len b.
Proof.
  intros Hp. pose proof (parseRequestPacket_cases mapUnicodeLower b) as H.
  rewrite Hp in H. destruct H as (i & j & V & ->).
  pose proof (vr_filename V) as (R1 & C1 & M1).
  pose proof (vr_mode V) as (R2 & C2 & M2).
  unfold request_of. cbn [rp_Opcode rp_Filename rp_Mode].
  split; [exact (vr_opcode V)|]. split; [|split; [exact (vr_token V)|]].
  - intros Hin. destruct (In_slice b NUL 2 i ltac:(lia) Hin)
      as (k & Hk & _ & E).
    exact (M1 k Hk E).
  - rewrite len_slice by lia. lia.
Qed.

(** X10.  [parseRequest] accepts exactly the datagrams
    [parseRequestPacket] accepts and passes its error on.  In an accepted
    request the opcode is Read or Write, the filename holds no NUL byte,
    the mode is "netascii" or "octet", [Length] is the length of the
    datagram, at least four more than the filename's, and [RemoteAddr] is
    the text of the sender's address. *)
Theorem parseRequest_contract (b addr : list byte) :
  (forall e, parseRequest mapUnicodeLower b addr = Err e <->
             parseRequestPacket mapUnicodeLower b = Err e) /\
  (forall r, parseRequest mapUnicodeLower b addr = Ok r ->
     parseRequestPacket mapUnicodeLower b
     = Ok {| rp_Opcode := rq_Opcode r; rp_Filename := rq_Filename r;
             rp_Mode := rq_Mode r |} /\
     (rq_Opcode r = OpcodeRead \/ rq_Opcode r = OpcodeWrite) /\
     ~ In NUL (rq_Filename r) /\
     (rq_Mode r = ModeNetASCII \/ rq_Mode r = ModeOctet) /\
     rq_Length r = len b /\
     len (rq_Filename r) + 4 <= rq_Length r /\
     rq_RemoteAddr r = addr).
Proof.
  unfold parseRequest.
  destruct (parseRequestPacket mapUnicodeLower b) as [p | e0] eqn:Hp.
  - split.
    + intros e. split; discriminate.
    + intros r [= <-]. cbn.
      destruct (parseRequestPacket_fields b p Hp) as (H1 & H2 & H3 & H4).
      destruct p. cbn in *. repeat split; assumption.
  - split.
    + intros e. split; intros [= <-]; reflexivity.
    + intros r H. discriminate H.
Qed.

Lemma len_request_frame (op : Z) (filename token : list byte) :
  len (request_frame op filename token) = len filename + len token + 4.
Proof.
  unfold request_frame.
  rewrite !len_app. change (len [NUL]) with 1.
  change (len [byte_of_Z (op / 256); byte_of_Z (op mod 256)]) with 2. lia.
Qed.

Lemma index_request_frame (op : Z) (filename token : list byte) (k : Z) :
  0 <= k ->
  index (request_frame op filename token) (2 + k)
  = index (filename ++ [NUL] ++ token ++ [NUL]) k.
Proof.
  intros Hk. unfold request_frame, index.
  replace (Z.to_nat (2 + k)) with (S (S (Z.to_nat k))) by lia. reflexivity.
Qed.

Lemma slice_request_frame (op : Z) (filename token : list byte) (lo hi : Z) :
  0 <= lo ->
  slice (request_frame op filename token) (2 + lo) (2 + hi)
  = slice (filename ++ [NUL] ++ token ++ [NUL]) lo hi.
Proof.
  intros Hlo. unfold request_frame, slice.
  replace (Z.to_nat (2 + lo)) with (S (S (Z.to_nat lo))) by lia.
  replace (2 + hi - (2 + lo)) with (hi - lo) by lia. reflexivity.
Qed.

Lemma opcode_request_frame (op : Z) (filename token : list byte) :
  0 <= op < 65536 ->
  be16 (index (request_frame op filename token) 0)
       (index (request_frame op filename token) 1) = op.
Proof.
  intros Hop. unfold request_frame, index.
  change (Z.to_nat 0) with O. change (Z.to_nat 1) with 1%nat.
  cbn [app nth]. apply be16_of_Z. exact Hop.
Qed.

Lemma slice_prefix (a c : list byte) : slice (a ++ c) 0 (len a) = a.
Proof.
  unfold slice. rewrite Z.sub_0_r. change (Z.to_nat 0) with O.
  cbn [skipn]. unfold len. rewrite Nat2Z.id.
  rewrite firstn_app, Nat.sub_diag, firstn_all, firstn_O, app_nil_r.
  reflexivity.
Qed.

Lemma slice_shift (a c : list byte) (lo hi : Z) :
  0 <= lo ->
  slice (a ++ c) (len a + lo) (len a + hi) = slice c lo hi.
Proof.
  intros Hlo. unfold slice, len.
  replace (Z.of_nat (length a) + hi - (Z.of_nat (length a) + lo))
    with (hi - lo) by lia.
  replace (Z.to_nat (Z.of_nat (length a) + lo))
    with (Z.to_nat lo + length a)%nat by lia.
  rewrite <- skipn_skipn, skipn_app, Nat.sub_diag, skipn_all. reflexivity.
Qed.

(** X11.  A datagram of the request format (a two-byte opcode Read or
    Write, a filename without NUL, NUL, a mode text without NUL that
    lowercases to "netascii" or "octet", NUL) is parsed to exactly these
    fields, the mode lowercased. *)
Theorem parseRequestPacket_frame (op : Z) (filename token : list byte) :
  op = OpcodeRead \/ op = OpcodeWrite ->
  ~ In NUL filename -> ~ In NUL token ->
  strings.ToLower mapUnicodeLower token = ModeNetASCII \/
  strings.ToLower mapUnicodeLower token = ModeOctet ->
  parseRequestPacket mapUnicodeLower (request_frame op filename token)
  = Ok {| rp_Opcode := op; rp_Filename := filename;
          rp_Mode := strings.ToLower mapUnicodeLower token |}.
Proof.
  intros Hop Hfn Htk Hmode.
  set (b := request_frame op filename token).
  set (i := 2 + len filename). set (j := i + 1 + len token).
  pose proof (len_nonneg filename) as Lf. pose proof (len_nonneg token) as Lt.
  assert (Lb : len b = len filename + len token + 4)
    by apply len_request_frame.
  assert (Hidx : forall k, 0 <= k ->
            index b (2 + k) = index (filename ++ [NUL] ++ token ++ [NUL]) k)
    by (intros k Hk; apply index_request_frame; exact Hk).
  assert (Hi : index b i = NUL).
  { unfold i. rewrite Hidx by lia. rewrite index_app_r by lia.
    rewrite Z.sub_diag. reflexivity. }
  assert (Hj : index b j = NUL).
  { unfold j, i. replace (2 + len filename + 1 + len token)
      with (2 + (len filename + (1 + len token))) by lia.
    rewrite Hidx by lia. rewrite index_app_r by lia.
    replace (len filename + (1 + len token) - len filename)
      with (1 + len token) by lia.
    change ([NUL] ++ token ++ [NUL]) with (NUL :: (token ++ [NUL])).
    rewrite Z.add_comm, index_cons_succ by lia.
    rewrite index_app_r by lia. rewrite Z.sub_diag. reflexivity. }
  assert (Sf : slice b 2 i = filename).
  { unfold i, b. replace 2 with (2 + 0) at 1 by lia.
    rewrite slice_request_frame by lia. apply slice_prefix. }
  assert (St : slice b (i + 1) j = token).
  { unfold j, i, b.
    replace (2 + len filename + 1) with (2 + (len filename + 1)) by lia.
    replace (2 + (len filename + 1) + 1 + len token)
      with (2 + (len filename + (1 + (1 + len token)))) by lia.
    replace (2 + (len filename + 1) + len token)
      with (2 + (len filename + (1 + len token))) by lia.
    rewrite slice_request_frame by lia.
    rewrite slice_shift by lia.
    change ([NUL] ++ token ++ [NUL]) with ([NUL] ++ (token ++ [NUL])).
    change 1 with (len [NUL]) at 1 2.
    replace (len [NUL]) with (len [NUL] + 0) at 1 by lia.
    rewrite slice_shift by lia. apply slice_prefix. }
  assert (V : valid_request (strings.ToLower mapUnicodeLower) b i j).
  { constructor.
    - lia.
    - unfold b. rewrite opcode_request_frame
        by (unfold OpcodeRead, OpcodeWrite in Hop; lia).
      exact Hop.
    - repeat split; try (unfold i; lia); [exact Hi|].
      intros k Hk. replace k with (2 + (k - 2)) by lia.
      rewrite Hidx by lia. rewrite index_app_l by (unfold i in Hk; lia).
      apply index_no_occurrence; [exact Hfn | unfold i in Hk; lia].
    - repeat split; try (unfold j, i; lia); [exact Hj|].
      intros k Hk. unfold j, i in Hk.
      replace k with (2 + (len filename + (1 + (k - len filename - 3))))
        by lia.
      rewrite Hidx by lia. rewrite index_app_r by lia.
      replace (len filename + (1 + (k - len filename - 3)) - len filename)
        with (1 + (k - len filename - 3)) by lia.
      change ([NUL] ++ token ++ [NUL]) with (NUL :: (token ++ [NUL])).
      rewrite Z.add_comm, index_cons_succ by lia.
      rewrite index_app_l by lia.
      apply index_no_occurrence; [exact Htk | lia].
    - rewrite St. exact Hmode.
    - rewrite Lb.
      replace (len filename + len token + 4 - 1) with j by (unfold j, i; lia).
      exact Hj. }
  rewrite (parseRequestPacket_valid mapUnicodeLower b i j V).
  unfold request_of. rewrite Sf, St. unfold b.
  rewrite opcode_request_frame
    by (unfold OpcodeRead, OpcodeWrite in Hop; lia).
  reflexivity.
Qed.

End RequestContract.

Lemma parseRequestPacket_frame_witness :
  parseRequestPacket (fun s => s)
    (request_frame 2 [x62; x2e; x74; x78; x74] [x4f; x63; x54; x65; x54])
  = Ok {| rp_Opcode := 2; rp_Filename := [x62; x2e; x74; x78; x74];
          rp_Mode := ModeOctet |}.
Proof.
  apply (parseRequestPacket_frame (fun s => s) 2
           [x62; x2e; x74; x78; x74] [x4f; x63; x54; x65; x54]).
  - right; reflexivity.
  - simpl. intros H. repeat (destruct H as [H | H]; [discriminate H|]).
    exact H.
  - simpl. intros H. repeat (destruct H as [H | H]; [discriminate H|]).
    exact H.
  - right; reflexivity.
Defined.

Lemma parseRequest_contract_witness :
  rq_Length {| rq_Opcode := 1; rq_Filename := [x61]; rq_Mode := ModeOctet;
               rq_Length := 10; rq_RemoteAddr := [x3a; x36; x39] |}
  = len [x00; x01; x61; x00; x6f; x63; x74; x65; x74; x00].
Proof.
  exact (proj1 (proj2 (proj2 (proj2 (proj2
           (proj2 (parseRequest_contract (fun s => s)
                     [x00; x01; x61; x00; x6f; x63; x74; x65; x74; x00]
                     [x3a; x36; x39])
              {| rq_Opcode := 1; rq_Filename := [x61];
                 rq_Mode := ModeOctet; rq_Length := 10;
                 rq_RemoteAddr := [x3a; x36; x39] |} eq_refl)))))).
Defined.

(** *** ACK and ERROR datagrams *)

Lemma parseACKPacket_error_frame (code : Z) (msg : list byte) :
  0 <= code < 65536 ->
  parseACKPacket (error_frame code msg)
  = Err (ErrorPacketError {| ep_Opcode := 5; ep_ErrorCode := code;
                             ep_ErrorMsg := msg |}).
Proof.
  intros Hc.
  set (b := error_frame code msg).
  pose proof (len_nonneg msg) as Lm.
  assert (Lb : len b = len msg + 5).
  { unfold b, error_frame. rewrite !len_app. change (len [NUL]) with 1.
    change (len [x00; x05; byte_of_Z (code / 256); byte_of_Z (code mod 256)])
      with 4. lia. }
  assert (Hop : be16 (index b 0) (index b 1) = 5) by reflexivity.
  assert (Hn : be16 (index b 2) (index b 3) = code).
  { unfold b, error_frame, index.
    change (Z.to_nat 2) with 2%nat. change (Z.to_nat 3) with 3%nat.
    cbn [app nth]. apply be16_of_Z. exact Hc. }
  assert (Hfin : index b (len b - 1) = NUL).
  { unfold b, error_frame. rewrite app_assoc, len_app.
    change (len [NUL]) with 1. rewrite index_app_r by lia.
    match goal with |- index _ ?k = _ => replace k with 0 by lia end.
    reflexivity. }
  assert (Hmsg : slice b 4 (len b - 1) = msg).
  { rewrite Lb. unfold b, error_frame.
    change 4 with
      (len [x00; x05; byte_of_Z (code / 256); byte_of_Z (code mod 256)] + 0)
      at 1.
    replace (len msg + 5 - 1) with
      (len [x00; x05; byte_of_Z (code / 256); byte_of_Z (code mod 256)]
       + len msg)
      by (change (len [x00; x05; byte_of_Z (code / 256);
                       byte_of_Z (code mod 256)]) with 4; lia).
    rewrite slice_shift by lia. apply slice_prefix. }
  unfold parseACKPacket. fold b.
  destruct (Z.ltb_spec (len b) 4); [lia|].
  replace (binary.Uint16 (slice b 0 2)) with 5
    by (rewrite <- Hop; symmetry; apply (Uint16_slice b 0); lia).
  replace (binary.Uint16 (slice b 2 4)) with code
    by (rewrite <- Hn; symmetry; apply (Uint16_slice b 2); lia).
  destruct (Z.eqb_spec (len b) 4); [lia|]. cbn [andb].
  change (5 =? OpcodeError) with true. cbn [negb].
  destruct (Z.ltb_spec (len b) 5); [lia|].
  rewrite Hfin. change (Byte.eqb NUL NUL) with true. cbn [negb].
  rewrite Hmsg. reflexivity.
Qed.

(** X12.  The reply datagrams are parsed to their fields: the ACK datagram
    of a block number gives that block number, and the ERROR datagram of a
    code and a message gives that code and that message, whatever bytes the
    message holds (NUL bytes included). *)
Theorem parseACKPacket_frames :
  (forall blk, 0 <= blk < 65536 ->
     parseACKPacket (ack_frame blk)
     = Ok {| ack_Opcode := 4; ack_Block := blk |}) /\
  (forall code msg, 0 <= code < 65536 ->
     parseACKPacket (error_frame code msg)
     = Err (ErrorPacketError {| ep_Opcode := 5; ep_ErrorCode := code;
                                ep_ErrorMsg := msg |})).
Proof.
  split.
  - intros blk Hb. rewrite <- (parseACKPacket_ack_frame blk Hb).
    reflexivity.
  - exact parseACKPacket_error_frame.
Qed.

Lemma parseACKPacket_frames_witness :
  parseACKPacket (ack_frame 65535)
  = Ok {| ack_Opcode := 4; ack_Block := 65535 |} /\
  parseACKPacket (error_frame 2 [x6e; NUL; x6f])
  = Err (ErrorPacketError {| ep_Opcode := 5; ep_ErrorCode := 2;
                             ep_ErrorMsg := [x6e; NUL; x6f] |}).
Proof.
  split.
  - apply (proj1 parseACKPacket_frames 65535). lia.
  - apply (proj2 parseACKPacket_frames 2 [x6e; NUL; x6f]). lia.
Defined.

Lemma slice_as_list (b : list byte) (lo : Z) :
  0 <= lo <= len b ->
  b = slice b 0 lo ++ slice_from b lo.
Proof.
  intros H. unfold slice, slice_from. rewrite Z.sub_0_r.
  change (Z.to_nat 0) with O. cbn [skipn].
  symmetry. apply firstn_skipn.
Qed.

Lemma slice_last (t : list byte) :
  len t >= 1 -> index t (len t - 1) = NUL ->
  t = slice t 0 (len t - 1) ++ [NUL].
Proof.
  intros Ht Hfin. unfold slice, index, len in *.
  rewrite Z.sub_0_r. change (Z.to_nat 0) with O. cbn [skipn].
  replace (Z.to_nat (Z.of_nat (length t) - 1)) with (length t - 1)%nat in *
    by lia.
  rewrite <- (firstn_skipn (length t - 1) t) at 1. f_equal.
  assert (Hl : length (skipn (length t - 1) t) = 1%nat)
    by (rewrite length_skipn; lia).
  destruct (skipn (length t - 1) t) as [|z [|z' u]] eqn:E;
    try (simpl in Hl; lia).
  f_equal. rewrite <- Hfin.
  rewrite <- (firstn_skipn (length t - 1) t) at 2.
  rewrite app_nth2; rewrite length_firstn; [|lia].
  replace (length t - 1 - Nat.min (length t - 1) (length t))%nat with O
    by lia.
  rewrite E. reflexivity.
Qed.

(** X13.  What [parseACKPacket] gives back determines the datagram: an
    [ackPacket] comes only from the four-byte ACK datagram of its block
    number, which is a [uint16], and an [ErrorPacket] only from the ERROR
    datagram of its code and message. *)
Theorem parseACKPacket_inverse (b : list byte) :
  (forall ack, parseACKPacket b = Ok ack ->
     ack_Opcode ack = 4 /\ 0 <= ack_Block ack < 65536 /\
     b = ack_frame (ack_Block ack)) /\
  (forall e, parseACKPacket b = Err (ErrorPacketError e) ->
     ep_Opcode e = 5 /\ 0 <= ep_ErrorCode e < 65536 /\
     b = error_frame (ep_ErrorCode e) (ep_ErrorMsg e)).
Proof.
  unfold parseACKPacket.
  destruct (Z.ltb_spec (len b) 4) as [Hlt | Hge].
  { split; intros x H; discriminate H. }
  destruct b as [|b0 [|b1 [|b2 [|b3 t]]]];
    try (unfold len in Hge; simpl in Hge; lia).
  change (slice (b0 :: b1 :: b2 :: b3 :: t) 0 2) with [b0; b1].
  change (slice (b0 :: b1 :: b2 :: b3 :: t) 2 4) with [b2; b3].
  rewrite !Uint16_pair.
  change (b0 :: b1 :: b2 :: b3 :: t) with ([b0; b1; b2; b3] ++ t).
  assert (HL : len ([b0; b1; b2; b3] ++ t) = 4 + len t)
    by (rewrite len_app; reflexivity).
  pose proof (len_nonneg t) as Lt.
  assert (Hmsg : 1 <= len t ->
            slice ([b0; b1; b2; b3] ++ t) 4 (len ([b0; b1; b2; b3] ++ t) - 1)
            = slice t 0 (len t - 1)).
  { intros Ht. rewrite HL.
    replace (4 + len t - 1) with (len [b0; b1; b2; b3] + (len t - 1))
      by (change (len [b0; b1; b2; b3]) with 4; lia).
    change 4 with (len [b0; b1; b2; b3] + 0) at 1.
    apply slice_shift. lia. }
  assert (Hidx : 1 <= len t ->
            index ([b0; b1; b2; b3] ++ t) (len ([b0; b1; b2; b3] ++ t) - 1)
            = index t (len t - 1)).
  { intros Ht. rewrite HL. rewrite index_app_r
      by (change (len [b0; b1; b2; b3]) with 4; lia).
    f_equal. change (len [b0; b1; b2; b3]) with 4. lia. }
  remember (slice ([b0; b1; b2; b3] ++ t) 4
              (len ([b0; b1; b2; b3] ++ t) - 1)) as msg eqn:Emsg.
  remember (index ([b0; b1; b2; b3] ++ t)
              (len ([b0; b1; b2; b3] ++ t) - 1)) as fin eqn:Efin.
  remember (len ([b0; b1; b2; b3] ++ t)) as L eqn:EL.
  pose proof (be16_range b2 b3) as R23.
  destruct (be16_bytes b0 b1) as [H0 H1].
  destruct (be16_bytes b2 b3) as [H2 H3].
  split.
  - intros ack H.
    destruct (Z.eqb_spec L 4) as [L4 | L4];
      destruct (Z.eqb_spec (be16 b0 b1) opcodeACK) as [O4 | O4];
      cbn [andb] in H.
    2-4: destruct (negb (be16 b0 b1 =? OpcodeError)); [discriminate H|];
         destruct (L <? 5); [discriminate H|];
         destruct (negb _); discriminate H.
    injection H as <-. cbn [ack_Opcode ack_Block].
    split; [exact O4|]. split; [exact R23|].
    destruct t; [|rewrite len_cons in HL; pose proof (len_nonneg t); lia].
    unfold ack_frame. rewrite H2, H3.
    rewrite O4 in H0, H1.
    change (byte_of_Z (opcodeACK / 256)) with x00 in H0.
    change (byte_of_Z (opcodeACK mod 256)) with x04 in H1.
    rewrite <- H0, <- H1. reflexivity.
  - intros e H.
    destruct ((L =? 4) && (be16 b0 b1 =? opcodeACK)); [discriminate H|].
    destruct (Z.eqb_spec (be16 b0 b1) OpcodeError) as [O5 | O5];
      cbn [negb] in H; [|discriminate H].
    destruct (Z.ltb_spec L 5) as [L5 | L5]; [discriminate H|].
    destruct (byte_eqb_spec fin NUL) as [Hfin | Hfin];
      cbn [negb] in H; [|discriminate H].
    injection H as <-. cbn [ep_Opcode ep_ErrorCode ep_ErrorMsg].
    split; [exact O5|]. split; [exact R23|].
    unfold error_frame. rewrite H2, H3.
    rewrite O5 in H0, H1.
    change (byte_of_Z (OpcodeError / 256)) with x00 in H0.
    change (byte_of_Z (OpcodeError mod 256)) with x05 in H1.
    rewrite <- H0, <- H1. f_equal.
    rewrite Hmsg by lia. apply slice_last; [lia|].
    rewrite <- Hidx by lia. exact Hfin.
Qed.

Lemma parseACKPacket_inverse_witness :
  parseACKPacket [x00; x04; x01; x02]
  = Ok {| ack_Opcode := 4; ack_Block := 258 |} /\
  [x00; x04; x01; x02] = ack_frame 258.
Proof.
  split; [reflexivity|].
  exact (proj2 (proj2 (proj1 (parseACKPacket_inverse [x00; x04; x01; x02])
                         {| ack_Opcode := 4; ack_Block := 258 |} eq_refl))).
Defined.

(** *** [netASCIIResponseWriter] over a capturing writer *)

Lemma Encode_app (p q : list byte) : Encode (p ++ q) = Encode p ++ Encode q.
Proof. unfold Encode. apply flat_map_app. Qed.

(** X14.  Pieces written one after the other through a
    [netASCIIResponseWriter] arrive at the embedded writer as the netascii
    form of their concatenation: the conversion of a stream does not depend
    on where it is cut.  Every call returns the length of its piece, not of
    what it passed on. *)
Theorem netascii_writes_capture (ps : list (list byte)) (w : list byte)
    (counts : list write_result) :
  netascii_writes ps w counts
  = (w ++ toNetASCII (concat ps),
     rev (map (fun p => WReturned (len p) None) ps) ++ counts).
Proof.
  revert w counts. induction ps as [|p ps IH]; intros w counts.
  - cbn. rewrite app_nil_r. reflexivity.
  - cbn [netascii_writes]. unfold netASCIIResponseWriter_Write.
    cbn [Write captureResponseWriter].
    rewrite IH. rewrite netASCII_replace_Encode, !toNetASCII_Encode.
    cbn [concat map rev]. rewrite Encode_app, <- !app_assoc. reflexivity.
Qed.

(** *** The server *)

Section Server.

Variable mapUnicodeLower : list byte -> list byte.
Variable A : Type.
Variable handler : response -> Request -> A.

(** X15.  [serve] calls the handler only for a datagram that
    [parseRequestPacket] accepts and only once the socket of the transfer
    is bound; in every other case it returns without calling it.  The
    handler is given the request with the packet's fields, the length of
    the datagram and the sender's address, and a new session on that
    socket: block counter 0, nothing buffered, both scratch buffers of 516
    bytes, and netascii conversion exactly when the mode is "netascii". *)
Theorem serve_contract (b addr : list byte) (split : option error)
    (listen : result PacketConn) :
  (forall p c,
     parseRequestPacket mapUnicodeLower b = Ok p ->
     split = None -> listen = Ok c ->
     exists w,
       serve mapUnicodeLower handler b addr split listen
       = Some (handler w {| rq_Opcode := rp_Opcode p;
                            rq_Filename := rp_Filename p;
                            rq_Mode := rp_Mode p;
                            rq_Length := len b;
                            rq_RemoteAddr := addr |}) /\
       conn w = c /\ block w = 0 /\ buf w = [] /\
       length (rb w) = 516%nat /\ length (wb w) = 516%nat /\
       (netASCII w = true <-> rp_Mode p = ModeNetASCII)) /\
  ((exists e, parseRequestPacket mapUnicodeLower b = Err e) \/
   (exists e, split = Some e) \/ (exists e, listen = Err e) ->
   serve mapUnicodeLower handler b addr split listen = None).
Proof.
  unfold serve, parseRequest. split.
  - intros p c Hp -> ->. rewrite Hp. cbn [rq_Mode newResponse].
    eexists. split; [reflexivity|].
    cbn [conn block buf rb wb netASCII].
    repeat split; try reflexivity.
    + destruct (bytes_eqb (rp_Mode p) ModeNetASCII) eqn:E;
        [intros _; apply bytes_eqb_eq; exact E | discriminate].
    + intros Hm. apply bytes_eqb_eq in Hm. rewrite Hm. reflexivity.
  - intros [[e He] | [[e ->] | [e ->]]].
    + rewrite He. reflexivity.
    + destruct (parseRequestPacket mapUnicodeLower b); reflexivity.
    + destruct (parseRequestPacket mapUnicodeLower b); [|reflexivity].
      destruct split; reflexivity.
Qed.

End Server.

Lemma serve_contract_witness :
  exists w,
    serve (fun s => s) pair
      [x00; x01; x61; x00; x6f; x63; x74; x65; x74; x00] [x63] None
      (Ok three_acked_blocks)
    = Some (w, {| rq_Opcode := 1; rq_Filename := [x61];
                  rq_Mode := ModeOctet; rq_Length := 10;
                  rq_RemoteAddr := [x63] |}) /\
    block w = 0.
Proof.
  destruct (proj1 (serve_contract (fun s => s) (response * Request) pair
                     [x00; x01; x61; x00; x6f; x63; x74; x65; x74; x00]
                     [x63] None (Ok three_acked_blocks))
              {| rp_Opcode := 1; rp_Filename := [x61]; rp_Mode := ModeOctet |}
              three_acked_blocks eq_refl eq_refl eq_refl)
    as (w & Hs & _ & Hb & _).
  exists w. split; [exact Hs | exact Hb].
Defined.

(** *** [newConn] *)

Lemma array_at_app_new (h : store) (v : list byte) :
  array_at (h ++ [v]) (length h) = v.
Proof.
  unfold array_at. rewrite app_nth2 by lia. rewrite Nat.sub_diag. reflexivity.
Qed.

Lemma array_at_app_old (h : store) (v : list byte) (a : nat) :
  (a < length h)%nat -> array_at (h ++ [v]) a = array_at h a.
Proof. intros Ha. unfold array_at. apply app_nth1. exact Ha. Qed.

Lemma set_array_new (h : store) (v v' : list byte) :
  set_array (h ++ [v]) (length h) v' = h ++ [v'].
Proof.
  unfold set_array. rewrite firstn_app, Nat.sub_diag, firstn_all.
  cbn [firstn]. rewrite app_nil_r.
  rewrite skipn_all2 by (rewrite length_app; cbn [length]; lia).
  reflexivity.
Qed.

Lemma array_at_set_other (h : store) (a a' : nat) (v : list byte) :
  (a < length h)%nat -> a <> a' ->
  array_at (set_array h a v) a' = array_at h a'.
Proof.
  intros Hin Hne. unfold array_at, set_array.
  destruct (Nat.ltb_spec a' a) as [Hlt | Hge].
  - rewrite app_nth1 by (rewrite length_firstn; lia).
    rewrite nth_firstn.
    destruct (Nat.ltb_spec a' a); [reflexivity | lia].
  - rewrite app_nth2; rewrite length_firstn; [|lia].
    replace (Nat.min a (length h)) with a by lia.
    destruct (a' - a)%nat as [|k] eqn:Ek; [lia|].
    cbn [app nth]. rewrite nth_skipn. f_equal. lia.
Qed.

(** X16.  [newConn] gives the connection a buffer of its own: a new array
    holding the first [n] bytes that the shared receive buffer shows, with
    every array that existed left as it was.  What is stored later in the
    shared buffer's array (the next datagram read by [Serve]) does not
    change what the connection holds. *)
Theorem newConn_copies (h : store) (n : nat) (buf : Slice) :
  in_store h buf -> (n <= s_len buf)%nat ->
  exists h' c,
    newConn_mem h n buf = Some (h', c) /\
    c = {| s_array := length h; s_off := O; s_len := n |} /\
    firstn (length h) h' = h /\
    contents h' c = firstn n (contents h buf) /\
    forall v, contents (set_array h' (s_array buf) v) c = contents h' c.
Proof.
  intros [Ha Hcap] Hn. unfold newConn_mem.
  destruct (Nat.leb_spec n (length (array_at h (s_array buf)) - s_off buf))
    as [_ | Hbad]; [|lia].
  eexists. eexists. split; [reflexivity|].
  set (src := firstn n (skipn (s_off buf) (array_at h (s_array buf)))).
  assert (Hsrc : contents (h ++ [repeat NUL n])
                   {| s_array := s_array buf; s_off := s_off buf;
                      s_len := n |} = src).
  { unfold contents. cbn [s_array s_off s_len].
    rewrite (array_at_app_old h _ (s_array buf) Ha). reflexivity. }
  assert (Lsrc : length src = n).
  { unfold src. rewrite length_firstn, length_skipn. lia. }
  assert (Hcopy : fst (copy_at (repeat NUL n) 0 src) = src).
  { unfold copy_at. cbn [fst]. change (Z.to_nat 0) with O.
    cbn [firstn app]. rewrite Z.add_0_l, Z.sub_0_r.
    unfold len. rewrite repeat_length, Lsrc, Z.min_id, Nat2Z.id.
    rewrite <- Lsrc at 1. rewrite firstn_all.
    rewrite skipn_all2 by (rewrite repeat_length; lia).
    apply app_nil_r. }
  rewrite !Hsrc, !array_at_app_new, !Hcopy, !set_array_new.
  split; [reflexivity|].
  split; [rewrite firstn_app, Nat.sub_diag, firstn_all; cbn [firstn];
          apply app_nil_r|].
  assert (Hc : contents (h ++ [src])
                 {| s_array := length h; s_off := 0; s_len := n |} = src).
  { unfold contents. cbn [s_array s_off s_len skipn].
    rewrite array_at_app_new. rewrite <- Lsrc. apply firstn_all. }
  split.
  - rewrite Hc. unfold src, contents.
    rewrite firstn_firstn. replace (Nat.min n (s_len buf)) with n by lia.
    reflexivity.
  - intros v. unfold contents. cbn [s_array s_off s_len].
    rewrite array_at_set_other
      by (rewrite ?length_app; cbn [length]; lia).
    reflexivity.
Qed.

Lemma newConn_copies_witness :
  exists h' c,
    newConn_mem [[x61; x62; x63]] 2 {| s_array := 0; s_off := 0; s_len := 3 |}
    = Some (h', c) /\
    contents h' c = [x61; x62] /\
    contents (set_array h' 0 [x7a; x7a; x7a]) c = [x61; x62].
Proof.
  destruct (newConn_copies [[x61; x62; x63]] 2
              {| s_array := 0; s_off := 0; s_len := 3 |})
    as (h' & c & H1 & _ & _ & H2 & H3).
  - unfold in_store. simpl. lia.
  - simpl. lia.
  - exists h', c. split; [exact H1|]. split; [exact H2|].
    exact (eq_trans (H3 [x7a; x7a; x7a]) H2).
Defined.

(** *** What a session puts on the wire *)

Lemma concat_full_blocks (m : nat) (d : list byte) :
  concat (full_blocks m d) ++ skipn (512 * m) d = d.
Proof.
  revert d. induction m as [|m IH]; intros d.
  - rewrite Nat.mul_0_r, skipn_O. reflexivity.
  - cbn [full_blocks concat]. rewrite <- skipn_512_mul, <- app_assoc, IH.
    apply firstn_skipn.
Qed.

Lemma full_blocks_bound (m : nat) (d : list byte) :
  Forall (fun b => len b <= 512) (full_blocks m d).
Proof.
  revert d. induction m as [|m IH]; intros d; cbn [full_blocks];
    constructor; [|apply IH].
  unfold len. rewrite length_firstn. lia.
Qed.

Lemma map_fst_combine (bs : list (list byte)) (ks : list nat) :
  length ks = length bs -> map fst (combine bs ks) = bs.
Proof.
  revert ks. induction bs as [|b bs IH]; intros [|k ks] H;
    try discriminate H; [reflexivity|].
  cbn [combine map fst]. rewrite IH by (injection H; auto). reflexivity.
Qed.

Lemma payloads_app (bl1 bl2 : list (list byte * nat)) :
  payloads (bl1 ++ bl2) = payloads bl1 ++ payloads bl2.
Proof. unfold payloads. rewrite map_app, concat_app. reflexivity. Qed.

Lemma written_app (na : bool) (cs1 cs2 : list call) :
  written na (cs1 ++ cs2) = written na cs1 ++ written na cs2.
Proof.
  induction cs1 as [|[p|] cs1 IH]; cbn [app written];
    [reflexivity | rewrite IH, app_assoc; reflexivity | exact IH].
Qed.

(** One call of [Write]: the blocks it issues hold at most 512 bytes each,
    and with what it leaves in the buffer they are the buffer with the
    (converted) input appended. *)
Lemma response_Write_trace (r r' : response) (p : list byte)
    (res : write_result) :
  wellformed r ->
  response_Write r p = (r', res) ->
  wellformed r' /\ netASCII r' = netASCII r /\
  (res = WBlocked -> exhausted (conn r')) /\
  exists bl,
    wlog (conn r') = wlog (conn r) ++ transmissions (block r) bl /\
    block r' = (block r + Z.of_nat (length bl)) mod 65536 /\
    Forall (fun pk => len (fst pk) <= 512) bl /\
    payloads bl ++ buf r'
    = buf r ++ (if netASCII r then toNetASCII p else p).
Proof.
  intros (Hrb & Hwb & Hblk) H.
  rewrite response_Write_unfold in H. cbn zeta in H.
  set (data := buf r ++ (if netASCII r then toNetASCII p else p)) in *.
  destruct (len data <? 512).
  - injection H as <- <-. split; [|split; [|split]].
    + repeat split; cbn; assumption || lia.
    + reflexivity.
    + discriminate.
    + exists []. cbn. rewrite app_nil_r, Z.add_0_r, Z.mod_small by lia.
      repeat split. constructor.
  - destruct (writeBlocks _ _) as [r1 o] eqn:E.
    injection H as <- <-.
    pose proof E as E'.
    apply writeBlocks_inv in E; [| exact Hwb | exact Hblk].
    cbn [rb wb buf block netASCII conn set_buf] in E.
    destruct E as (W1 & W2 & W3 & m & ks & Hm & Hks & Hlog & Hbuf & Hb & _).
    split; [|split; [|split]].
    + repeat split; try congruence; rewrite Hb; apply Z.mod_pos_bound; lia.
    + exact W3.
    + destruct o as [e|]; [discriminate|]. intros _.
      exact (writeBlocks_blocked _ _ _ E').
    + exists (combine (full_blocks m data) ks).
      assert (Hfst : map fst (combine (full_blocks m data) ks)
                     = full_blocks m data)
        by (apply map_fst_combine; rewrite length_full_blocks; exact Hks).
      split; [exact Hlog|]. split; [|split].
      * rewrite length_combine, length_full_blocks, Hks, Nat.min_id.
        exact Hb.
      * apply (proj1 (Forall_map fst (fun b => len b <= 512) _)).
        rewrite Hfst. apply full_blocks_bound.
      * unfold payloads. rewrite Hfst, Hbuf. apply concat_full_blocks.
Qed.

(** One call of [Flush]. *)
Lemma response_Flush_trace (r r' : response) (o : outcome) :
  wellformed r ->
  response_Flush r = (r', o) ->
  wellformed r' /\ netASCII r' = netASCII r /\
  (o = Blocked -> exhausted (conn r')) /\
  exists bl,
    wlog (conn r') = wlog (conn r) ++ transmissions (block r) bl /\
    block r' = (block r + Z.of_nat (length bl)) mod 65536 /\
    Forall (fun pk => len (fst pk) <= 512) bl /\
    payloads bl ++ buf r' = buf r.
Proof.
  intros (Hrb & Hwb & Hblk) E. unfold response_Flush in E.
  destruct (writeOneBlock_inv r r' o Hwb E)
    as (W1 & W2 & W3 & W4 & W5 & k & Wk & _).
  split; [|split; [|split]].
  - repeat split; try congruence; rewrite W5; apply Z.mod_pos_bound; lia.
  - exact W3.
  - intros ->. exact (writeOneBlock_blocked _ _ E).
  - exists [(firstn 512 (buf r), k)]. split; [exact Wk|]. split; [exact W5|].
    split.
    + constructor; [|constructor]. cbn [fst]. unfold len.
      rewrite length_firstn. lia.
    + unfold payloads. cbn [map fst concat]. rewrite app_nil_r, W4.
      apply firstn_skipn.
Qed.

(** The calls of a handler, whatever the network answers. *)
Lemma run_trace (cs : list call) (r : response) :
  wellformed r ->
  wellformed (run cs r) /\ netASCII (run cs r) = netASCII r /\
  exists bl n,
    wlog (conn (run cs r)) = wlog (conn r) ++ transmissions (block r) bl /\
    block (run cs r) = (block r + Z.of_nat (length bl)) mod 65536 /\
    Forall (fun pk => len (fst pk) <= 512) bl /\
    (n <= length cs)%nat /\
    payloads bl ++ buf (run cs r)
    = buf r ++ written (netASCII r) (firstn n cs) /\
    (n = length cs \/ exhausted (conn (run cs r))).
Proof.
  revert r. induction cs as [|c cs IH]; intros r Hwf.
  - cbn [run]. split; [exact Hwf|]. split; [reflexivity|].
    exists [], O. cbn. destruct Hwf as (_ & _ & Hblk).
    rewrite !app_nil_r, Z.add_0_r, Z.mod_small by lia.
    repeat split; auto.
  - assert (Hstep : forall r1 bl1 (e : list byte),
      wellformed r1 -> netASCII r1 = netASCII r ->
      wlog (conn r1) = wlog (conn r) ++ transmissions (block r) bl1 ->
      block r1 = (block r + Z.of_nat (length bl1)) mod 65536 ->
      Forall (fun pk => len (fst pk) <= 512) bl1 ->
      payloads bl1 ++ buf r1 = buf r ++ e ->
      written (netASCII r) [c] = e ->
      wellformed (run cs r1) /\ netASCII (run cs r1) = netASCII r /\
      exists bl n,
        wlog (conn (run cs r1))
        = wlog (conn r) ++ transmissions (block r) bl /\
        block (run cs r1) = (block r + Z.of_nat (length bl)) mod 65536 /\
        Forall (fun pk => len (fst pk) <= 512) bl /\
        (n <= length (c :: cs))%nat /\
        payloads bl ++ buf (run cs r1)
        = buf r ++ written (netASCII r) (firstn n (c :: cs)) /\
        (n = length (c :: cs) \/ exhausted (conn (run cs r1)))).
    { intros r1 bl1 e Hwf1 Hna1 Hlog1 Hb1 Hf1 Hp1 He.
      destruct (IH r1 Hwf1)
        as (Hwf2 & Hna2 & bl2 & n & Hlog2 & Hb2 & Hf2 & Hn & Hp2 & Hx).
      split; [exact Hwf2|]. split; [congruence|].
      exists (bl1 ++ bl2), (S n). repeat split.
      - rewrite Hlog2, Hlog1, transmissions_app, <- app_assoc, Hb1.
        reflexivity.
      - rewrite Hb2, Hb1, Zplus_mod_idemp_l, length_app. f_equal. lia.
      - apply Forall_app. split; assumption.
      - cbn [length]. lia.
      - rewrite payloads_app, <- app_assoc, Hp2, app_assoc, Hp1, Hna1.
        rewrite <- app_assoc. f_equal. rewrite <- He.
        change (firstn (S n) (c :: cs)) with ([c] ++ firstn n cs).
        symmetry. apply written_app.
      - destruct Hx as [-> | Hx]; [left; reflexivity | right; exact Hx]. }
    assert (Hstop : forall r1 bl1 (e : list byte),
      wellformed r1 -> netASCII r1 = netASCII r ->
      wlog (conn r1) = wlog (conn r) ++ transmissions (block r) bl1 ->
      block r1 = (block r + Z.of_nat (length bl1)) mod 65536 ->
      Forall (fun pk => len (fst pk) <= 512) bl1 ->
      payloads bl1 ++ buf r1 = buf r ++ e ->
      written (netASCII r) [c] = e ->
      exhausted (conn r1) ->
      wellformed r1 /\ netASCII r1 = netASCII r /\
      exists bl n,
        wlog (conn r1) = wlog (conn r) ++ transmissions (block r) bl /\
        block r1 = (block r + Z.of_nat (length bl)) mod 65536 /\
        Forall (fun pk => len (fst pk) <= 512) bl /\
        (n <= length (c :: cs))%nat /\
        payloads bl ++ buf r1
        = buf r ++ written (netASCII r) (firstn n (c :: cs)) /\
        (n = length (c :: cs) \/ exhausted (conn r1))).
    { intros r1 bl1 e Hwf1 Hna1 Hlog1 Hb1 Hf1 Hp1 He Hx.
      split; [exact Hwf1|]. split; [exact Hna1|].
      exists bl1, 1%nat. repeat split; try assumption.
      - cbn [length]. lia.
      - rewrite Hp1. f_equal. rewrite <- He.
        cbn [firstn]. reflexivity.
      - right. exact Hx. }
    destruct c as [p|]; cbn [run].
    + destruct (response_Write r p) as [r1 res] eqn:E.
      destruct (response_Write_trace r r1 p res Hwf E)
        as (Hwf1 & Hna1 & Hx & bl1 & Hlog1 & Hb1 & Hf1 & Hp1).
      destruct res as [n err|].
      * apply (Hstep r1 bl1 _ Hwf1 Hna1 Hlog1 Hb1 Hf1 Hp1).
        cbn [written]. apply app_nil_r.
      * apply (Hstop r1 bl1 _ Hwf1 Hna1 Hlog1 Hb1 Hf1 Hp1);
          [cbn [written]; apply app_nil_r | apply Hx; reflexivity].
    + destruct (response_Flush r) as [r1 o] eqn:E.
      destruct (response_Flush_trace r r1 o Hwf E)
        as (Hwf1 & Hna1 & Hx & bl1 & Hlog1 & Hb1 & Hf1 & Hp1).
      rewrite <- (app_nil_r (buf r)) in Hp1.
      destruct o as [err|].
      * apply (Hstep r1 bl1 _ Hwf1 Hna1 Hlog1 Hb1 Hf1 Hp1). reflexivity.
      * apply (Hstop r1 bl1 _ Hwf1 Hna1 Hlog1 Hb1 Hf1 Hp1);
          [reflexivity | apply Hx; reflexivity].
Qed.

Lemma transmissions_frames (blk : Z) (bl : list (list byte * nat)) :
  Forall (fun pk => len (fst pk) <= 512) bl ->
  Forall (fun d => exists n p, d = data_frame n p /\ 0 <= n < 65536 /\
                               len p <= 512)
    (transmissions blk bl).
Proof.
  revert blk. induction bl as [|[p k] bl IH]; intros blk Hf;
    cbn [transmissions]; [constructor|].
  inversion Hf as [|x l Hp Hrest]; subst. apply Forall_app. split.
  - apply Forall_forall. intros d Hd. apply repeat_spec in Hd. subst d.
    exists ((blk + 1) mod 65536), p. split; [reflexivity|].
    split; [apply Z.mod_pos_bound; lia | exact Hp].
  - apply IH. exact Hrest.
Qed.

(** X17.  Whatever calls of [Write] and [Flush] a handler makes and
    whatever the network answers, every datagram the session hands to the
    socket is a DATA packet: opcode 3, a block number, and a payload of at
    most 512 bytes, so between 4 and 516 bytes in all. *)
Theorem session_sends_data_packets (cs : list call) (r : response) :
  wellformed r ->
  exists new,
    wlog (conn (run cs r)) = wlog (conn r) ++ new /\
    Forall (fun d =>
              (exists n p, d = data_frame n p /\ 0 <= n < 65536 /\
                           len p <= 512) /\
              4 <= len d <= 516 /\
              binary.Uint16 (slice d 0 2) = opcodeDATA) new.
Proof.
  intros Hwf.
  destruct (run_trace cs r Hwf)
    as (_ & _ & bl & n & Hlog & _ & Hf & _).
  exists (transmissions (block r) bl). split; [exact Hlog|].
  eapply Forall_impl; [|apply transmissions_frames; exact Hf].
  intros d (k & p & -> & Hk & Hp). split.
  - exists k, p. repeat split; lia || assumption.
  - rewrite len_data_frame. pose proof (len_nonneg p). split; [lia|].
    reflexivity.
Qed.

Lemma session_sends_data_packets_witness :
  exists new,
    wlog (conn (run [CallFlush] stale_ack_session)) = [] ++ new /\
    Forall (fun d =>
              (exists n p, d = data_frame n p /\ 0 <= n < 65536 /\
                           len p <= 512) /\
              4 <= len d <= 516 /\
              binary.Uint16 (slice d 0 2) = opcodeDATA) new.
Proof.
  apply (session_sends_data_packets [CallFlush] stale_ack_session).
  repeat split; try reflexivity; discriminate.
Defined.



(** X19.  When [Write] returns [nil], fewer than 512 bytes are left in the
    buffer, and a [Flush] after it takes exactly those bytes as its one
    block and leaves the buffer empty, whatever the network answers: every
    datagram of the call is that block, which is handed to the socket at
    least once as soon as the socket takes the deadline and answers the
    write, and whenever [Flush] returns [nil]; it is sent exactly once,
    and [Flush] returns [nil], when it is written whole and an ACK for
    another block than the previous one comes back. *)
Theorem response_Write_then_Flush (r r' : response) (p : list byte) (n : Z) :
  wellformed r ->
  response_Write r p = (r', WReturned n None) ->
  let frame := data_frame ((block r' + 1) mod 65536) (buf r') in
  len (buf r') < 512 /\
  buf (fst (response_Flush r')) = [] /\
  (exists k,
     wlog (conn (fst (response_Flush r')))
     = wlog (conn r') ++ repeat frame k /\
     ((exists ds, deadline_replies (conn r') = None :: ds) ->
      write_replies (conn r') <> [] -> (1 <= k)%nat) /\
     (snd (response_Flush r') = Returned None -> (1 <= k)%nat)) /\
  (forall ds ws rs log dgram ack,
     conn r' = mkPacketConn (None :: ds) ((len frame, None) :: ws)
                 (Ok dgram :: rs) log ->
     parseACKPacket (firstn 516 dgram) = Ok ack ->
     ack_Block ack <> block r' ->
     snd (response_Flush r') = Returned None /\
     conn (fst (response_Flush r'))
     = mkPacketConn ds ws rs (log ++ [frame])).
Proof.
  intros Hwf H frame.
  assert (Hshort : len (buf r') < 512).
  { pose proof Hwf as (Hrb & Hwb & Hblk).
    rewrite response_Write_unfold in H. cbn zeta in H.
    set (data := buf r ++ (if netASCII r then toNetASCII p else p)) in *.
    destruct (Z.ltb_spec (len data) 512) as [Hlt | Hge].
    - injection H as <- _. exact Hlt.
    - destruct (writeBlocks _ _) as [r1 o] eqn:E.
      injection H as <- Ho.
      apply writeBlocks_inv in E; [| exact Hwb | exact Hblk].
      cbn [rb wb buf block netASCII conn set_buf] in E.
      destruct E as (_ & _ & _ & m & ks & _ & _ & _ & Hbuf & _ & Hok & _).
      destruct o as [[e|]|]; try discriminate Ho.
      rewrite Hbuf, (Hok eq_refl). apply remainder_short. }
  split; [exact Hshort|].
  destruct (response_Write_trace r r' p _ Hwf H) as (Hwf' & _).
  pose proof Hwf' as (_ & Hwb' & _).
  assert (Hall : firstn 512 (buf r') = buf r')
    by (apply firstn_all2; unfold len in Hshort; lia).
  unfold response_Flush.
  destruct (writeOneBlock r') as [r2 o] eqn:E. cbn [fst snd].
  destruct (writeOneBlock_inv_sent r' r2 o Hwb' E)
    as (_ & _ & _ & W4 & _ & k & Wk & Wpos & Wnil).
  split; [|split].
  - rewrite W4. apply skipn_all2. unfold len in Hshort. lia.
  - exists k. split; [|split; [exact Wpos | exact Wnil]].
    rewrite Wk. cbn [transmissions].
    rewrite app_nil_r, Hall. reflexivity.
  - intros ds ws rs log dgram ack Hc Hp Hack.
    destruct (writeOneBlock_acked r' ds ws rs log (len frame) dgram ack
                Hwf' Hc)
      as (r1 & Hw & _ & _ & Hc1 & _); [| exact Hp | exact Hack |].
    + unfold frame. rewrite len_data_frame, Hall. reflexivity.
    + rewrite E in Hw. injection Hw as -> ->.
      split; [reflexivity|]. rewrite Hc1, Hall. reflexivity.
Qed.

Lemma response_Write_then_Flush_witness :
  len (buf (fst (response_Write stale_ack_session [x62]))) < 512 /\
  buf (fst (response_Flush (fst (response_Write stale_ack_session [x62]))))
  = [] /\
  exists k,
    wlog (conn (fst (response_Flush
                       (fst (response_Write stale_ack_session [x62])))))
    = [] ++ repeat (data_frame 1 [x61; x62]) k /\
    (1 <= k)%nat.
Proof.
  pose proof (response_Write_then_Flush stale_ack_session
                (fst (response_Write stale_ack_session [x62])) [x62] 1
                wellformed_stale_ack_session eq_refl) as H.
  cbv zeta in H. destruct H as (H1 & H2 & (k & Hk & Hpos & _) & _).
  split; [exact H1|]. split; [exact H2|].
  exists k. split; [exact Hk|].
  apply Hpos; [eexists; reflexivity | discriminate].
Defined.

(** *** Errors of the transport *)

Lemma writeOneBlock_start (r : response) :
  length (wb r) = 516%nat ->
  exists r0,
    writeOneBlock r
    = sendLoop (S (length (deadline_replies (conn r)))) r0
        (len (firstn 512 (buf r))) /\
    conn r0 = conn r /\ rb r0 = rb r /\ buf r0 = skipn 512 (buf r) /\
    block r0 = (block r + 1) mod 65536 /\ netASCII r0 = netASCII r /\
    slice (wb r0) 0 (len (firstn 512 (buf r)) + 4)
    = data_frame ((block r + 1) mod 65536) (firstn 512 (buf r)).
Proof.
  intros Hwb.
  destruct (frameBlock_spec r Hwb) as (wb' & Hf & Hwb' & Hslice).
  eexists. split; [unfold writeOneBlock; rewrite Hf; reflexivity|].
  cbn [conn rb buf block netASCII wb]. repeat split. exact Hslice.
Qed.

Lemma readLoop_error (k fuel : nat) (r : response)
    (ds : list (option error)) (ws : list (Z * option error))
    (rs : list (result (list byte))) (log : list (list byte))
    (e : error) :
  e <> OpError true ->
  conn r = mkPacketConn ds ws
             (repeat (Err (OpError true)) k ++ Err e :: rs) log ->
  (k < fuel)%nat ->
  readLoop fuel r
  = (set_rb (set_conn r (mkPacketConn ds ws rs log)) (rb r), Some (Err e)).
Proof.
  intros He. revert fuel r. induction k as [|k IH]; intros fuel r Hc Hk.
  - destruct fuel as [|fuel]; [lia|].
    cbn [readLoop]. unfold ReadFrom. rewrite Hc.
    cbn [read_replies repeat app deadline_replies write_replies wlog].
    destruct e as [| | | | | |[|]|]; try reflexivity.
    contradiction He; reflexivity.
  - destruct fuel as [|fuel]; [lia|].
    cbn [readLoop]. unfold ReadFrom. rewrite Hc.
    cbn [read_replies repeat app deadline_replies write_replies wlog].
    rewrite (IH fuel _); [reflexivity | reflexivity | lia].
Qed.

(** X20.  An error of the transport other than a timeout ends
    [writeOneBlock] (and so [Flush], and the [Write] that called it) at
    once with that error: an error of [SetDeadline] (of any kind) before
    anything is sent; an error of [WriteTo], or a write of another length
    than the frame's, which gives [io.ErrShortWrite], before anything is
    read; an error of [ReadFrom], also after read timeouts, with nothing
    sent again.  In each case the block counter has moved on and the block
    has left the buffer: a later call sends the next block, not this
    one. *)
Theorem writeOneBlock_transport_errors (r : response)
    (ds : list (option error)) (ws : list (Z * option error))
    (rs : list (result (list byte))) (log : list (list byte)) (e : error) :
  wellformed r ->
  let frame := data_frame ((block r + 1) mod 65536) (firstn 512 (buf r)) in
  (conn r = mkPacketConn (Some e :: ds) ws rs log ->
   fails_with r (mkPacketConn ds ws rs log) e) /\
  (forall wn,
     e <> OpError true ->
     conn r = mkPacketConn (None :: ds) ((wn, Some e) :: ws) rs log ->
     fails_with r (mkPacketConn ds ws rs (log ++ [frame])) e) /\
  (forall wn,
     wn <> len frame ->
     conn r = mkPacketConn (None :: ds) ((wn, None) :: ws) rs log ->
     fails_with r (mkPacketConn ds ws rs (log ++ [frame])) ErrShortWrite) /\
  (forall k,
     e <> OpError true ->
     conn r = mkPacketConn (None :: ds) ((len frame, None) :: ws)
                (timeouts k ++ Err e :: rs) log ->
     fails_with r (mkPacketConn ds ws rs (log ++ [frame])) e).
Proof.
  intros (Hrb & Hwb & Hblk) frame.
  destruct (writeOneBlock_start r Hwb)
    as (r0 & Hw & Hc0 & Hrb0 & Hbuf0 & Hblk0 & Hna0 & Hslice).
  fold frame in Hslice.
  assert (Hlen : len frame = len (firstn 512 (buf r)) + 4)
    by apply len_data_frame.
  unfold fails_with. rewrite Hw.
  split; [|split; [|split]].
  - intros Hc. rewrite Hc in *.
    cbn [deadline_replies length sendLoop]. unfold SetDeadline.
    rewrite Hc0. cbn [deadline_replies write_replies read_replies wlog].
    eexists. split; [reflexivity|]. cbn [conn set_conn block buf].
    repeat split; assumption.
  - intros wn He Hc. rewrite Hc in *.
    cbn [deadline_replies length sendLoop]. unfold SetDeadline, WriteTo.
    rewrite Hc0.
    cbn [deadline_replies write_replies read_replies wlog conn set_conn wb].
    rewrite Hslice.
    destruct e as [| | | | | |[|]|];
      try (eexists; split; [reflexivity|]; cbn [conn set_conn block buf];
           repeat split; assumption).
    contradiction He; reflexivity.
  - intros wn Hwn Hc. rewrite Hc in *.
    cbn [deadline_replies length sendLoop]. unfold SetDeadline, WriteTo.
    rewrite Hc0.
    cbn [deadline_replies write_replies read_replies wlog conn set_conn wb].
    rewrite Hslice. rewrite <- Hlen.
    destruct (Z.eqb_spec wn (len frame)) as [Heq | _]; [contradiction|].
    cbn [negb].
    eexists; split; [reflexivity|]; cbn [conn set_conn block buf];
      repeat split; assumption.
  - intros k He Hc. rewrite Hc in *.
    cbn [deadline_replies length sendLoop]. unfold SetDeadline, WriteTo.
    rewrite Hc0.
    cbn [deadline_replies write_replies read_replies wlog conn set_conn wb].
    rewrite Hslice, <- Hlen, Z.eqb_refl. cbn [negb].
    unfold timeouts.
    rewrite (readLoop_error k _ _ ds ws rs (log ++ [frame]) e He);
      [| reflexivity | rewrite length_app, repeat_length; simpl; lia].
    eexists; split; [reflexivity|]; cbn [conn set_conn set_rb block buf];
      repeat split; assumption.
Qed.

Lemma writeOneBlock_transport_errors_witness :
  fails_with
    (set_conn drained_session
       (mkPacketConn [None] [(3, None)] [Ok (ack_frame 3)] []))
    (mkPacketConn [] [] [Ok (ack_frame 3)] [data_frame 3 []])
    ErrShortWrite.
Proof.
  refine (proj1 (proj2 (proj2
    (writeOneBlock_transport_errors
       (set_conn drained_session
          (mkPacketConn [None] [(3, None)] [Ok (ack_frame 3)] []))
       [] [] [Ok (ack_frame 3)] [] EOF _))) 3 _ eq_refl).
  - repeat split; try reflexivity; discriminate.
  - discriminate.
Defined.

(** *** Write timeouts *)

Lemma frameBlock_set_conn (r : response) (c : PacketConn) :
  frameBlock (set_conn r c)
  = (set_conn (fst (frameBlock r)) c, snd (frameBlock r)).
Proof.
  unfold frameBlock.
  cbn [set_conn set_block set_wb set_buf conn rb wb buf block netASCII].
  destruct (Next (buf r) blockSize) as [next rest].
  cbn [set_conn set_block set_wb set_buf conn rb wb buf block netASCII].
  destruct (copy_at _ 4 next) as [wb' cn]. reflexivity.
Qed.

Lemma sendLoop_write_timeouts (wns : list Z) (fuel : nat) (r : response)
    (cn : Z) (ds : list (option error)) (ws : list (Z * option error))
    (rs : list (result (list byte))) (log : list (list byte)) :
  conn r = mkPacketConn (repeat None (length wns) ++ ds)
             (map (fun wn => (wn, Some (OpError true))) wns ++ ws) rs log ->
  sendLoop (length wns + fuel) r cn
  = sendLoop fuel
      (set_conn r (mkPacketConn ds ws rs
                     (log ++ repeat (slice (wb r) 0 (cn + 4))
                                (length wns)))) cn.
Proof.
  revert r log. induction wns as [|wn wns IH]; intros r log Hc.
  - cbn [length repeat app map Nat.add] in *. rewrite app_nil_r, <- Hc.
    destruct r; reflexivity.
  - cbn [length repeat app map Nat.add] in *.
    cbn [sendLoop]. unfold SetDeadline, WriteTo. rewrite Hc.
    cbn [deadline_replies write_replies read_replies wlog conn set_conn wb].
    rewrite (IH _ (log ++ [slice (wb r) 0 (cn + 4)])) by reflexivity.
    cbn [set_conn conn rb wb buf block netASCII].
    rewrite <- app_assoc. reflexivity.
Qed.

(** X21.  Writes that time out are retried: after [k] of them
    [writeOneBlock] goes on as it would on the network without them, with
    one more copy of the block's datagram handed to the socket for each. *)
Theorem writeOneBlock_write_timeouts (r : response) (wns : list Z)
    (ds : list (option error)) (ws : list (Z * option error))
    (rs : list (result (list byte))) (log : list (list byte)) :
  wellformed r ->
  let frame := data_frame ((block r + 1) mod 65536) (firstn 512 (buf r)) in
  conn r = mkPacketConn (repeat None (length wns) ++ ds)
             (map (fun wn => (wn, Some (OpError true))) wns ++ ws) rs log ->
  writeOneBlock r
  = writeOneBlock
      (set_conn r (mkPacketConn ds ws rs
                     (log ++ repeat frame (length wns)))).
Proof.
  intros (Hrb & Hwb & Hblk) frame Hc.
  destruct (frameBlock_spec r Hwb) as (wb' & Hf & Hwb' & Hslice).
  fold frame in Hslice.
  unfold writeOneBlock at 2. rewrite frameBlock_set_conn.
  unfold writeOneBlock. rewrite Hf. cbn [fst snd conn set_conn].
  rewrite Hc. cbn [deadline_replies].
  rewrite length_app, repeat_length.
  replace (S (length wns + length ds))
    with (length wns + S (length ds))%nat by lia.
  rewrite (sendLoop_write_timeouts wns _ _ _ ds ws rs log)
    by reflexivity.
  cbn [wb set_conn]. rewrite Hslice. reflexivity.
Qed.

Lemma writeOneBlock_write_timeouts_witness :
  writeOneBlock
    (set_conn drained_session
       (mkPacketConn [None; None] [(0, Some (OpError true)); (4, None)]
          [Ok (ack_frame 3)] []))
  = writeOneBlock
      (set_conn
         (set_conn drained_session
            (mkPacketConn [None; None] [(0, Some (OpError true)); (4, None)]
               [Ok (ack_frame 3)] []))
         (mkPacketConn [None] [(4, None)] [Ok (ack_frame 3)]
            ([] ++ repeat (data_frame 3 []) 1))).
Proof.
  apply (writeOneBlock_write_timeouts
           (set_conn drained_session
              (mkPacketConn [None; None]
                 [(0, Some (OpError true)); (4, None)]
                 [Ok (ack_frame 3)] []))
           [0] [None] [(4, None)] [Ok (ack_frame 3)] []).
  - repeat split; try reflexivity; discriminate.
  - reflexivity.
Defined.

(** *** An ERROR packet in reply *)

Lemma parseACKPacket_error_body (code : Z) (t : list byte) :
  0 <= code < 65536 -> 1 <= len t ->
  parseACKPacket
    (x00 :: x05 :: byte_of_Z (code / 256) :: byte_of_Z (code mod 256) :: t)
  = if Byte.eqb (index t (len t - 1)) NUL
    then Err (ErrorPacketError {| ep_Opcode := 5; ep_ErrorCode := code;
                                  ep_ErrorMsg := slice t 0 (len t - 1) |})
    else Err errInvalidERRORPacket.
Proof.
  intros Hc Ht.
  pose (hdr := [x00; x05; byte_of_Z (code / 256); byte_of_Z (code mod 256)]
               : list byte).
  change (x00 :: x05 :: byte_of_Z (code / 256) :: byte_of_Z (code mod 256)
            :: t) with (hdr ++ t).
  set (b := hdr ++ t).
  assert (Lh : len hdr = 4) by reflexivity.
  assert (Lb : len b = 4 + len t) by (unfold b; rewrite len_app, Lh; lia).
  assert (Hop : be16 (index b 0) (index b 1) = 5) by reflexivity.
  assert (Hn : be16 (index b 2) (index b 3) = code).
  { unfold b, hdr, index.
    change (Z.to_nat 2) with 2%nat. change (Z.to_nat 3) with 3%nat.
    cbn [app nth]. apply be16_of_Z. exact Hc. }
  assert (Hfin : index b (len b - 1) = index t (len t - 1)).
  { unfold b. rewrite index_app_r by (rewrite len_app, Lh; lia).
    f_equal. rewrite len_app, Lh. lia. }
  assert (Hmsg : slice b 4 (len b - 1) = slice t 0 (len t - 1)).
  { rewrite Lb. unfold b.
    replace (4 + len t - 1) with (len hdr + (len t - 1)) by (rewrite Lh; lia).
    change 4 with (len hdr + 0) at 1.
    apply slice_shift. lia. }
  unfold parseACKPacket.
  destruct (Z.ltb_spec (len b) 4); [lia|].
  replace (binary.Uint16 (slice b 0 2)) with 5
    by (rewrite <- Hop; symmetry; apply (Uint16_slice b 0); lia).
  replace (binary.Uint16 (slice b 2 4)) with code
    by (rewrite <- Hn; symmetry; apply (Uint16_slice b 2); lia).
  destruct (Z.eqb_spec (len b) 4); [lia|]. cbn [andb].
  change (5 =? OpcodeError) with true. cbn [negb].
  destruct (Z.ltb_spec (len b) 5); [lia|].
  rewrite Hfin, Hmsg.
  destruct (Byte.eqb (index t (len t - 1)) NUL); reflexivity.
Qed.

Lemma firstn_516_error_frame (code : Z) (msg : list byte) :
  firstn 516 (error_frame code msg)
  = [x00; x05; byte_of_Z (code / 256); byte_of_Z (code mod 256)]
    ++ firstn 512 (msg ++ [NUL]).
Proof.
  unfold error_frame. rewrite firstn_app.
  change (516 - length [x00; x05; byte_of_Z (code / 256);
                        byte_of_Z (code mod 256)])%nat with 512%nat.
  reflexivity.
Qed.

Lemma slice_0_firstn (t : list byte) (n : nat) :
  slice t 0 (Z.of_nat n) = firstn n t.
Proof.
  unfold slice. rewrite Z.sub_0_r, Nat2Z.id. change (Z.to_nat 0) with O.
  rewrite skipn_O. reflexivity.
Qed.

(** X22.  The peer answers a block with an ERROR packet.  When its message
    has at most 511 bytes, [writeOneBlock] returns it as an [ErrorPacket]
    with the peer's code and message.  The reply is read into a buffer of
    516 bytes, so of a longer message only 512 bytes are seen: the call
    returns [errInvalidERRORPacket], unless the message has a NUL at index
    511, where it is then cut.  In every case nothing is sent again and
    the block has left the buffer. *)
Theorem writeOneBlock_peer_error (r : response) (k : nat)
    (ds : list (option error)) (ws : list (Z * option error))
    (rs : list (result (list byte))) (log : list (list byte))
    (code : Z) (msg : list byte) :
  wellformed r -> 0 <= code < 65536 ->
  let frame := data_frame ((block r + 1) mod 65536) (firstn 512 (buf r)) in
  conn r = mkPacketConn (None :: ds) ((len frame, None) :: ws)
             (timeouts k ++ Ok (error_frame code msg) :: rs) log ->
  fails_with r (mkPacketConn ds ws rs (log ++ [frame]))
    (if len msg <=? 511
     then ErrorPacketError {| ep_Opcode := 5; ep_ErrorCode := code;
                              ep_ErrorMsg := msg |}
     else if Byte.eqb (index msg 511) NUL
          then ErrorPacketError {| ep_Opcode := 5; ep_ErrorCode := code;
                                   ep_ErrorMsg := firstn 511 msg |}
          else errInvalidERRORPacket).
Proof.
  intros (Hrb & Hwb & Hblk) Hcode frame Hc.
  destruct (writeOneBlock_round r k ds ws rs log (error_frame code msg)
              Hwb Hrb Hc)
    as (r1 & (Hc1 & Hb1 & Hbuf1 & _) & _ & _ & Herr).
  assert (Hparse : parseACKPacket (firstn 516 (error_frame code msg))
    = Err (if len msg <=? 511
           then ErrorPacketError {| ep_Opcode := 5; ep_ErrorCode := code;
                                    ep_ErrorMsg := msg |}
           else if Byte.eqb (index msg 511) NUL
                then ErrorPacketError
                       {| ep_Opcode := 5; ep_ErrorCode := code;
                          ep_ErrorMsg := firstn 511 msg |}
                else errInvalidERRORPacket)).
  { rewrite firstn_516_error_frame.
    destruct (Z.leb_spec (len msg) 511) as [Hs | Hl].
    - rewrite firstn_all2
        by (rewrite length_app; cbn [length]; unfold len in Hs; lia).
      exact (parseACKPacket_error_frame code msg Hcode).
    - rewrite firstn_app.
      replace (512 - length msg)%nat with O by (unfold len in Hl; lia).
      rewrite firstn_O, app_nil_r. cbn [app].
      assert (L : len (firstn 512 msg) = 512)
        by (unfold len in *; rewrite length_firstn; lia).
      rewrite parseACKPacket_error_body by (rewrite ?L; lia).
      rewrite L. change (512 - 1) with 511.
      assert (Hi : index (firstn 512 msg) 511 = index msg 511).
      { unfold index. change (Z.to_nat 511) with 511%nat.
        rewrite nth_firstn.
        destruct (Nat.ltb_spec 511 512); [reflexivity | lia]. }
      rewrite Hi.
      destruct (Byte.eqb (index msg 511) NUL); [|reflexivity].
      do 2 f_equal. f_equal.
      change 511 with (Z.of_nat 511). rewrite slice_0_firstn.
      rewrite firstn_firstn. reflexivity. }
  exists r1. split; [exact (Herr _ Hparse)|].
  repeat split; assumption.
Qed.

Lemma writeOneBlock_peer_error_witness :
  fails_with
    (set_conn drained_session
       (mkPacketConn [None] [(4, None)] [Ok (error_frame 1 [x6e; x6f])] []))
    (mkPacketConn [] [] [] [data_frame 3 []])
    (ErrorPacketError {| ep_Opcode := 5; ep_ErrorCode := 1;
                         ep_ErrorMsg := [x6e; x6f] |}).
Proof.
  apply (writeOneBlock_peer_error
           (set_conn drained_session
              (mkPacketConn [None] [(4, None)]
                 [Ok (error_frame 1 [x6e; x6f])] []))
           0 [] [] [] [] 1 [x6e; x6f]).
  - repeat split; try reflexivity; discriminate.
  - lia.
  - reflexivity.
Defined.

(** *** A whole transfer *)

Lemma written_Writes (na : bool) (ps : list (list byte)) :
  written na (map CallWrite ps)
  = if na then toNetASCII (concat ps) else concat ps.
Proof.
  induction ps as [|p ps IH]; cbn [map written concat].
  - destruct na; reflexivity.
  - rewrite IH. destruct na; [|reflexivity].
    rewrite !toNetASCII_Encode, Encode_app. reflexivity.
Qed.

(** A handler that writes the pieces [ps] and then flushes, to a peer that
    acknowledges every block: the blocks of the transfer of the buffered
    bytes and the bytes written go out in order, once each. *)
Lemma run_acking_any (ps : list (list byte)) (r : response)
    (log : list (list byte)) :
  wellformed r -> len (buf r) < 512 ->
  conn r = acking_network (block r)
             (transfer_blocks
                (buf r ++ written (netASCII r) (map CallWrite ps))) log ->
  wlog (conn (run (map CallWrite ps ++ [CallFlush]) r))
  = log ++ transmissions (block r)
             (once (transfer_blocks
                      (buf r ++ written (netASCII r) (map CallWrite ps)))).
Proof.
  revert r log. induction ps as [|p ps IH]; intros r log Hwf Hshort Hc.
  - cbn [written map app run] in *. rewrite app_nil_r in *.
    rewrite transfer_blocks_short in * by assumption.
    unfold response_Flush.
    assert (Hf : firstn 512 (buf r) = buf r)
      by (apply firstn_all2; unfold len in Hshort; lia).
    assert (Hc' : conn r = acking_network (block r)
                             [firstn 512 (buf r)] log)
      by (rewrite Hf; exact Hc).
    destruct (writeOneBlock_acking r [] log Hwf Hc')
      as (r1 & Hw & _ & _ & _ & _ & Hc1).
    rewrite Hw. cbn [run]. rewrite Hc1, Hf. reflexivity.
  - cbn [written map app run] in *.
    set (e := if netASCII r then toNetASCII p else p) in *.
    set (rest := written (netASCII r) (map CallWrite ps)) in *.
    set (data := buf r ++ e).
    set (n := Z.to_nat (len data / 512)).
    assert (Hsplit : transfer_blocks (buf r ++ e ++ rest)
                     = full_blocks n data
                       ++ transfer_blocks (skipn (512 * n) data ++ rest)).
    { rewrite app_assoc. apply transfer_blocks_split. reflexivity. }
    rewrite Hsplit in *.
    pose proof (response_Write_acking r p
                  (transfer_blocks (skipn (512 * n) data ++ rest))
                  log Hwf) as HW.
    cbn zeta in HW. fold e data n in HW.
    destruct (HW Hc) as (r1 & Hw & Hwf1 & Hna1 & Hb1 & Hbuf1 & Hc1).
    rewrite Hw. rewrite <- Hbuf1 in Hc1.
    unfold rest in Hc1. rewrite <- Hna1 in Hc1.
    rewrite (IH r1 (log ++ transmissions (block r)
                                (once (full_blocks n data))) Hwf1);
      [| | exact Hc1].
    + rewrite <- app_assoc. f_equal.
      rewrite once_app, transmissions_app, length_once, length_full_blocks.
      rewrite Hb1, Hbuf1, Hna1. reflexivity.
    + rewrite Hbuf1. apply remainder_short.
Qed.

(** X23.  A served read, end to end.  The handler of a new session writes
    the bytes of a file in whatever pieces and then flushes, and the peer
    acknowledges every block at once.  Then the datagrams sent are exactly
    the DATA packets numbered 1, 2, ... of the blocks of the file (in
    netascii form when the mode is netascii), once each: every block but
    the last holds 512 bytes and the last fewer, possibly none.  The
    payloads put together are the file, or in netascii mode decode to it
    with [fromNetASCII]. *)
Theorem transfer_delivers (mode : Mode) (ps : list (list byte))
    (r : response) :
  let data := if bytes_eqb mode ModeNetASCII
              then toNetASCII (concat ps) else concat ps in
  let bl := transfer_blocks data in
  newResponse None (Ok (acking_network 0 bl [])) mode = Ok r ->
  wlog (conn (run (map CallWrite ps ++ [CallFlush]) r))
  = transmissions 0 (once bl) /\
  (exists full last,
     bl = full ++ [last] /\ Forall (fun b => len b = 512) full /\
     len last < 512) /\
  concat bl = data /\
  (mode = ModeNetASCII -> fromNetASCII (concat bl) = Ok (concat ps)) /\
  (mode <> ModeNetASCII -> concat bl = concat ps).
Proof.
  intros data bl Hnew.
  destruct (newResponse_ok _ _ _ Hnew) as (Hwf & Hb & Hbuf & Hc & Hna).
  assert (Hdata : buf r ++ written (netASCII r) (map CallWrite ps) = data).
  { rewrite Hbuf, written_Writes, Hna. reflexivity. }
  assert (Hcat : concat bl = data).
  { unfold bl, transfer_blocks. rewrite concat_app. cbn [concat].
    rewrite app_nil_r. apply concat_full_blocks. }
  split; [|split; [|split; [|split]]].
  - rewrite (run_acking_any ps r []).
    + rewrite Hdata, Hb. reflexivity.
    + exact Hwf.
    + rewrite Hbuf. reflexivity.
    + rewrite Hdata, Hb. exact Hc.
  - exists (full_blocks (Z.to_nat (len data / 512)) data),
      (skipn (512 * Z.to_nat (len data / 512)) data).
    split; [reflexivity|]. split.
    + apply full_blocks_length.
      pose proof (len_nonneg data) as L.
      pose proof (Z.mul_div_le (len data) 512 ltac:(lia)) as M.
      assert (0 <= len data / 512) by (apply Z.div_pos; lia).
      unfold len in *. lia.
    + apply remainder_short.
  - exact Hcat.
  - intros ->. rewrite Hcat. unfold data.
    change (bytes_eqb ModeNetASCII ModeNetASCII) with true. cbn iota.
    apply fromNetASCII_toNetASCII.
  - intros Hm. rewrite Hcat. unfold data.
    destruct (bytes_eqb mode ModeNetASCII) eqn:E; [|reflexivity].
    apply bytes_eqb_eq in E. contradiction.
Qed.

Lemma transfer_delivers_witness :
  wlog (conn (run (map CallWrite [[x61; LF]; [x62]] ++ [CallFlush])
                {| conn := acking_network 0
                             (transfer_blocks [x61; CR; LF; x62]) [];
                   rb := make 516; wb := make 516; buf := []; block := 0;
                   netASCII := true |}))
  = [data_frame 1 [x61; CR; LF; x62]].
Proof.
  exact (proj1 (transfer_delivers ModeNetASCII [[x61; LF]; [x62]] _
                  eq_refl)).
Defined.
